(** * assetfs: embedding a directory tree as an in-memory http.FileSystem

    A shallow embedding of the two halves of the program:

    - the generated runtime ([internal/template.go], repeated verbatim in the
      [head] constant of [assetfs.go]): [Open], [Close], [Stat], [Readdir],
      [Seek], [Read] over an [_assetfs] value;
    - the generator ([assetfs.go]): [walkFunc], [writeMetadata],
      [writeSection], [generateMain], run by [filepath.Walk] over a snapshot
      of the directory tree.

    Go's [int]/[int64] are modelled as [Z]; byte slices as [list byte];
    Go maps as stdpp's [gmap]; a Go [(T, error)] result as a pair whose
    second component is [option error] ([None] is [nil]); a run-time panic
    as the [Panic] outcome of the [go] type; the room a run has for the one
    allocation whose size the caller chooses ([Readdir]'s result slice) as
    the [Runtime] class. *)

From Stdlib Require Import ZArith String List Ascii Bool Lia.
From Stdlib.Strings Require Import Byte.
From stdpp Require Import gmap strings list fin_maps sorting.

Set Warnings "-register-all".
Local Open Scope Z_scope.

(** ** Outcomes and errors *)

(** The outcome of a Go call that may panic (index or slice out of range,
    nil dereference). *)
Inductive go (A : Type) : Type :=
| Ret (a : A)
| Panic (why : string).
Arguments Ret {A} a.
Arguments Panic {A} why.

Definition go_bind {A B} (m : go A) (k : A → go B) : go B :=
  match m with
  | Ret a => k a
  | Panic w => Panic w
  end.

Notation "x ←! m ; k" := (go_bind m (fun x => k))
  (at level 100, m at next level, right associativity, only parsing).

(** The error values the program returns.  The four sentinels are distinct
    package-level variables in Go ([os.ErrNotExist], [os.ErrInvalid],
    [io.EOF], and the program's own [_errIsDirectory := errors.New("is
    directory")]); [PathError] is [*os.PathError]; the two [ErrSeek_]
    values are what [bytes.Reader.Seek] returns; [ErrFileSize path] is
    [fmt.Errorf("file %q size exceeds max allowed size", path)];
    [ErrNew msg] is [errors.New(msg)]. *)
Inductive error : Type :=
| ErrNotExist
| ErrInvalid
| EOF
| _errIsDirectory
| PathError (Op Path : string) (Err : error)
| ErrSeekWhence
| ErrSeekNegative
| ErrFileSize (path : string)
| ErrNew (msg : string).

(** [os.IsNotExist]: the error is [os.ErrNotExist], possibly wrapped in a
    [*os.PathError]. *)
Definition IsNotExist (e : error) : bool :=
  match e with
  | ErrNotExist => true
  | PathError _ _ ErrNotExist => true
  | _ => false
  end.

(** [s[i]] on a slice: panics outside [0, len(s)). *)
Definition index {A} (l : list A) (i : Z) : go A :=
  if (i <? 0) || (Z.of_nat (length l) <=? i) then Panic "index out of range"
  else match l !! Z.to_nat i with
       | Some x => Ret x
       | None => Panic "index out of range"
       end.

(** [s[lo:]] on a slice: panics unless [0 <= lo <= len(s)]. *)
Definition slice_from {A} (l : list A) (lo : Z) : go (list A) :=
  if (lo <? 0) || (Z.of_nat (length l) <? lo) then Panic "slice bounds out of range"
  else Ret (drop (Z.to_nat lo) l).

(** Two's-complement wrap-around of [int64] arithmetic. *)
Definition wrap64 (z : Z) : Z := (z + 2 ^ 63) mod 2 ^ 64 - 2 ^ 63.

(** The memory of a run.  [make([]os.FileInfo, 0, n)] asks for room for [n]
    interface values before any is stored: the Go runtime panics
    ("makeslice: cap out of range") when that is more than it can address,
    and the process dies, out of memory, when the machine cannot provide
    it.  [max_cap] is the largest capacity the run is given room for; an
    interface value takes 16 bytes and no platform addresses more than
    2^48 bytes, so it is at most 2^44 whatever the machine. *)
Class Runtime : Type := {
  max_cap : Z;
  max_cap_le : max_cap ≤ 2 ^ 44;
}.

(** [make([]T, 0, n)]: the empty slice, or no return at all. *)
Definition make_cap {RT : Runtime} {A} (n : Z) : go (list A) :=
  if (n <? 0) || (max_cap <? n) then Panic "makeslice: cap out of range"
  else Ret [].

(** ** Path functions of the Go standard library (Unix separator) *)

Module path.

Local Open Scope string_scope.

(** The substrings of [s] between slashes: ["a//b"] gives [["a"; ""; "b"]]. *)
Fixpoint elements (s : string) : list string :=
  match s with
  | EmptyString => [EmptyString]
  | String c rest =>
      if Ascii.eqb c "/" then EmptyString :: elements rest
      else match elements rest with
           | [] => [String c EmptyString]
           | e :: es => String c e :: es
           end
  end.

Fixpoint join_slash (l : list string) : string :=
  match l with
  | [] => ""
  | [e] => e
  | e :: es => e +:+ "/" +:+ join_slash es
  end.

(** The element loop of [Clean]: empty elements and ["."] are dropped;
    [".."] removes the last kept element when there is one beyond the first
    [dotdot] elements, is dropped at the root of a rooted path, and is kept
    (and protected from later removal) otherwise. *)
Fixpoint clean_elements (rooted : bool) (es : list string) (out : list string)
    (dotdot : nat) : list string :=
  match es with
  | [] => out
  | e :: es' =>
      if String.eqb e "" || String.eqb e "." then clean_elements rooted es' out dotdot
      else if String.eqb e ".." then
        if (dotdot <? length out)%nat then clean_elements rooted es' (removelast out) dotdot
        else if rooted then clean_elements rooted es' out dotdot
        else clean_elements rooted es' (out ++ [".."]) (S (length out))
      else clean_elements rooted es' (out ++ [e]) dotdot
  end.

(** [path.Clean] / [filepath.Clean]. *)
Definition Clean (p : string) : string :=
  if String.eqb p "" then "."
  else
    let rooted := String.prefix "/" p in
    let out := clean_elements rooted (elements p) [] 0 in
    if rooted then "/" +:+ join_slash out
    else match out with
         | [] => "."
         | _ => join_slash out
         end.

(** [filepath.Join(a, b)]: empty leading elements are ignored, the rest is
    joined with the separator and cleaned. *)
Definition Join (a b : string) : string :=
  if String.eqb a "" then (if String.eqb b "" then "" else Clean b)
  else Clean (a +:+ "/" +:+ b).

(** The prefix of [s] up to and including its last slash. *)
Fixpoint through_last_slash (s : string) : string :=
  match s with
  | EmptyString => EmptyString
  | String c rest =>
      match through_last_slash rest with
      | EmptyString => if Ascii.eqb c "/" then String c EmptyString else EmptyString
      | r => String c r
      end
  end.

(** [filepath.Dir]: drop the last element, then [Clean]. *)
Definition Dir (p : string) : string := Clean (through_last_slash p).

Fixpoint strip_prefix (s p : string) : option string :=
  match p with
  | EmptyString => Some s
  | String c p' =>
      match s with
      | EmptyString => None
      | String d s' => if Ascii.eqb c d then strip_prefix s' p' else None
      end
  end.

(** [strings.TrimPrefix]. *)
Definition TrimPrefix (s p : string) : string :=
  match strip_prefix s p with
  | Some r => r
  | None => s
  end.

End path.

(** ** The generated runtime ([internal/template.go]) *)

Module Template.

(** [_itemMetadata]; a [nil] [children] slice is the empty list. *)
Record _itemMetadata : Type := {
  name : string;
  size : Z;
  mode : Z;
  mtime : Z;
  isDir : bool;
  children : list Z;
}.

Record _assetfs : Type := {
  data : list (list byte);
  meta : list _itemMetadata;
  names : gmap string Z;
}.

(** [bytes.Reader]: the underlying slice and the read position (the
    [prevRune] field only serves [UnreadRune], which the program never
    calls). *)
Record bytes_Reader : Type := {
  s : list byte;
  i : Z;
}.

Definition NewReader (b : list byte) : bytes_Reader := {| s := b; i := 0 |}.

(** [_assetFile]; [rd] is a pointer that stays [nil] ([None]) on directory
    handles, [read] counts the entries [Readdir] has handed out. *)
Record _assetFile : Type := {
  rd : option bytes_Reader;
  fi : _itemMetadata;
  fs : _assetfs;
  read : Z;
}.

Definition set_read (af : _assetFile) (n : Z) : _assetFile :=
  {| rd := rd af; fi := fi af; fs := fs af; read := n |}.

Definition set_rd (af : _assetFile) (r : bytes_Reader) : _assetFile :=
  {| rd := Some r; fi := fi af; fs := fs af; read := read af |}.

(** [AssetDir]: a lookup in the package-level registry; an unregistered
    name yields the nil pointer. *)
Definition AssetDir (_assetFilesystems : gmap string _assetfs) (nm : string)
    : option _assetfs :=
  _assetFilesystems !! nm.

(** Method [Open] of [_assetfs]; the pointer receiver may be nil ([None]). *)
Definition Open (recv : option _assetfs) (nm : string)
    : go (option _assetFile * option error) :=
  match recv with
  | None => Ret (None, Some (PathError "open" nm ErrNotExist))
  | Some fs0 =>
      let nm := path.Clean ("/" +:+ nm) in
      match names fs0 !! nm with
      | None => Ret (None, Some ErrNotExist)
      | Some ix =>
          fi0 ←! index (meta fs0) ix;
          if negb (isDir fi0) then
            d ←! index (data fs0) ix;
            Ret (Some {| rd := Some (NewReader d); fi := fi0; fs := fs0; read := 0 |}, None)
          else
            Ret (Some {| rd := None; fi := fi0; fs := fs0; read := 0 |}, None)
      end
  end.

Definition Close (af : _assetFile) : _assetFile * option error := (af, None).

Definition Stat (af : _assetFile) : _assetFile * (_itemMetadata * option error) :=
  (af, (fi af, None)).

(** The unbounded loop of [Readdir]:
    [for i, idx := range rest { out[i] = af.fs.meta[idx] }]. *)
Fixpoint readdir_all (mt : list _itemMetadata) (rest : list Z) (out : list _itemMetadata)
    : go (list _itemMetadata) :=
  match rest with
  | [] => Ret out
  | idx :: rest' =>
      m ←! index mt idx;
      readdir_all mt rest' (out ++ [m])
  end.

(** The bounded loop of [Readdir]:
    [for i, idx := range rest { if i == count { break }; out = append(out, af.fs.meta[idx]) }]. *)
Fixpoint readdir_upto (mt : list _itemMetadata) (count : Z) (k : Z) (rest : list Z)
    (out : list _itemMetadata) : go (list _itemMetadata) :=
  match rest with
  | [] => Ret out
  | idx :: rest' =>
      if k =? count then Ret out
      else
        m ←! index mt idx;
        readdir_upto mt count (k + 1) rest' (out ++ [m])
  end.

(** Method [Readdir] of [_assetFile].  The bounded branch allocates
    [make([]os.FileInfo, 0, count)] once it knows the directory is not
    exhausted; the slice of the unbounded branch is as long as what is left
    of [children], which the run already holds. *)
Definition Readdir {RT : Runtime} (af : _assetFile) (count : Z)
    : go (_assetFile * (list _itemMetadata * option error)) :=
  if negb (isDir (fi af)) then Ret (af, ([], Some ErrInvalid))
  else if count <=? 0 then
    if Z.of_nat (length (children (fi af))) <=? read af then Ret (af, ([], None))
    else
      rest ←! slice_from (children (fi af)) (read af);
      out ←! readdir_all (meta (fs af)) rest [];
      Ret (set_read af (read af + Z.of_nat (length out)), (out, None))
  else
    if Z.of_nat (length (children (fi af))) <=? read af then Ret (af, ([], Some EOF))
    else
      out ←! make_cap count;
      rest ←! slice_from (children (fi af)) (read af);
      out ←! readdir_upto (meta (fs af)) count 0 rest out;
      Ret (set_read af (read af + Z.of_nat (length out)), (out, None)).

(** Method [Seek] of [bytes.Reader], with [io.SeekStart = 0], [io.SeekCurrent = 1],
    [io.SeekEnd = 2]. *)
Definition Reader_Seek (r : bytes_Reader) (offset whence : Z)
    : bytes_Reader * (Z * option error) :=
  let abs :=
    if whence =? 0 then Some offset
    else if whence =? 1 then Some (wrap64 (i r + offset))
    else if whence =? 2 then Some (wrap64 (Z.of_nat (length (s r)) + offset))
    else None in
  match abs with
  | None => (r, (0, Some ErrSeekWhence))
  | Some a =>
      if a <? 0 then (r, (0, Some ErrSeekNegative))
      else ({| s := s r; i := a |}, (a, None))
  end.

(** Method [Read(b)] of [bytes.Reader]: the result carries the buffer after
    the call and the count [n]; [n = copy(b, r.s[r.i:])]. *)
Definition Reader_Read (r : bytes_Reader) (b : list byte)
    : go (bytes_Reader * (list byte * Z * option error)) :=
  if Z.of_nat (length (s r)) <=? i r then Ret (r, (b, 0, Some EOF))
  else
    rest ←! slice_from (s r) (i r);
    let src := take (length b) rest in
    let n := Z.of_nat (length src) in
    Ret ({| s := s r; i := i r + n |}, (src ++ drop (length src) b, n, None)).

(** Method [Seek] of [_assetFile]. *)
Definition Seek (af : _assetFile) (offset whence : Z)
    : go (_assetFile * (Z * option error)) :=
  if isDir (fi af) then Ret (af, (0, Some _errIsDirectory))
  else match rd af with
       | None => Panic "nil pointer dereference"
       | Some r => let '(r', res) := Reader_Seek r offset whence in Ret (set_rd af r', res)
       end.

(** Method [Read] of [_assetFile]. *)
Definition Read (af : _assetFile) (p : list byte)
    : go (_assetFile * (list byte * Z * option error)) :=
  if isDir (fi af) then Ret (af, (p, 0, Some _errIsDirectory))
  else match rd af with
       | None => Panic "nil pointer dereference"
       | Some r => x ←! Reader_Read r p; Ret (set_rd af (fst x), snd x)
       end.

End Template.

(** ** The generator ([assetfs.go]) *)

Module Generator.

Definition maxFileSize : Z := Z.shiftl 10 20.

(** [os.FileInfo] as the generator reads it; [ModTime] is the value of
    [ModTime().UnixNano()]. *)
Record FileInfo : Type := {
  Name : string;
  Size : Z;
  Mode : Z;
  ModTime : Z;
  IsDir : bool;
}.

(** A snapshot of the directory tree under a root: what [os.Lstat],
    the directory listing and [ioutil.ReadFile] report for each entry.
    [FsFile] stands for every non-directory entry.  The [entries] of a
    directory are in the order the operating system lists them. *)
Inductive fsnode : Type :=
| FsFile (nm : string) (sz md mt : Z) (content : list byte)
| FsDir (nm : string) (sz md mt : Z) (entries : list fsnode).

Definition node_name (n : fsnode) : string :=
  match n with
  | FsFile nm _ _ _ _ => nm
  | FsDir nm _ _ _ _ => nm
  end.

Definition Lstat (n : fsnode) : FileInfo :=
  match n with
  | FsFile nm sz md mt _ => {| Name := nm; Size := sz; Mode := md; ModTime := mt; IsDir := false |}
  | FsDir nm sz md mt _ => {| Name := nm; Size := sz; Mode := md; ModTime := mt; IsDir := true |}
  end.

(** One call of the walk function: the path, the [os.FileInfo], and what
    [ioutil.ReadFile(path)] returns there. *)
Record visit : Type := {
  v_path : string;
  v_info : FileInfo;
  v_data : list byte;
}.

(** [sort.Strings] on the names of a directory, carrying along what hangs
    under each name; Go compares strings bytewise. *)
Fixpoint insert_by_name {A} (x : string * A) (l : list (string * A)) : list (string * A) :=
  match l with
  | [] => [x]
  | y :: l' => if String.leb (fst x) (fst y) then x :: l else y :: insert_by_name x l'
  end.

Definition sort_names {A} (l : list (string * A)) : list (string * A) :=
  foldr insert_by_name [] l.

(** The calls [filepath.Walk] makes on a snapshot, in order: a directory
    first, then its entries in lexical order of their names, each under
    [filepath.Join(path, name)]. *)
Fixpoint walk_visits (p : string) (n : fsnode) : list visit :=
  match n with
  | FsFile _ _ _ _ content => [ {| v_path := p; v_info := Lstat n; v_data := content |} ]
  | FsDir _ _ _ _ entries =>
      {| v_path := p; v_info := Lstat n; v_data := [] |}
      :: concat (map snd (sort_names
           (map (fun c => (node_name c, walk_visits (path.Join p (node_name c)) c)) entries)))
  end.

(** What the generator writes, one constructor per piece of the emitted
    composite literal; the text is [fmt.Fprintf] of the format noted at
    each constructor applied to the constructor's arguments. *)
Inductive chunk : Type :=
| Header (pkg tag : string)     (* writeHeader *)
| Head                          (* the [head] constant *)
| SectionOpen (dir : string)    (* "\t%#q: &_assetfs{\n\t\tdata: [][]byte{\n" *)
| DataItem (d : list byte)      (* "\t\t\t[]byte(%#q),\n" *)
| MetaOpen                      (* "\t\t},\n\t\tmeta: []_itemMetadata{\n" *)
| MetaItem (m : Template._itemMetadata)
                                (* "\t\t\t{name: %#q, mode: %#o, mtime: %d, " then
                                   "size: %d" or "isDir: true" [", children: %#v"], then "},\n" *)
| NamesOpen                     (* "\t\t},\n\t\tnames: map[string]int{\n" *)
| NameItem (k : string) (v : Z) (* "\t\t\t%q: %d,\n" *)
| SectionClose                  (* "\t\t},\n\t},\n" *)
| Tail.                         (* writeTail *)

Record dirInfo : Type := {
  files : list Z;
  subdirs : list Z;
}.

Record tree : Type := {
  wr : list chunk;
  root : string;
  filesMeta : list FileInfo;
  dirMeta : list FileInfo;
  names : gmap string Z;
  dirData : gmap string dirInfo;
}.

Definition rootedName (nm rt : string) : string :=
  let nm := path.TrimPrefix nm rt in
  if String.eqb nm "" then "/"%string else nm.

(** [tree.walkFunc]; [rf] is the result of [ioutil.ReadFile(path)]. *)
Definition walkFunc (tr : tree) (p : string) (info : FileInfo) (err : option error)
    (rf : list byte * option error) : tree * option error :=
  match err with
  | Some e => (tr, Some e)
  | None =>
      if IsDir info then
        let idx := Z.of_nat (length (dirMeta tr)) in
        let dd := <[p := {| files := []; subdirs := [] |}]> (dirData tr) in
        let dd :=
          match dd !! path.Dir p with
          | Some pi => <[path.Dir p := {| files := files pi; subdirs := subdirs pi ++ [idx] |}]> dd
          | None => dd
          end in
        ({| wr := wr tr; root := root tr; filesMeta := filesMeta tr;
            dirMeta := dirMeta tr ++ [info];
            names := <[p := idx]> (names tr); dirData := dd |}, None)
      else if maxFileSize <? Size info then (tr, Some (ErrFileSize p))
      else
        let idx := Z.of_nat (length (filesMeta tr)) in
        let dd :=
          match dirData tr !! path.Dir p with
          | Some pi => <[path.Dir p := {| files := files pi ++ [idx]; subdirs := subdirs pi |}]> (dirData tr)
          | None => dirData tr
          end in
        let tr' := {| wr := wr tr; root := root tr; filesMeta := filesMeta tr ++ [info];
                      dirMeta := dirMeta tr;
                      names := <[p := idx]> (names tr); dirData := dd |} in
        match rf with
        | (_, Some e) => (tr', Some e)
        | (d, None) =>
            ({| wr := wr tr' ++ [DataItem d]; root := root tr'; filesMeta := filesMeta tr';
                dirMeta := dirMeta tr'; names := names tr'; dirData := dirData tr' |}, None)
        end
  end.

Arguments walkFunc : simpl never.

(** [filepath.Walk(root, tr.walkFunc)] on a snapshot: the walk function is
    called on each visit in turn and the first error it returns ends the
    walk ([walkFunc] never returns [filepath.SkipDir]). *)
Fixpoint run_visits (vs : list visit) (tr : tree) : tree * option error :=
  match vs with
  | [] => (tr, None)
  | v :: vs' =>
      match walkFunc tr (v_path v) (v_info v) None (v_data v, None) with
      | (tr', Some e) => (tr', Some e)
      | (tr', None) => run_visits vs' tr'
      end
  end.

Definition Walk (rt : string) (n : fsnode) (tr : tree) : tree * option error :=
  run_visits (walk_visits rt n) tr.

(** The order in which a [for k, v := range m] statement visits a map is
    unspecified in Go: some enumeration of the map's entries. *)
Record MapOrder : Type := {
  range_of : ∀ A : Type, gmap string A → list (string * A);
  range_of_perm : ∀ (A : Type) (m : gmap string A), range_of A m ≡ₚ map_to_list m;
}.

(** [indexes] of [writeMetadata]. *)
Definition build_indexes (rng : list (string * Z)) (rt : string)
    (dd : gmap string dirInfo) (shift : Z) : gmap string Z :=
  foldl (fun (acc : gmap string Z) (kv : string * Z) =>
           <[rootedName (fst kv) rt :=
               match dd !! fst kv with
               | Some _ => snd kv + shift
               | None => snd kv
               end]> acc) ∅ rng.

(** [subdir] of [writeMetadata]. *)
Definition build_subdir (rng : list (string * dirInfo)) (rt : string) (shift : Z)
    : gmap string (list Z) :=
  foldl (fun (acc : gmap string (list Z)) (kv : string * dirInfo) =>
           <[rootedName (fst kv) rt :=
               files (snd kv) ++ map (fun v => v + shift) (subdirs (snd kv))]> acc) ∅ rng.

(** [idx2name] of [writeMetadata]; it is only read, so the enumeration of
    [indexes] is taken as a list. *)
Definition build_idx2name (rng : list (string * Z)) : gmap Z string :=
  foldl (fun (acc : gmap Z string) (kv : string * Z) => <[snd kv := fst kv]> acc) ∅ rng.

(** The value of the literal written for entry [i] of [info]: a file gets
    its size, a directory gets [isDir: true] and, when there are any, the
    [children] found under its name. *)
Definition meta_entry (subdir : gmap string (list Z)) (idx2name : gmap Z string)
    (i : nat) (fi : FileInfo) : Template._itemMetadata :=
  if negb (IsDir fi) then
    {| Template.name := Name fi; Template.size := Size fi; Template.mode := Mode fi;
       Template.mtime := ModTime fi; Template.isDir := false; Template.children := [] |}
  else
    {| Template.name := Name fi; Template.size := 0; Template.mode := Mode fi;
       Template.mtime := ModTime fi; Template.isDir := true;
       Template.children :=
         default [] (subdir !! default ""%string (idx2name !! Z.of_nat i)) |}.

(** [tree.writeMetadata]. *)
Definition writeMetadata (mo : MapOrder) (tr : tree) : tree :=
  let info := filesMeta tr ++ dirMeta tr in
  let dirIdxShift := Z.of_nat (length (filesMeta tr)) in
  let indexes := build_indexes (range_of mo _ (names tr)) (root tr) (dirData tr) dirIdxShift in
  let subdir := build_subdir (range_of mo _ (dirData tr)) (root tr) dirIdxShift in
  let idx2name := build_idx2name (range_of mo _ indexes) in
  {| wr := wr tr ++ [MetaOpen]
             ++ map MetaItem (imap (meta_entry subdir idx2name) info)
             ++ [NamesOpen]
             ++ map (fun i : nat => NameItem (default ""%string (idx2name !! Z.of_nat i)) (Z.of_nat i))
                    (seq 0 (base.size indexes))
             ++ [SectionClose];
     root := root tr; filesMeta := filesMeta tr; dirMeta := dirMeta tr;
     names := names tr; dirData := dirData tr |}.

Arguments writeMetadata : simpl never.

(** [writeSection] on the snapshot found at [dir]; the result is what has
    been written to [wr] and the returned error. *)
Definition writeSection (mo : MapOrder) (w : list chunk) (dir : string) (n : fsnode)
    : list chunk * option error :=
  let tr := {| wr := w ++ [SectionOpen dir]; root := dir; filesMeta := []; dirMeta := [];
               names := ∅; dirData := ∅ |} in
  match Walk (root tr) n tr with
  | (tr', Some e) => (wr tr', Some e)
  | (tr', None) => (wr (writeMetadata mo tr'), None)
  end.

(** The loop of [generateMain] over the command-line directories, each given
    with the snapshot found there. *)
Fixpoint write_sections (mo : MapOrder) (w : list chunk) (dirs : list (string * fsnode))
    : list chunk * option error :=
  match dirs with
  | [] => (w, None)
  | (dir, n) :: dirs' =>
      match writeSection mo w (path.Clean dir) n with
      | (w', Some e) => (w', Some e)
      | (w', None) => write_sections mo w' dirs'
      end
  end.

(** [generateMain]: on success the written text is renamed to [filename]
    ([inr]); on failure the temporary file is removed and only the error
    remains ([inl]).  Failures of the temporary file itself are not part of
    the model. *)
Definition generateMain (mo : MapOrder) (filename pkg tag : string)
    (dirs : list (string * fsnode)) : error + list chunk :=
  if String.eqb filename "" then inl (ErrNew "empty filename")
  else
    match write_sections mo [Header pkg tag; Head] dirs with
    | (_, Some e) => inl e
    | (w, None) => inr (w ++ [Tail])
    end.

(** The [_assetfs] value a section of the generated file denotes once
    compiled; a map literal with a repeated key does not compile. *)
Definition section_data (cs : list chunk) : list (list byte) :=
  omap (fun c => match c with DataItem d => Some d | _ => None end) cs.

Definition section_meta (cs : list chunk) : list Template._itemMetadata :=
  omap (fun c => match c with MetaItem m => Some m | _ => None end) cs.

Definition section_names (cs : list chunk) : list (string * Z) :=
  omap (fun c => match c with NameItem k v => Some (k, v) | _ => None end) cs.

Definition compile_section (cs : list chunk) : option Template._assetfs :=
  if decide (NoDup (map fst (section_names cs))) then
    Some {| Template.data := section_data cs;
            Template.meta := section_meta cs;
            Template.names := list_to_map (section_names cs) |}
  else None.

End Generator.

(** ** Clients of the runtime used in the statements below *)

Module Client.
Import Template.

(** The entries a list of identities resolves to in [meta]. *)
Definition resolves (mt : list _itemMetadata) (ids : list Z) (es : list _itemMetadata) : Prop :=
  Forall2 (fun idx m => index mt idx = Ret m) ids es.

(** Calling [Readdir(k)] again and again until it returns an error; the
    batches returned before it, the handle afterwards, and the error.
    [None] when [fuel] calls were not enough. *)
Fixpoint read_batches {RT : Runtime} (fuel : nat) (af : _assetFile) (k : Z)
    : go (option (list (list _itemMetadata) * _assetFile * error)) :=
  match fuel with
  | O => Ret None
  | S fuel' =>
      r ←! Readdir af k;
      match snd (snd r) with
      | Some e => Ret (Some ([], fst r, e))
      | None =>
          rec ←! read_batches fuel' (fst r) k;
          Ret (match rec with
               | Some (bs, af', e) => Some (fst (snd r) :: bs, af', e)
               | None => None
               end)
      end
  end.

(** The calls a holder of a handle can make, and what each returns. *)
Inductive call : Type :=
| CallRead (p : list byte)
| CallSeek (offset whence : Z)
| CallStat
| CallReaddir (count : Z)
| CallClose.

Inductive reply : Type :=
| ReplyRead (p : list byte) (n : Z) (err : option error)
| ReplySeek (pos : Z) (err : option error)
| ReplyStat (m : _itemMetadata) (err : option error)
| ReplyReaddir (es : list _itemMetadata) (err : option error)
| ReplyClose (err : option error).

Definition perform {RT : Runtime} (c : call) (af : _assetFile) : go (_assetFile * reply) :=
  match c with
  | CallRead p => x ←! Read af p; Ret (fst x, ReplyRead (fst (fst (snd x))) (snd (fst (snd x))) (snd (snd x)))
  | CallSeek o w => x ←! Seek af o w; Ret (fst x, ReplySeek (fst (snd x)) (snd (snd x)))
  | CallStat => let x := Stat af in Ret (fst x, ReplyStat (fst (snd x)) (snd (snd x)))
  | CallReaddir n => x ←! Readdir af n; Ret (fst x, ReplyReaddir (fst (snd x)) (snd (snd x)))
  | CallClose => let x := Close af in Ret (fst x, ReplyClose (snd x))
  end.

Fixpoint run {RT : Runtime} (cs : list call) (af : _assetFile) : go (_assetFile * list reply) :=
  match cs with
  | [] => Ret (af, [])
  | c :: cs' =>
      x ←! perform c af;
      y ←! run cs' (fst x);
      Ret (fst y, snd x :: snd y)
  end.

Definition is_close (c : call) : bool :=
  match c with CallClose => true | _ => false end.

Definition is_close_reply (r : reply) : bool :=
  match r with ReplyClose _ => true | _ => false end.

Definition go_map {A B} (f : A → B) (m : go A) : go B :=
  match m with Ret a => Ret (f a) | Panic w => Panic w end.

End Client.

(** ** Invariants of the walk *)

Module Invariant.
Import Generator.

(** Every identity recorded under a directory during the walk is the number
    of a file or of a directory met so far. *)
Definition dirData_in_range (tr : tree) : Prop :=
  ∀ p d, dirData tr !! p = Some d →
    Forall (fun i => 0 ≤ i < Z.of_nat (length (filesMeta tr))) (files d)
    ∧ Forall (fun j => 0 ≤ j < Z.of_nat (length (dirMeta tr))) (subdirs d).

(** What the walk has recorded about the paths visited so far, when no path
    is visited twice: every name is the path of a visit, carries the number
    of that visit among the directories or among the files, and no two
    names of the same kind carry the same number. *)
Record names_sound (tr : tree) (seen : list visit) : Prop := {
  ns_names : ∀ p i, names tr !! p = Some i →
    p ∈ map v_path seen ∧
    match dirData tr !! p with
    | Some _ => 0 ≤ i < Z.of_nat (length (dirMeta tr))
    | None => 0 ≤ i < Z.of_nat (length (filesMeta tr))
    end;
  ns_dirs : ∀ p, is_Some (dirData tr !! p) → p ∈ map v_path seen;
  ns_inj : ∀ p q i, names tr !! p = Some i → names tr !! q = Some i →
    (is_Some (dirData tr !! p) ↔ is_Some (dirData tr !! q)) → p = q;
}.

End Invariant.

(** ** Predicates on snapshots and the inputs of the worked scenarios *)

Module Scenario.
Import Generator.

(** Some non-directory entry of the snapshot is larger than [maxFileSize]. *)
Fixpoint has_oversized (n : fsnode) : bool :=
  match n with
  | FsFile _ sz _ _ _ => maxFileSize <? sz
  | FsDir _ _ _ _ entries => existsb has_oversized entries
  end.

Definition oversized (v : visit) : Prop :=
  IsDir (v_info v) = false ∧ maxFileSize < Size (v_info v).

#[global] Instance oversized_dec (v : visit) : Decision (oversized v).
Proof. unfold oversized. apply _. Defined.

Definition is_file (v : visit) : Prop := IsDir (v_info v) = false.
Definition is_dir (v : visit) : Prop := IsDir (v_info v) = true.

(** All the visits [generateMain] makes over its directories. *)
Definition all_visits (dirs : list (string * fsnode)) : list visit :=
  concat (map (fun d => walk_visits (path.Clean (fst d)) (snd d)) dirs).

(** Two ways a Go run may enumerate maps. *)
Definition canonical_order : MapOrder.
Proof.
  refine {| range_of := fun A m => map_to_list m |}.
  intros A m. reflexivity.
Defined.

Definition reversed_order : MapOrder.
Proof.
  refine {| range_of := fun A m => reverse (map_to_list m) |}.
  intros A m. apply reverse_Permutation.
Defined.

Definition empty_assetfs : Template._assetfs :=
  {| Template.data := []; Template.meta := []; Template.names := ∅ |}.

Definition abc : list byte := [x61; x62; x63].
Definition cde : list byte := [x63; x64; x65].

(** A root directory [static] holding the files [red] ("abc") and [green]
    ("cde"), listed by the operating system in that order. *)
Definition static_tree : fsnode :=
  FsDir "static" 4096 2147484141 0
    [FsFile "red" 3 420 0 abc; FsFile "green" 3 420 0 cde].

(** The same directory listed by the operating system in the other order. *)
Definition static_tree_rev : fsnode :=
  FsDir "static" 4096 2147484141 0
    [FsFile "green" 3 420 0 cde; FsFile "red" 3 420 0 abc].

(** The current directory holding the files [.a] and [a]. *)
Definition dot_tree : fsnode :=
  FsDir "." 4096 2147484141 0 [FsFile ".a" 0 420 0 []; FsFile "a" 0 420 0 []].

(** The current directory holding a file [f] and an empty directory [d]. *)
Definition dot_tree_fd : fsnode :=
  FsDir "." 4096 2147484141 0 [FsFile "f" 0 420 0 []; FsDir "d" 4096 2147484141 0 []].

Definition file_entry (nm : string) (sz md : Z) : Template._itemMetadata :=
  {| Template.name := nm; Template.size := sz; Template.mode := md; Template.mtime := 0;
     Template.isDir := false; Template.children := [] |}.

Definition dir_entry (nm : string) (md : Z) (ch : list Z) : Template._itemMetadata :=
  {| Template.name := nm; Template.size := 0; Template.mode := md; Template.mtime := 0;
     Template.isDir := true; Template.children := ch |}.

(** The section the generator writes for [static_tree]. *)
Definition static_section : list chunk :=
  [ SectionOpen "static"; DataItem cde; DataItem abc; MetaOpen;
    MetaItem (file_entry "green" 3 420); MetaItem (file_entry "red" 3 420);
    MetaItem (dir_entry "static" 2147484141 [0; 1]);
    NamesOpen; NameItem "/green" 0; NameItem "/red" 1; NameItem "/" 2; SectionClose ].

Definition static_fs : Template._assetfs :=
  {| Template.data := [cde; abc];
     Template.meta := [file_entry "green" 3 420; file_entry "red" 3 420;
                       dir_entry "static" 2147484141 [0; 1]];
     Template.names := list_to_map [("/green"%string, 0); ("/red"%string, 1); ("/"%string, 2)] |}.

(** The section the generator writes for [dot_tree_fd]. *)
Definition dot_fd_section : list chunk :=
  [ SectionOpen "."; DataItem []; MetaOpen;
    MetaItem (file_entry "f" 0 420);
    MetaItem (dir_entry "." 2147484141 [0; 1; 2]);
    MetaItem (dir_entry "d" 2147484141 []);
    NamesOpen; NameItem "f" 0; NameItem "/" 1; NameItem "d" 2; SectionClose ].

(** The handles [Open] returns on [static_fs] for ["/"] and ["/red"]. *)
Definition static_root : Template._assetFile :=
  {| Template.rd := None; Template.fi := dir_entry "static" 2147484141 [0; 1];
     Template.fs := static_fs; Template.read := 0 |}.

Definition static_red : Template._assetFile :=
  {| Template.rd := Some (Template.NewReader abc); Template.fi := file_entry "red" 3 420;
     Template.fs := static_fs; Template.read := 0 |}.

(** An index holding one empty directory, and the handle opened on it. *)
Definition empty_dir_fs : Template._assetfs :=
  {| Template.data := []; Template.meta := [dir_entry "empty" 2147484141 []];
     Template.names := {[ "/"%string := 0 ]} |}.

Definition empty_dir_root : Template._assetFile :=
  {| Template.rd := None; Template.fi := dir_entry "empty" 2147484141 [];
     Template.fs := empty_dir_fs; Template.read := 0 |}.

(** A run with room for slices of up to 2^20 interface values (16 MiB). *)
Definition small_machine : Runtime :=
  {| max_cap := 1048576; max_cap_le := proj1 (Z.leb_le 1048576 (2 ^ 44)) eq_refl |}.

(** A directory holding one file reported as 11 MiB long. *)
Definition big_tree : fsnode :=
  FsDir "assets" 4096 2147484141 0 [FsFile "big" 11534336 420 0 []].

(** The scenario of the two files as the specification words it: [red] is
    entry 0, [green] is entry 1, the root is entry 2 with children [0, 1],
    ["/red"] reads "abc" and the root lists [red] before [green]. *)
Definition scenario_as_specified {RT : Runtime} (mo : MapOrder) : Prop :=
  ∃ out fs0 af_red af_red' af_root af_root' buf,
    writeSection mo [] "static" static_tree = (out, None)
    ∧ compile_section out = Some fs0
    ∧ Template.names fs0 !! "/red"%string = Some 0
    ∧ Template.names fs0 !! "/green"%string = Some 1
    ∧ Template.names fs0 !! "/"%string = Some 2
    ∧ (∃ m0 m1 m2, Template.meta fs0 = [m0; m1; m2]
         ∧ Template.isDir m0 = false ∧ Template.isDir m1 = false
         ∧ Template.isDir m2 = true ∧ Template.children m2 = [0; 1])
    ∧ Template.Open (Some fs0) "/red" = Ret (Some af_red, None)
    ∧ Template.Read af_red [x00; x00; x00; x00] = Ret (af_red', (buf, 3, None))
    ∧ take 3 buf = abc
    ∧ Template.Open (Some fs0) "/" = Ret (Some af_root, None)
    ∧ (∃ e1 e2, Template.Readdir af_root 0 = Ret (af_root', ([e1; e2], None))
         ∧ Template.name e1 = "red"%string ∧ Template.name e2 = "green"%string).

End Scenario.


(** ** The error-remembering writer ([ErrWriter], [errWriter]) *)

Module ErrWriter.
Section Writer.

(** The underlying [io.Writer]: its state and its [Write] method. *)
Variable W : Type.
Variable write : W → list byte → W * (Z * option error).

Record errWriter : Type := {
  Writer : W;
  err : option error;
}.

Definition ErrWriter (w : W) : errWriter := {| Writer := w; err := None |}.

Definition Err (ew : errWriter) : option error := err ew.

(** Method [Write] of [errWriter]. *)
Definition Write (ew : errWriter) (p : list byte) : errWriter * (Z * option error) :=
  match err ew with
  | Some e => (ew, (0, Some e))
  | None =>
      let r := write (Writer ew) p in
      ({| Writer := fst r;
          err := match snd (snd r) with
                 | Some e => Some e
                 | None => err ew
                 end |}, snd r)
  end.

(** A caller that issues writes one after the other without looking at
    their results, as the [fmt.Fprintf] calls of the generator do. *)
Fixpoint write_all (ew : errWriter) (ps : list (list byte)) : errWriter :=
  match ps with
  | [] => ew
  | p :: ps' => write_all (fst (Write ew p)) ps'
  end.

(** The same writes issued to the underlying writer directly, stopping
    after the first one that fails. *)
Fixpoint write_until_error (w : W) (ps : list (list byte)) : W * option error :=
  match ps with
  | [] => (w, None)
  | p :: ps' =>
      match write w p with
      | (w', (_, Some e)) => (w', Some e)
      | (w', (_, None)) => write_until_error w' ps'
      end
  end.

End Writer.
End ErrWriter.

(** ** A writer that runs out of room *)

Module Disk.

Definition ENOSPC : error := ErrNew "no space left on device".

(** A file on a device with room for [cap] bytes: a write that does not fit
    stores what fits and fails. *)
Definition write (cap : nat) (w p : list byte) : list byte * (Z * option error) :=
  let room := (cap - length w)%nat in
  if (length p <=? room)%nat then (w ++ p, (Z.of_nat (length p), None))
  else (w ++ take room p, (Z.of_nat room, Some ENOSPC)).

End Disk.

(** ** More clients of the runtime *)

Module FileClient.
Import Template.

(** Reading a handle to the end with a buffer of [blen] bytes: [Read] is
    called until it returns an error; the bytes each call delivered are
    collected.  [None] when [fuel] calls were not enough. *)
Fixpoint read_to_end (fuel : nat) (af : _assetFile) (blen : nat)
    : go (option (list byte * _assetFile * error)) :=
  match fuel with
  | O => Ret None
  | S fuel' =>
      r ←! Read af (replicate blen x00);
      let got := take (Z.to_nat (snd (fst (snd r)))) (fst (fst (snd r))) in
      match snd (snd r) with
      | Some e => Ret (Some (got, fst r, e))
      | None =>
          rec ←! read_to_end fuel' (fst r) blen;
          Ret (match rec with
               | Some (bs, af', e) => Some (got ++ bs, af', e)
               | None => None
               end)
      end
  end.

(** A sequence of [Readdir] calls with the given counts; the batches
    returned by the calls that succeeded, and the handle afterwards. *)
Fixpoint readdir_seq {RT : Runtime} (counts : list Z) (af : _assetFile)
    : go (list (list _itemMetadata) * _assetFile) :=
  match counts with
  | [] => Ret ([], af)
  | c :: counts' =>
      r ←! Readdir af c;
      rec ←! readdir_seq counts' (fst r);
      Ret (fst (snd r) :: fst rec, snd rec)
  end.

(** A call the run has room for: a bounded listing allocates a slice of
    capacity [count] before it reads any entry. *)
Definition affordable {RT : Runtime} (c : Client.call) : Prop :=
  match c with
  | Client.CallReaddir count => 0 < count → count ≤ max_cap
  | _ => True
  end.

(** A handle on which no call can go wrong: a directory handle has a
    cursor that is not negative and children that resolve in the entries;
    a file handle has a reader whose position is not negative. *)
Definition handle_ok (af : _assetFile) : Prop :=
  if isDir (fi af) then
    0 ≤ read af ∧ ∃ es, Client.resolves (meta (fs af)) (children (fi af)) es
  else
    ∃ r, rd af = Some r ∧ 0 ≤ i r.

(** An index each of whose directory entries has children that resolve. *)
Definition index_ok (fs0 : _assetfs) : Prop :=
  ∀ m, m ∈ meta fs0 → ∃ es, Client.resolves (meta fs0) (children m) es.

End FileClient.

(** ** The rest of the generator: stub, flags and [main] *)

Module Command.
Import Generator.

Local Open Scope string_scope.

(** [strings.TrimSuffix]. *)
Fixpoint strip_suffix (s suffix : string) : option string :=
  if String.eqb s suffix then Some EmptyString
  else match s with
       | EmptyString => None
       | String c s' => option_map (String c) (strip_suffix s' suffix)
       end.

Definition TrimSuffix (s suffix : string) : string :=
  match strip_suffix s suffix with
  | Some r => r
  | None => s
  end.

(** What [generateStub] writes: the header for [pkg] and [tag] followed by
    the [stub] constant. *)
Inductive stub_file : Type := StubFile (pkg tag : string).

(** [generateStub]; failures of the temporary file are not part of the
    model. *)
Definition generateStub (filename pkg tag : string) : error + stub_file :=
  if String.eqb filename "" then inl (ErrNew "empty filename")
  else inr (StubFile pkg tag).

(** The [params] struct of [main]. *)
Record params : Type := {
  FullOutput : string;
  DevOutput : string;
  FullTag : string;
  DevTag : string;
  Package : string;
}.

(** The values given on the command line for the flags [-out], [-dev],
    [-tag], [-devtag] and [-name]; [None] when a flag is absent. *)
Record flags : Type := {
  flag_out : option string;
  flag_dev : option string;
  flag_tag : option string;
  flag_devtag : option string;
  flag_name : option string;
}.

Definition no_flags : flags :=
  {| flag_out := None; flag_dev := None; flag_tag := None; flag_devtag := None;
     flag_name := None |}.

(** The struct before the flags are parsed: [GOPACKAGE] is
    [os.Getenv("GOPACKAGE")] (empty when unset) and [GOFILE] the result of
    [os.LookupEnv("GOFILE")]. *)
Definition initial_params (GOPACKAGE : string) (GOFILE : option string) : params :=
  match GOFILE with
  | Some gofile =>
      let gofile := TrimSuffix gofile ".go" in
      {| FullOutput := gofile +:+ "_assetfs.go"; DevOutput := gofile +:+ "_assetfs-dev.go";
         FullTag := ""; DevTag := "dev"; Package := GOPACKAGE |}
  | None =>
      {| FullOutput := ""; DevOutput := ""; FullTag := ""; DevTag := "dev";
         Package := GOPACKAGE |}
  end.

(** [autoflags.Define(&params); flag.Parse()]: a flag that is given
    replaces the field it is bound to. *)
Definition parse_flags (fl : flags) (p : params) : params :=
  {| FullOutput := default (FullOutput p) (flag_out fl);
     DevOutput := default (DevOutput p) (flag_dev fl);
     FullTag := default (FullTag p) (flag_tag fl);
     DevTag := default (DevTag p) (flag_devtag fl);
     Package := default (Package p) (flag_name fl) |}.

(** How [main] ends: [log.Fatal] with a message or an error, or normally
    with the files renamed into place (the generated file, and the stub when
    one was asked for). *)
Inductive exit : Type :=
| Fatal (msg : string)
| FatalErr (e : error)
| Done (full : string * list chunk) (dev : option (string * stub_file)).

(** [main]; [args] are [flag.Args()], each with the snapshot found there. *)
Definition main (mo : MapOrder) (GOPACKAGE : string) (GOFILE : option string) (fl : flags)
    (args : list (string * fsnode)) : exit :=
  let params := parse_flags fl (initial_params GOPACKAGE GOFILE) in
  if String.eqb (Package params) "" then Fatal "invalid package name"
  else if String.eqb (FullOutput params) "" then Fatal "invalid output"
  else if String.eqb (FullOutput params) (DevOutput params) then
    Fatal "normal and dev output cannot be the same"
  else if negb (String.eqb (DevOutput params) "")
          && String.eqb (FullTag params) (DevTag params) then
    Fatal "normal and dev output should use different tags"
  else if (length args =? 0)%nat then Fatal "no asset directories provided"
  else
    match generateMain mo (FullOutput params) (Package params) (FullTag params) args with
    | inl e => FatalErr e
    | inr out =>
        if negb (String.eqb (DevOutput params) "") then
          match generateStub (DevOutput params) (Package params) (DevTag params) with
          | inl e => FatalErr e
          | inr st => Done (FullOutput params, out) (Some (DevOutput params, st))
          end
        else Done (FullOutput params, out) None
    end.

End Command.

(** ** Further notions used in the statements about the generator *)

Module Layout.
Import Generator.

(** The keys of the sections a written file holds, in order. *)
Definition section_keys (cs : list chunk) : list string :=
  omap (fun c => match c with SectionOpen d => Some d | _ => None end) cs.

(** The tree with [w] written before everything it has written. *)
Definition prepend_wr (w : list chunk) (tr : tree) : tree :=
  {| wr := w ++ wr tr; root := root tr; filesMeta := filesMeta tr; dirMeta := dirMeta tr;
     names := names tr; dirData := dirData tr |}.

(** The section [writeSection] writes for a directory on its own. *)
Definition section_of (mo : MapOrder) (d : string * fsnode) : list chunk * option error :=
  writeSection mo [] (path.Clean (fst d)) (snd d).

(** The order [sort.Strings] puts names in, on names carrying what hangs
    under them. *)
Definition by_name {A} (x y : string * A) : Prop := String.leb (fst x) (fst y) = true.

(** The same snapshot with the entries of its directories listed in another
    order. *)
Inductive relisted : fsnode → fsnode → Prop :=
| relisted_file nm sz md mt content :
    relisted (FsFile nm sz md mt content) (FsFile nm sz md mt content)
| relisted_dir nm sz md mt es1 es es2 :
    es1 ≡ₚ es → Forall2 relisted es es2 →
    relisted (FsDir nm sz md mt es1) (FsDir nm sz md mt es2).

(** No directory of the snapshot holds two entries of the same name. *)
Fixpoint distinct_names (n : fsnode) : bool :=
  match n with
  | FsFile _ _ _ _ _ => true
  | FsDir _ _ _ _ entries =>
      bool_decide (NoDup (map node_name entries)) && forallb distinct_names entries
  end.

(** The identity the build gives to a visit: its rank among the
    non-directories, or the number of non-directories plus its rank among
    the directories. *)
Definition identity_at (vs : list visit) (ix : Z) (v : visit) : Prop :=
  (∃ i : nat, filter Scenario.is_file vs !! i = Some v ∧ ix = Z.of_nat i)
  ∨ (∃ j : nat, filter Scenario.is_dir vs !! j = Some v
                ∧ ix = Z.of_nat (length (filter Scenario.is_file vs) + j)).

(** What the walk has recorded when no path is visited twice: each visit is
    named under its path by its rank among the visits of its kind. *)
Record names_exact (tr : tree) (seen : list visit) : Prop := {
  ne_files : length (filesMeta tr) = length (filter Scenario.is_file seen);
  ne_dirs : length (dirMeta tr) = length (filter Scenario.is_dir seen);
  ne_size : base.size (names tr) = length seen;
  ne_file : ∀ (i : nat) v, filter Scenario.is_file seen !! i = Some v →
    names tr !! v_path v = Some (Z.of_nat i) ∧ dirData tr !! v_path v = None;
  ne_dir : ∀ (j : nat) v, filter Scenario.is_dir seen !! j = Some v →
    names tr !! v_path v = Some (Z.of_nat j) ∧ is_Some (dirData tr !! v_path v);
}.

(** The entries the walk files under the directory path [p]: the
    non-directories, and the directories, whose parent path
    ([filepath.Dir]) is [p]. *)
Definition file_under (p : string) (u : visit) : Prop :=
  IsDir (v_info u) = false ∧ path.Dir (v_path u) = p.

Definition dir_under (p : string) (u : visit) : Prop :=
  IsDir (v_info u) = true ∧ path.Dir (v_path u) = p.

#[global] Instance file_under_dec (p : string) (u : visit) : Decision (file_under p u).
Proof. unfold file_under. apply _. Defined.

#[global] Instance dir_under_dec (p : string) (u : visit) : Decision (dir_under p u).
Proof. unfold dir_under. apply _. Defined.

(** [ix] is the rank of [u] in [l]. *)
Definition ranked (l : list visit) (ix : Z) (u : visit) : Prop :=
  0 ≤ ix ∧ l !! Z.to_nat ix = Some u.

(** What the walk has recorded in [dirData]: a key is the path of a
    directory visited, and holds the ranks of the non-directories seen
    after that visit, and of the directories seen from that visit on, whose
    parent path is the key. *)
Definition dirData_exact (tr : tree) (seen : list visit) : Prop :=
  ∀ p di, dirData tr !! p = Some di →
    ∃ pre v post,
      seen = pre ++ v :: post ∧ IsDir (v_info v) = true ∧ v_path v = p
      ∧ Forall2 (ranked (filter Scenario.is_file seen)) (files di) (filter (file_under p) post)
      ∧ Forall2 (ranked (filter Scenario.is_dir seen)) (subdirs di)
          (filter (dir_under p) (v :: post)).

(** Entry [m] of an index describes what [Lstat] reported at visit [u]. *)
Definition describes (m : Template._itemMetadata) (u : visit) : Prop :=
  Template.name m = Name (v_info u)
  ∧ Template.mode m = Mode (v_info u)
  ∧ Template.mtime m = ModTime (v_info u)
  ∧ Template.isDir m = IsDir (v_info u)
  ∧ (IsDir (v_info u) = false → Template.size m = Size (v_info u)).

(** A site with a style sheet in a subdirectory. *)
Definition site_tree : fsnode :=
  FsDir "site" 4096 2147484141 0
    [ FsFile "index.html" 3 420 0 Scenario.abc;
      FsDir "css" 4096 2147484141 0 [FsFile "a.css" 3 420 0 Scenario.cde];
      FsFile "app.js" 0 420 0 [] ].

(** The section the generator writes for [site_tree]. *)
Definition site_section : list chunk :=
  [ SectionOpen "site"; DataItem []; DataItem Scenario.cde; DataItem Scenario.abc; MetaOpen;
    MetaItem (Scenario.file_entry "app.js" 0 420);
    MetaItem (Scenario.file_entry "a.css" 3 420);
    MetaItem (Scenario.file_entry "index.html" 3 420);
    MetaItem (Scenario.dir_entry "site" 2147484141 [0; 2; 4]);
    MetaItem (Scenario.dir_entry "css" 2147484141 [1]);
    NamesOpen; NameItem "/app.js" 0; NameItem "/css/a.css" 1; NameItem "/index.html" 2;
    NameItem "/" 3; NameItem "/css" 4; SectionClose ].

End Layout.

(** * Properties of the runtime *)

Section PathExamples.

(** The path functions on the inputs of Go's own documentation and on the
    paths the program meets. *)
Example Clean_examples :
  path.Clean "" = "."%string ∧ path.Clean "//red" = "/red"%string
  ∧ path.Clean "//" = "/"%string ∧ path.Clean "/../a/b/../c/./" = "/a/c"%string
  ∧ path.Clean "abc//def//ghi" = "abc/def/ghi"%string
  ∧ path.Clean "abc/def/../../.." = ".."%string
  ∧ path.Clean "/abc/def/../../.." = "/"%string
  ∧ path.Clean "static/" = "static"%string.
Proof. repeat split; reflexivity. Qed.

Example Join_Dir_examples :
  path.Join "static" "red" = "static/red"%string ∧ path.Join "." ".a" = ".a"%string
  ∧ path.Join "/" "a" = "/a"%string
  ∧ path.Dir "static/red" = "static"%string ∧ path.Dir "static" = "."%string
  ∧ path.Dir "a" = "."%string ∧ path.Dir "." = "."%string ∧ path.Dir "/" = "/"%string.
Proof. repeat split; reflexivity. Qed.

Example rootedName_examples :
  Generator.rootedName "static/red" "static" = "/red"%string
  ∧ Generator.rootedName "static" "static" = "/"%string
  ∧ Generator.rootedName ".a" "." = "a"%string
  ∧ Generator.rootedName "a" "." = "a"%string.
Proof. repeat split; reflexivity. Qed.

End PathExamples.

Section RuntimeFacts.
Import Template Client.
Context {RT : Runtime}.

Lemma set_read_same (af : _assetFile) : set_read af (read af) = af.
Proof. by destruct af. Qed.

(** What [Open] guarantees about the handle it returns. *)
Lemma Open_handle (recv : option _assetfs) (nm : string) (af : _assetFile) (e : option error) :
  Open recv nm = Ret (Some af, e) →
  e = None ∧ read af = 0 ∧
  ∃ fs0 ix, recv = Some fs0 ∧ fs af = fs0 ∧
    names fs0 !! path.Clean ("/" +:+ nm) = Some ix ∧
    index (meta fs0) ix = Ret (fi af) ∧
    (if isDir (fi af) then rd af = None
     else ∃ d, index (data fs0) ix = Ret d ∧ rd af = Some (NewReader d)).
Proof.
  unfold Open. destruct recv as [fs0|]; [|discriminate].
  destruct (names fs0 !! _) as [ix|] eqn:Hix; [|discriminate].
  destruct (index (meta fs0) ix) as [fi0|] eqn:Hfi; simpl; [|discriminate].
  destruct (isDir fi0) eqn:Hd; simpl.
  - intros [= <- <-]. simpl. rewrite Hd.
    split; [done|]. split; [done|]. exists fs0, ix. by repeat split.
  - destruct (index (data fs0) ix) as [d|] eqn:Hdata; simpl; [|discriminate].
    intros [= <- <-]. simpl. rewrite Hd.
    split; [done|]. split; [done|]. exists fs0, ix. repeat split; try done. by exists d.
Qed.

Lemma Readdir_exhausted (af : _assetFile) (count : Z) :
  isDir (fi af) = true →
  Z.of_nat (length (children (fi af))) ≤ read af →
  Readdir af count = Ret (af, ([], if 0 <? count then Some EOF else None)).
Proof.
  intros Hd Hlen. unfold Readdir. rewrite Hd. simpl.
  destruct (Z.leb_spec count 0); destruct (Z.ltb_spec 0 count); try lia;
    by rewrite (proj2 (Z.leb_le _ _) Hlen).
Qed.

(** C1. Exhaustion asymmetry of directory listing: on a directory handle
    whose cursor is at or past the end of the children, [Readdir] with
    [count > 0] returns the [io.EOF] error (and no entries), whereas
    [Readdir] with [count <= 0] returns no entries and a nil error, the
    handle staying as it was; in particular the first call on a freshly
    opened directory without children behaves so. *)
Theorem C1_readdir_exhaustion_asymmetry (af : _assetFile) :
  isDir (fi af) = true →
  (Z.of_nat (length (children (fi af))) ≤ read af →
     (∀ count, 0 < count → Readdir af count = Ret (af, ([], Some EOF))) ∧
     (∀ count, count ≤ 0 → Readdir af count = Ret (af, ([], None)))) ∧
  (∀ recv nm, Open recv nm = Ret (Some af, None) → children (fi af) = [] →
     (∀ count, 0 < count → Readdir af count = Ret (af, ([], Some EOF))) ∧
     (∀ count, count ≤ 0 → Readdir af count = Ret (af, ([], None)))).
Proof.
  intros Hd.
  assert (Hgen : Z.of_nat (length (children (fi af))) ≤ read af →
     (∀ count, 0 < count → Readdir af count = Ret (af, ([], Some EOF))) ∧
     (∀ count, count ≤ 0 → Readdir af count = Ret (af, ([], None)))).
  { intros Hlen. split; intros count Hc; rewrite Readdir_exhausted by done.
    - by rewrite (proj2 (Z.ltb_lt _ _) Hc).
    - by rewrite (proj2 (Z.ltb_ge _ _) Hc). }
  split; [exact Hgen|].
  intros recv nm Hopen Hnil. apply Hgen.
  destruct (Open_handle _ _ _ _ Hopen) as (_ & -> & _). rewrite Hnil. simpl. lia.
Qed.

(** C7. Wrong-variant operations: on a directory handle [Read] and [Seek]
    return the [_errIsDirectory] error and leave the handle and the buffer
    as they were; on a file handle [Readdir] returns [os.ErrInvalid]; and
    the is-a-directory, invalid-operation, not-found and end-of-stream
    errors are four pairwise distinct values. *)
Theorem C7_wrong_variant_errors :
  (∀ af : _assetFile, isDir (fi af) = true →
     (∀ p, Read af p = Ret (af, (p, 0, Some _errIsDirectory))) ∧
     (∀ offset whence, Seek af offset whence = Ret (af, (0, Some _errIsDirectory)))) ∧
  (∀ af : _assetFile, isDir (fi af) = false →
     ∀ count, Readdir af count = Ret (af, ([], Some ErrInvalid))) ∧
  NoDup [_errIsDirectory; ErrInvalid; ErrNotExist; EOF].
Proof.
  split; [|split].
  - intros af Hd. split; intros; unfold Read, Seek; by rewrite Hd.
  - intros af Hd count. unfold Readdir. by rewrite Hd.
  - repeat constructor; rewrite ?elem_of_cons, ?elem_of_nil; intuition discriminate.
Qed.

End RuntimeFacts.

Section HandleFacts.
Import Template Client Scenario.
Context {RT : Runtime}.

Lemma run_skips_close (cs : list call) (af : _assetFile) :
  run (filter (fun c => negb (is_close c)) cs) af
  = go_map (fun x => (fst x, filter (fun r => negb (is_close_reply r)) (snd x))) (run cs af).
Proof.
  revert af. induction cs as [|c cs IH]; intros af; [done|].
  destruct c; simpl; rewrite ?filter_cons; simpl.
  - destruct (Read af p) as [x|]; simpl; [|done].
    rewrite IH. destruct (run cs (fst x)); simpl; [|done]. by rewrite filter_cons.
  - destruct (Seek af offset whence) as [x|]; simpl; [|done].
    rewrite IH. destruct (run cs (fst x)); simpl; [|done]. by rewrite filter_cons.
  - rewrite IH. destruct (run cs af); simpl; [|done]. by rewrite filter_cons.
  - destruct (Readdir af count) as [x|]; simpl; [|done].
    rewrite IH. destruct (run cs (fst x)); simpl; [|done]. by rewrite filter_cons.
  - rewrite IH. destruct (run cs af); simpl; [|done]. by rewrite filter_cons.
Qed.

(** C10. [Close] returns a nil error and leaves the handle (reader
    position, listing cursor, entry and the index it points to) exactly as
    it was; any later sequence of calls on the handle gives the same replies
    and the same final handle as if [Close] had not been called, also when
    [Close] calls are interleaved anywhere in the sequence. *)
Theorem C10_close_is_noop :
  (∀ af : _assetFile, Close af = (af, None)) ∧
  (∀ (af : _assetFile) (cs : list call), run cs (fst (Close af)) = run cs af) ∧
  (∀ (af : _assetFile) (cs : list call),
     run (CallClose :: cs) af
     = go_map (fun x => (fst x, ReplyClose None :: snd x)) (run cs af)) ∧
  (∀ (af : _assetFile) (cs : list call),
     run (filter (fun c => negb (is_close c)) cs) af
     = go_map (fun x => (fst x, filter (fun r => negb (is_close_reply r)) (snd x)))
         (run cs af)).
Proof.
  split; [done|]. split; [done|]. split.
  - intros af cs. simpl. by destruct (run cs af).
  - intros af cs. apply run_skips_close.
Qed.

(** C6, in the form that holds.  [Open] on the nil instance fails, for every name, with
    a path error of operation "open" that carries the name as given and
    wraps [os.ErrNotExist]; [Open] on an instance whose [names] map lacks
    the key fails with the bare [os.ErrNotExist]; both satisfy
    [os.IsNotExist] and neither panics.  The key looked up is
    [path.Clean("/" + name)]: the not-found failure is returned exactly when
    that key is absent, and two names with the same key get the same
    outcome. *)
Theorem C6_not_found_same_kind (fs0 : _assetfs) (nm : string) :
  Open None nm = Ret (None, Some (PathError "open" nm ErrNotExist)) ∧
  IsNotExist (PathError "open" nm ErrNotExist) = true ∧
  IsNotExist ErrNotExist = true ∧
  (names fs0 !! path.Clean ("/" +:+ nm) = None ↔
     Open (Some fs0) nm = Ret (None, Some ErrNotExist)) ∧
  (∀ nm', path.Clean ("/" +:+ nm') = path.Clean ("/" +:+ nm) →
     Open (Some fs0) nm' = Open (Some fs0) nm).
Proof.
  split; [done|]. split; [done|]. split; [done|]. split.
  - unfold Open. split.
    + by intros ->.
    + destruct (names fs0 !! _) as [ix|]; [|done].
      destruct (index (meta fs0) ix) as [fi0|]; simpl; [|discriminate].
      destruct (isDir fi0); simpl; [discriminate|].
      destruct (index (data fs0) ix); simpl; discriminate.
  - intros nm' Heq. unfold Open. by rewrite Heq.
Qed.

(** C6 with "the same failure" read as equality of the returned values does
    not hold: on a path absent from the (here empty) index the valid
    instance and the nil instance return different errors. *)
Lemma C6_counterexample :
  names empty_assetfs !! path.Clean ("/" +:+ "x") = None ∧
  Open None "x" ≠ Open (Some empty_assetfs) "x".
Proof. split; [reflexivity|]. vm_compute. discriminate. Qed.

End HandleFacts.

Section ListingFacts.
Import Template Client.
Context {RT : Runtime}.

Lemma readdir_all_resolved mt ids es out :
  resolves mt ids es → readdir_all mt ids out = Ret (out ++ es).
Proof.
  intros H. revert out. induction H as [|idx m ids es Hm _ IH]; intros out; simpl.
  - by rewrite app_nil_r.
  - rewrite Hm. simpl. rewrite IH. by rewrite <- app_assoc.
Qed.

Lemma readdir_upto_resolved mt count k ids es out :
  resolves mt ids es → k ≤ count →
  readdir_upto mt count k ids out = Ret (out ++ take (Z.to_nat (count - k)) es).
Proof.
  intros H. revert k out. induction H as [|idx m ids es Hm _ IH]; intros k out Hk; simpl.
  - by rewrite take_nil, app_nil_r.
  - destruct (Z.eqb_spec k count) as [->|Hne].
    + by rewrite Z.sub_diag, app_nil_r.
    + rewrite Hm. simpl. rewrite IH by lia.
      replace (Z.to_nat (count - k)) with (S (Z.to_nat (count - (k + 1)))) by lia.
      simpl. by rewrite <- app_assoc.
Qed.

Lemma resolves_length mt ids es : resolves mt ids es → length ids = length es.
Proof. apply Forall2_length. Qed.

Lemma resolves_drop mt ids es n :
  resolves mt ids es → resolves mt (drop n ids) (drop n es).
Proof. apply Forall2_drop. Qed.

Lemma make_cap_room {A} (k : Z) : 0 ≤ k ≤ max_cap → make_cap (A := A) k = Ret [].
Proof.
  intros Hk. unfold make_cap.
  destruct (Z.ltb_spec k 0); [lia|]. by destruct (Z.ltb_spec max_cap k); [lia|].
Qed.

Lemma make_cap_no_room {A} (k : Z) :
  max_cap < k → make_cap (A := A) k = Panic "makeslice: cap out of range".
Proof.
  intros Hk. unfold make_cap.
  destruct (Z.ltb_spec max_cap k); [|lia]. by rewrite orb_true_r.
Qed.

(** A bounded call away from the end that asks for more room than the run
    has does not return. *)
Lemma Readdir_no_room (af : _assetFile) (k : Z) :
  isDir (fi af) = true →
  0 < k → max_cap < k → read af < Z.of_nat (length (children (fi af))) →
  Readdir af k = Panic "makeslice: cap out of range".
Proof.
  intros Hd Hk Hroom Hr. unfold Readdir. rewrite Hd. cbn [negb].
  destruct (Z.leb_spec k 0); [lia|].
  destruct (Z.leb_spec (Z.of_nat (length (children (fi af)))) (read af)); [lia|].
  by rewrite make_cap_no_room.
Qed.

(** One bounded call away from the end. *)
Lemma Readdir_bounded (af : _assetFile) (es : list _itemMetadata) (k : Z) :
  isDir (fi af) = true →
  resolves (meta (fs af)) (children (fi af)) es →
  0 < k → k ≤ max_cap → 0 ≤ read af < Z.of_nat (length es) →
  Readdir af k
  = Ret (set_read af (read af + Z.min k (Z.of_nat (length es) - read af)),
         (take (Z.to_nat k) (drop (Z.to_nat (read af)) es), None)).
Proof.
  intros Hd Hres Hk Hroom Hr. unfold Readdir. rewrite Hd. simpl.
  pose proof (resolves_length _ _ _ Hres) as Hlen.
  destruct (Z.leb_spec k 0); [lia|].
  destruct (Z.leb_spec (Z.of_nat (length (children (fi af)))) (read af)); [lia|].
  rewrite make_cap_room by lia. cbn [go_bind].
  unfold slice_from.
  destruct (Z.ltb_spec (read af) 0); [lia|].
  destruct (Z.ltb_spec (Z.of_nat (length (children (fi af)))) (read af)); [lia|].
  simpl.
  rewrite (readdir_upto_resolved _ _ _ _ (drop (Z.to_nat (read af)) es)) by (by apply resolves_drop || lia).
  simpl. rewrite Z.sub_0_r. do 3 f_equal.
  rewrite length_take, length_drop. lia.
Qed.

(** One unbounded call away from the end. *)
Lemma Readdir_unbounded (af : _assetFile) (es : list _itemMetadata) (count : Z) :
  isDir (fi af) = true →
  resolves (meta (fs af)) (children (fi af)) es →
  count ≤ 0 → 0 ≤ read af < Z.of_nat (length es) →
  Readdir af count
  = Ret (set_read af (Z.of_nat (length es)), (drop (Z.to_nat (read af)) es, None)).
Proof.
  intros Hd Hres Hk Hr. unfold Readdir. rewrite Hd. simpl.
  pose proof (resolves_length _ _ _ Hres) as Hlen.
  destruct (Z.leb_spec count 0); [|lia].
  destruct (Z.leb_spec (Z.of_nat (length (children (fi af)))) (read af)); [lia|].
  unfold slice_from.
  destruct (Z.ltb_spec (read af) 0); [lia|].
  destruct (Z.ltb_spec (Z.of_nat (length (children (fi af)))) (read af)); [lia|].
  simpl.
  rewrite (readdir_all_resolved _ _ (drop (Z.to_nat (read af)) es)) by (by apply resolves_drop).
  simpl. do 3 f_equal. rewrite length_drop. lia.
Qed.

(** Draining a directory handle in batches of [k], from any cursor. *)
Lemma read_batches_drains (es : list _itemMetadata) (k : Z) (fuel : nat) (af : _assetFile) :
  isDir (fi af) = true →
  resolves (meta (fs af)) (children (fi af)) es →
  0 < k → k ≤ max_cap → 0 ≤ read af ≤ Z.of_nat (length es) →
  (Z.to_nat (Z.of_nat (length es) - read af) < fuel)%nat →
  ∃ bs, read_batches fuel af k = Ret (Some (bs, set_read af (Z.of_nat (length es)), EOF))
        ∧ concat bs = drop (Z.to_nat (read af)) es
        ∧ Forall (fun b => (0 < length b)%nat ∧ Z.of_nat (length b) ≤ k) bs.
Proof.
  intros Hd Hres Hk Hroom. revert af Hd Hres.
  induction fuel as [|fuel IH]; intros af Hd Hres Hr Hfuel; [lia|].
  pose proof (resolves_length _ _ _ Hres) as Hlen.
  destruct (Z.eq_dec (read af) (Z.of_nat (length es))) as [Heq|Hne].
  - exists []. simpl. rewrite Readdir_exhausted by (done || lia).
    rewrite (proj2 (Z.ltb_lt _ _) Hk). simpl.
    rewrite <- Heq, set_read_same. split; [done|]. split; [|constructor].
    rewrite drop_ge; [done|lia].
  - simpl. rewrite (Readdir_bounded af es k) by (done || lia). simpl.
    set (n := Z.min k (Z.of_nat (length es) - read af)).
    destruct (IH (set_read af (read af + n))) as (bs & Hbs & Hcat & Hall);
      [done|done|simpl; lia|simpl; lia|].
    rewrite Hbs. simpl.
    exists (take (Z.to_nat k) (drop (Z.to_nat (read af)) es) :: bs).
    split; [done|]. split.
    + simpl. rewrite Hcat. simpl.
      rewrite <- (take_drop (Z.to_nat k) (drop (Z.to_nat (read af)) es)) at 2.
      f_equal. rewrite drop_drop. subst n.
      destruct (Z.min_spec k (Z.of_nat (length es) - read af)) as [[? ->]|[? ->]].
      * f_equal. lia.
      * rewrite !drop_ge; [done|lia|lia].
    + constructor; [|done]. rewrite length_take, length_drop. lia.
Qed.

(** C2.  Bounded listing pages through the children exactly as long as
    the run has room for a slice of capacity [k]: on a handle freshly
    opened on a directory whose children resolve to the entries [es], a
    call [Readdir(k)] with [0 < k <= max_cap] at any cursor [r] before the
    end returns the [min(k, remaining)] entries that start at [r] and moves
    the cursor past them; calling [Readdir(k)] until it fails ends with
    [io.EOF] after batches whose concatenation is [es]; and one unbounded
    call on the fresh handle returns [es].  With a larger [k] (on every
    machine: any [k] above 2^44) the call does not return at all while
    entries are left: [make([]os.FileInfo, 0, k)] panics before the first
    entry is read, so no batch is ever delivered. *)
Theorem C2_listing_pagination (recv : option _assetfs) (nm : string) (af : _assetFile)
    (es : list _itemMetadata) :
  Open recv nm = Ret (Some af, None) →
  isDir (fi af) = true →
  resolves (meta (fs af)) (children (fi af)) es →
  (∀ k r, 0 < k → k ≤ max_cap → 0 ≤ r < Z.of_nat (length es) →
     Readdir (set_read af r) k
     = Ret (set_read af (r + Z.min k (Z.of_nat (length es) - r)),
            (take (Z.to_nat k) (drop (Z.to_nat r) es), None))) ∧
  (∀ k fuel, 0 < k → k ≤ max_cap → (length es < fuel)%nat →
     ∃ bs, read_batches fuel af k
           = Ret (Some (bs, set_read af (Z.of_nat (length es)), EOF))
           ∧ concat bs = es
           ∧ Forall (fun b => (0 < length b)%nat ∧ Z.of_nat (length b) ≤ k) bs) ∧
  (∀ count, count ≤ 0 →
     Readdir af count = Ret (set_read af (Z.of_nat (length es)), (es, None))) ∧
  (∀ k r, (max_cap < k ∨ 2 ^ 44 < k) → 0 < k → r < Z.of_nat (length es) →
     Readdir (set_read af r) k = Panic "makeslice: cap out of range") ∧
  (∀ k fuel, (max_cap < k ∨ 2 ^ 44 < k) → 0 < k → es ≠ [] →
     read_batches (S fuel) af k = Panic "makeslice: cap out of range").
Proof.
  intros Hopen Hd Hres.
  destruct (Open_handle _ _ _ _ Hopen) as (_ & Hread & _).
  pose proof (resolves_length _ _ _ Hres) as Hlen.
  assert (Hroom : ∀ k, max_cap < k ∨ 2 ^ 44 < k → max_cap < k).
  { intros k [?|?]; [done|]. pose proof max_cap_le. lia. }
  split; [|split; [|split; [|split]]].
  - intros k r Hk Hcap Hr.
    by rewrite (Readdir_bounded (set_read af r) es k).
  - intros k fuel Hk Hcap Hfuel.
    destruct (read_batches_drains es k fuel af) as (bs & Hbs & Hcat & Hall);
      try done; try lia.
    exists bs. split; [done|]. split; [|done]. by rewrite Hcat, Hread.
  - intros count Hc.
    destruct (decide (length es = 0%nat)) as [Hz|Hnz].
    + destruct es; [|done]. simpl in Hlen. cbn [length].
      rewrite Readdir_exhausted; [|done|lia].
      rewrite (proj2 (Z.ltb_ge _ _) Hc). change (Z.of_nat 0) with 0.
      by rewrite <- Hread, set_read_same.
    + rewrite (Readdir_unbounded af es count) by (done || lia).
      by rewrite Hread.
  - intros k r Hbig Hk Hr. apply Readdir_no_room; try done; [by apply Hroom|].
    cbn [read set_read fi]. by rewrite Hlen.
  - intros k fuel Hbig Hk Hne. cbn [read_batches].
    rewrite Readdir_no_room; try done; [by apply Hroom|].
    rewrite Hread, Hlen. destruct es; [done|]. cbn [length]. lia.
Qed.

End ListingFacts.

(** * Properties of the generator *)

Section WalkFacts.
Import Generator Scenario.

Lemma insert_by_name_perm {A} (x : string * A) (l : list (string * A)) :
  insert_by_name x l ≡ₚ x :: l.
Proof.
  induction l as [|y l IH]; simpl; [done|].
  destruct (String.leb (fst x) (fst y)); [done|].
  rewrite IH. apply Permutation_swap.
Qed.

Lemma sort_names_perm {A} (l : list (string * A)) : sort_names l ≡ₚ l.
Proof.
  induction l as [|x l IH]; simpl; [done|].
  unfold sort_names in *. simpl. rewrite insert_by_name_perm. by rewrite IH.
Qed.

(** Induction on snapshots, with the hypothesis available for every entry
    of a directory. *)
Lemma fsnode_Forall_ind (P : fsnode → Prop) :
  (∀ nm sz md mt content, P (FsFile nm sz md mt content)) →
  (∀ nm sz md mt entries, Forall P entries → P (FsDir nm sz md mt entries)) →
  ∀ n, P n.
Proof.
  intros Hfile Hdir. fix IH 1. intros [nm sz md mt content|nm sz md mt entries].
  - apply Hfile.
  - apply Hdir. induction entries as [|c cs IHcs]; constructor; [apply IH|apply IHcs].
Qed.

Lemma Exists_concat {A} (P : A → Prop) (ls : list (list A)) :
  Exists P (concat ls) ↔ Exists (Exists P) ls.
Proof.
  induction ls as [|l ls IH]; simpl.
  - split; inversion 1.
  - rewrite Exists_app, Exists_cons, IH. done.
Qed.

(** The walk reaches an oversized entry exactly when the snapshot has one. *)
Lemma has_oversized_visits (n : fsnode) :
  ∀ p, has_oversized n = true ↔ Exists oversized (walk_visits p n).
Proof.
  induction n as [nm sz md mt content|nm sz md mt entries IH] using fsnode_Forall_ind; intros p.
  - simpl. rewrite Exists_cons, Exists_nil. unfold oversized. simpl.
    rewrite Z.ltb_lt. tauto.
  - simpl. rewrite Exists_cons. unfold oversized at 1. simpl.
    rewrite Exists_concat.
    transitivity (Exists (fun c => has_oversized c = true) entries).
    { rewrite existsb_exists, Exists_exists. split; intros (c & ? & ?); exists c.
      - by rewrite list_elem_of_In.
      - by rewrite <- list_elem_of_In. }
    split.
    + intros Hex. right.
      rewrite Exists_exists in Hex. destruct Hex as (c & Hc & Hov).
      rewrite Exists_exists.
      exists (walk_visits (path.Join p (node_name c)) c). split.
      * apply list_elem_of_fmap. exists (node_name c, walk_visits (path.Join p (node_name c)) c).
        split; [done|]. rewrite sort_names_perm.
        apply list_elem_of_fmap. by exists c.
      * rewrite Forall_forall in IH. by apply IH.
    + intros [[? _]|Hex]; [done|].
      rewrite Exists_exists in Hex. destruct Hex as (vs & Hvs & Hov).
      apply list_elem_of_fmap in Hvs as ([k vs'] & -> & Hin).
      rewrite sort_names_perm in Hin.
      apply list_elem_of_fmap in Hin as (c & [= -> ->] & Hc).
      rewrite Exists_exists. exists c. split; [done|].
      rewrite Forall_forall in IH. by eapply IH.
Qed.

Lemma walkFunc_oversized (tr : tree) (v : visit) :
  oversized v →
  walkFunc tr (v_path v) (v_info v) None (v_data v, None) = (tr, Some (ErrFileSize (v_path v))).
Proof.
  intros [Hf Hsz]. unfold walkFunc. rewrite Hf.
  by rewrite (proj2 (Z.ltb_lt _ _) Hsz).
Qed.

Lemma walkFunc_within (tr : tree) (v : visit) :
  ¬ oversized v →
  ∃ tr', walkFunc tr (v_path v) (v_info v) None (v_data v, None) = (tr', None).
Proof.
  intros Hno. unfold walkFunc. destruct (IsDir (v_info v)) eqn:Hd; [eauto|].
  destruct (Z.ltb_spec maxFileSize (Size (v_info v))); [|eauto].
  destruct Hno. by split.
Qed.

(** The walk fails at the first oversized entry and only there. *)
Lemma run_visits_oversized (vs : list visit) (tr : tree) :
  Exists oversized vs →
  ∃ tr' v, run_visits vs tr = (tr', Some (ErrFileSize (v_path v))) ∧ v ∈ vs ∧ oversized v.
Proof.
  revert tr. induction vs as [|v vs IH]; intros tr Hex; [inversion Hex|].
  destruct (decide (oversized v)) as [Hv|Hv].
  - exists tr, v. simpl. rewrite walkFunc_oversized by done.
    split; [done|]. split; [left|done].
  - apply Exists_cons in Hex as [?|Hex]; [done|].
    destruct (walkFunc_within tr v Hv) as [tr1 Htr1].
    destruct (IH tr1 Hex) as (tr' & v' & Hrun & Hin & Hov).
    exists tr', v'. simpl. rewrite Htr1. split; [done|]. split; [by right|done].
Qed.

Lemma run_visits_within (vs : list visit) (tr : tree) :
  Forall (fun v => ¬ oversized v) vs → ∃ tr', run_visits vs tr = (tr', None).
Proof.
  revert tr. induction vs as [|v vs IH]; intros tr Hall; [by exists tr|].
  apply Forall_cons in Hall as [Hv Hall].
  destruct (walkFunc_within tr v Hv) as [tr1 Htr1].
  destruct (IH tr1 Hall) as [tr' Hrun].
  exists tr'. simpl. by rewrite Htr1.
Qed.

Lemma write_sections_oversized (mo : MapOrder) (dirs : list (string * fsnode)) (w : list chunk) :
  Exists oversized (all_visits dirs) →
  ∃ w' v, write_sections mo w dirs = (w', Some (ErrFileSize (v_path v)))
          ∧ v ∈ all_visits dirs ∧ oversized v.
Proof.
  revert w. induction dirs as [|[dir n] dirs IH]; intros w Hex; [inversion Hex|].
  unfold all_visits in *. simpl in *.
  destruct (decide (Exists oversized (walk_visits (path.Clean dir) n))) as [Hhere|Hhere].
  - destruct (run_visits_oversized _
        {| wr := w ++ [SectionOpen (path.Clean dir)]; root := path.Clean dir; filesMeta := [];
           dirMeta := []; names := ∅; dirData := ∅ |} Hhere) as (tr' & v & Hrun & Hin & Hov).
    exists (wr tr'), v. unfold writeSection, Walk. simpl. rewrite Hrun.
    split; [done|]. split; [|done]. apply elem_of_app. by left.
  - apply Exists_app in Hex as [?|Hex]; [done|].
    apply not_Exists_Forall in Hhere; [|apply _].
    destruct (run_visits_within _
        {| wr := w ++ [SectionOpen (path.Clean dir)]; root := path.Clean dir; filesMeta := [];
           dirMeta := []; names := ∅; dirData := ∅ |} Hhere) as (tr' & Hrun).
    destruct (IH (wr (writeMetadata mo tr')) Hex) as (w' & v & Hws & Hin & Hov).
    exists w', v. unfold writeSection, Walk. simpl. rewrite Hrun.
    split; [done|]. split; [|done]. apply elem_of_app. by right.
Qed.

Lemma write_sections_within (mo : MapOrder) (dirs : list (string * fsnode)) (w : list chunk) :
  Forall (fun v => ¬ oversized v) (all_visits dirs) →
  ∃ w', write_sections mo w dirs = (w', None).
Proof.
  revert w. induction dirs as [|[dir n] dirs IH]; intros w Hall; [by exists w|].
  unfold all_visits in *. simpl in *.
  apply Forall_app in Hall as [Hhere Hall].
  destruct (run_visits_within _
      {| wr := w ++ [SectionOpen (path.Clean dir)]; root := path.Clean dir; filesMeta := [];
         dirMeta := []; names := ∅; dirData := ∅ |} Hhere) as (tr' & Hrun).
  destruct (IH (wr (writeMetadata mo tr')) Hall) as (w' & Hws).
  exists w'. unfold writeSection, Walk. simpl. by rewrite Hrun.
Qed.

(** C5. Size ceiling: when some non-directory entry under one of the
    directories is larger than 10 MiB (10 << 20 bytes), [generateMain]
    returns the size error naming the path of such an entry and produces no
    output at all; when no entry is larger the build goes through, and an
    entry of exactly 10 MiB does not count as larger. *)
Theorem C5_size_ceiling (mo : MapOrder) (filename pkg tag : string)
    (dirs : list (string * fsnode)) :
  filename ≠ ""%string →
  maxFileSize = 10485760 ∧
  (Exists (fun d => has_oversized (snd d) = true) dirs →
     ∃ v, generateMain mo filename pkg tag dirs = inl (ErrFileSize (v_path v))
          ∧ v ∈ all_visits dirs
          ∧ IsDir (v_info v) = false ∧ 10485760 < Size (v_info v)) ∧
  (Forall (fun d => has_oversized (snd d) = false) dirs →
     ∃ out, generateMain mo filename pkg tag dirs = inr out) ∧
  (∀ nm md mt content, has_oversized (FsFile nm 10485760 md mt content) = false).
Proof.
  intros Hname. split; [reflexivity|].
  assert (Hne : String.eqb filename "" = false) by by apply String.eqb_neq.
  unfold generateMain. rewrite Hne. split; [|split; [|done]].
  - intros Hex.
    assert (Hvis : Exists oversized (all_visits dirs)).
    { unfold all_visits. rewrite Exists_concat.
      rewrite Exists_exists in Hex. destruct Hex as ([dir n] & Hin & Hov).
      rewrite Exists_exists. exists (walk_visits (path.Clean dir) n). split.
      - apply list_elem_of_fmap. by exists (dir, n).
      - by apply has_oversized_visits. }
    destruct (write_sections_oversized mo dirs [Header pkg tag; Head] Hvis)
      as (w' & v & Hws & Hin & Hf & Hsz).
    exists v. by rewrite Hws.
  - intros Hall.
    destruct (write_sections_within mo dirs [Header pkg tag; Head]) as (w' & Hws).
    { unfold all_visits. apply Forall_concat, Forall_fmap.
      eapply Forall_impl; [exact Hall|]. intros [dir n] Hno. simpl in *.
      apply not_Exists_Forall; [apply _|].
      rewrite <- has_oversized_visits. by rewrite Hno. }
    rewrite Hws. eauto.
Qed.

End WalkFacts.

Section LayoutFacts.
Import Generator Scenario.

Lemma run_visits_cons (v : visit) (vs : list visit) (tr : tree) :
  run_visits (v :: vs) tr
  = match walkFunc tr (v_path v) (v_info v) None (v_data v, None) with
    | (tr', Some e) => (tr', Some e)
    | (tr', None) => run_visits vs tr'
    end.
Proof. done. Qed.

(** What one successful call of the walk function changes. *)
Lemma walkFunc_effect (tr tr' : tree) (v : visit) :
  walkFunc tr (v_path v) (v_info v) None (v_data v, None) = (tr', None) →
  root tr' = root tr ∧
  filesMeta tr' = filesMeta tr ++ map v_info (filter is_file [v]) ∧
  dirMeta tr' = dirMeta tr ++ map v_info (filter is_dir [v]) ∧
  wr tr' = wr tr ++ map (fun v => DataItem (v_data v)) (filter is_file [v]) ∧
  (base.size (names tr') ≤ S (base.size (names tr)))%nat.
Proof.
  unfold walkFunc.
  rewrite !filter_cons, !filter_nil. unfold is_file, is_dir.
  destruct (IsDir (v_info v)) eqn:Hd.
  - intros [= <-]. simpl.
    rewrite ?app_nil_r. repeat split. rewrite map_size_insert.
    destruct (names tr !! v_path v); unfold id; lia.
  - destruct (maxFileSize <? Size (v_info v)); [discriminate|].
    intros [= <-]. simpl.
    rewrite ?app_nil_r. repeat split. rewrite map_size_insert.
    destruct (names tr !! v_path v); unfold id; lia.
Qed.

(** What a successful walk leaves in the tree: the non-directories and the
    directories, each in the order visited, and one data item per
    non-directory. *)
Lemma run_visits_effect (vs : list visit) (tr tr' : tree) :
  run_visits vs tr = (tr', None) →
  root tr' = root tr ∧
  filesMeta tr' = filesMeta tr ++ map v_info (filter is_file vs) ∧
  dirMeta tr' = dirMeta tr ++ map v_info (filter is_dir vs) ∧
  wr tr' = wr tr ++ map (fun v => DataItem (v_data v)) (filter is_file vs) ∧
  (base.size (names tr') ≤ base.size (names tr) + length vs)%nat.
Proof.
  revert tr. induction vs as [|v vs IH]; intros tr.
  - intros [= <-]. rewrite !filter_nil. simpl. rewrite !app_nil_r. repeat split. lia.
  - rewrite run_visits_cons.
    destruct (walkFunc tr _ _ _ _) as [tr1 [e|]] eqn:Hstep; [discriminate|].
    intros Hrun. apply walkFunc_effect in Hstep as (Hr1 & Hf1 & Hd1 & Hw1 & Hn1).
    apply IH in Hrun as (Hr & Hf & Hd & Hw & Hn).
    change (v :: vs) with ([v] ++ vs). rewrite !filter_app, !map_app.
    rewrite Hr, Hf, Hd, Hw, Hr1, Hf1, Hd1, Hw1, !app_assoc.
    repeat split. simpl. lia.
Qed.

Lemma filter_file_dir_length (vs : list visit) :
  (length (filter is_file vs) + length (filter is_dir vs) = length vs)%nat.
Proof.
  induction vs as [|v vs IH]; [done|].
  rewrite !filter_cons. unfold is_file, is_dir in *.
  destruct (IsDir (v_info v)); simpl; lia.
Qed.

Lemma foldl_insert_size {K A B} `{Countable K} (f : B → K) (g : B → A) (l : list B)
    (m : gmap K A) :
  (base.size (foldl (fun acc x => <[f x := g x]> acc) m l) ≤ base.size m + length l)%nat.
Proof.
  revert m. induction l as [|x l IH]; intros m; simpl; [lia|].
  etransitivity; [apply IH|]. rewrite map_size_insert. destruct (m !! f x); unfold id; lia.
Qed.

Lemma build_indexes_size (mo : MapOrder) (tr : tree) (shift : Z) :
  (base.size (build_indexes (range_of mo _ (names tr)) (root tr) (dirData tr) shift)
   ≤ base.size (names tr))%nat.
Proof.
  unfold build_indexes.
  etransitivity; [apply (foldl_insert_size (fun kv : string * Z => rootedName (fst kv) (root tr)))|].
  rewrite map_size_empty. simpl.
  rewrite (Permutation_length (range_of_perm mo Z (names tr))).
  by rewrite length_map_to_list.
Qed.

(** The pieces of a section, read back. *)
Lemma section_data_app cs1 cs2 : section_data (cs1 ++ cs2) = section_data cs1 ++ section_data cs2.
Proof. apply omap_app. Qed.
Lemma section_meta_app cs1 cs2 : section_meta (cs1 ++ cs2) = section_meta cs1 ++ section_meta cs2.
Proof. apply omap_app. Qed.
Lemma section_names_app cs1 cs2 : section_names (cs1 ++ cs2) = section_names cs1 ++ section_names cs2.
Proof. apply omap_app. Qed.

Lemma section_data_items (l : list (list byte)) :
  section_data (map DataItem l) = l
  ∧ section_meta (map DataItem l) = []
  ∧ section_names (map DataItem l) = [].
Proof. induction l as [|x l (IH1 & IH2 & IH3)]; [done|]. repeat split; [by cbn; f_equal|done..]. Qed.

Lemma section_meta_items (l : list Template._itemMetadata) :
  section_data (map MetaItem l) = []
  ∧ section_meta (map MetaItem l) = l
  ∧ section_names (map MetaItem l) = [].
Proof. induction l as [|x l (IH1 & IH2 & IH3)]; [done|]. repeat split; [done|by cbn; f_equal|done]. Qed.

Lemma section_name_items (l : list (string * Z)) :
  section_data (map (fun kv => NameItem (fst kv) (snd kv)) l) = []
  ∧ section_meta (map (fun kv => NameItem (fst kv) (snd kv)) l) = []
  ∧ section_names (map (fun kv => NameItem (fst kv) (snd kv)) l) = l.
Proof.
  induction l as [|[k v] l (IH1 & IH2 & IH3)]; [done|].
  repeat split; [done|done|by cbn; f_equal].
Qed.

(** A successful [writeSection] writes the data items during the walk and
    the rest in [writeMetadata]. *)
Lemma writeSection_ok (mo : MapOrder) (w : list chunk) (dir : string) (n : fsnode)
    (out : list chunk) :
  writeSection mo w dir n = (out, None) →
  ∃ tr, run_visits (walk_visits dir n)
          {| wr := w ++ [SectionOpen dir]; root := dir; filesMeta := []; dirMeta := [];
             names := ∅; dirData := ∅ |} = (tr, None)
        ∧ out = wr (writeMetadata mo tr).
Proof.
  unfold writeSection, Walk. simpl.
  destruct (run_visits _ _) as [tr [e|]]; [discriminate|].
  intros [= <-]. by exists tr.
Qed.

End LayoutFacts.

Section LayoutTheorem.
Import Generator Scenario.

Lemma index_in_range {A} (l : list A) (ix : Z) :
  0 ≤ ix < Z.of_nat (length l) → ∃ x, index l ix = Ret x ∧ l !! Z.to_nat ix = Some x.
Proof.
  intros Hr. unfold index.
  destruct (Z.ltb_spec ix 0); [lia|]. destruct (Z.leb_spec (Z.of_nat (length l)) ix); [lia|].
  simpl. destruct (lookup_lt_is_Some_2 l (Z.to_nat ix)) as [x Hx]; [lia|].
  rewrite Hx. eauto.
Qed.

Lemma meta_entry_file sd i2n i fi :
  IsDir fi = false →
  meta_entry sd i2n i fi
  = {| Template.name := Name fi; Template.size := Size fi; Template.mode := Mode fi;
       Template.mtime := ModTime fi; Template.isDir := false; Template.children := [] |}.
Proof. intros H. unfold meta_entry. by rewrite H. Qed.

Lemma meta_entry_isDir sd i2n i fi : Template.isDir (meta_entry sd i2n i fi) = IsDir fi.
Proof. unfold meta_entry. by destruct (IsDir fi). Qed.

Lemma meta_entry_fields sd i2n i fi :
  Template.name (meta_entry sd i2n i fi) = Name fi
  ∧ Template.mode (meta_entry sd i2n i fi) = Mode fi
  ∧ Template.mtime (meta_entry sd i2n i fi) = ModTime fi.
Proof. unfold meta_entry. by destruct (IsDir fi). Qed.

Lemma section_read_back (dir : string) (ds : list (list byte))
    (ms : list Template._itemMetadata) (ns : list (string * Z)) :
  let sec := [SectionOpen dir] ++ map DataItem ds ++ [MetaOpen] ++ map MetaItem ms
             ++ [NamesOpen] ++ map (fun kv => NameItem (fst kv) (snd kv)) ns ++ [SectionClose] in
  section_data sec = ds ∧ section_meta sec = ms ∧ section_names sec = ns.
Proof.
  intros sec. subst sec.
  rewrite !section_data_app, !section_meta_app, !section_names_app.
  destruct (section_data_items ds) as (-> & -> & ->).
  destruct (section_meta_items ms) as (-> & -> & ->).
  destruct (section_name_items ns) as (-> & -> & ->).
  cbn. by rewrite !app_nil_r.
Qed.

(** The index a successful [writeSection] denotes, in terms of the tree the
    walk leaves behind. *)
Lemma built_index_shape (mo : MapOrder) (w : list chunk) (dir : string) (n : fsnode)
    (out sec : list chunk) (fs0 : Template._assetfs) :
  writeSection mo w dir n = (out, None) →
  out = w ++ sec →
  compile_section sec = Some fs0 →
  ∃ tr,
    run_visits (walk_visits dir n)
      {| wr := w ++ [SectionOpen dir]; root := dir; filesMeta := []; dirMeta := [];
         names := ∅; dirData := ∅ |} = (tr, None)
    ∧ let F := Z.of_nat (length (filesMeta tr)) in
      let ixs := build_indexes (range_of mo _ (names tr)) (root tr) (dirData tr) F in
      let sd := build_subdir (range_of mo _ (dirData tr)) (root tr) F in
      let i2n := build_idx2name (range_of mo _ ixs) in
      Template.data fs0 = map v_data (filter is_file (walk_visits dir n))
      ∧ Template.meta fs0 = imap (meta_entry sd i2n) (filesMeta tr ++ dirMeta tr)
      ∧ Template.names fs0
        = list_to_map (map (fun i : nat => (default ""%string (i2n !! Z.of_nat i), Z.of_nat i))
                         (seq 0 (base.size ixs))).
Proof.
  intros Hws Hout Hcomp.
  destruct (writeSection_ok _ _ _ _ _ Hws) as (tr & Hrun & Hwr).
  exists tr. split; [exact Hrun|].
  apply run_visits_effect in Hrun as (_ & _ & _ & Hw & _). cbn [wr] in Hw.
  unfold writeMetadata in Hwr. cbn [wr] in Hwr.
  intros F ixs sd i2n. fold F in Hwr. fold ixs in Hwr. fold sd in Hwr. fold i2n in Hwr.
  rewrite Hw in Hwr. rewrite <- !app_assoc in Hwr.
  rewrite Hwr in Hout. apply app_inv_head in Hout.
  rewrite <- (map_map v_data DataItem) in Hout.
  replace (map (fun i : nat => NameItem (default ""%string (i2n !! Z.of_nat i)) (Z.of_nat i))
             (seq 0 (base.size ixs)))
    with (map (fun kv : string * Z => NameItem (fst kv) (snd kv))
            (map (fun i : nat => (default ""%string (i2n !! Z.of_nat i), Z.of_nat i))
               (seq 0 (base.size ixs)))) in Hout by (by rewrite map_map).
  cbn [app] in Hout.
  destruct (section_read_back dir (map v_data (filter is_file (walk_visits dir n)))
              (imap (meta_entry sd i2n) (filesMeta tr ++ dirMeta tr))
              (map (fun i : nat => (default ""%string (i2n !! Z.of_nat i), Z.of_nat i))
                 (seq 0 (base.size ixs)))) as (Hsd & Hsm & Hsn).
  cbn [app] in Hsd, Hsm, Hsn. rewrite Hout in Hsd, Hsm, Hsn.
  unfold compile_section in Hcomp. destruct (decide _) as [_|]; [|discriminate].
  injection Hcomp as <-. cbn [Template.data Template.meta Template.names].
  by rewrite Hsd, Hsm, Hsn.
Qed.

(** The entries and the data of a built index: the data slice holds the
    contents of the non-directory entries in the order visited; the
    entries slice holds first those [F] entries and then the [D]
    directories in the order discovered; [data[i]] exists exactly when
    [meta[i]] exists and is not a directory; every identity in the [names]
    map is below [F + D]; hence [Open] never indexes out of bounds. *)
Lemma built_identity_layout (mo : MapOrder) (w : list chunk) (dir : string) (n : fsnode)
    (out sec : list chunk) (fs0 : Template._assetfs) :
  writeSection mo w dir n = (out, None) →
  out = w ++ sec →
  compile_section sec = Some fs0 →
  let fls := filter is_file (walk_visits dir n) in
  let drs := filter is_dir (walk_visits dir n) in
  Template.data fs0 = map v_data fls ∧
  length (Template.meta fs0) = (length fls + length drs)%nat ∧
  (∀ (i : nat) v, fls !! i = Some v →
     Template.meta fs0 !! i
     = Some {| Template.name := Name (v_info v); Template.size := Size (v_info v);
               Template.mode := Mode (v_info v); Template.mtime := ModTime (v_info v);
               Template.isDir := false; Template.children := [] |}) ∧
  (∀ (j : nat) v, drs !! j = Some v →
     ∃ m, Template.meta fs0 !! (length fls + j)%nat = Some m
          ∧ Template.isDir m = true ∧ Template.name m = Name (v_info v)
          ∧ Template.mode m = Mode (v_info v) ∧ Template.mtime m = ModTime (v_info v)) ∧
  (∀ i : nat, is_Some (Template.data fs0 !! i) ↔ (i < length fls)%nat) ∧
  (∀ i : nat, is_Some (Template.data fs0 !! i)
     ↔ ∃ m, Template.meta fs0 !! i = Some m ∧ Template.isDir m = false) ∧
  (∀ k ix, Template.names fs0 !! k = Some ix →
     0 ≤ ix < Z.of_nat (length fls + length drs)) ∧
  (∀ nm, ∃ r, Template.Open (Some fs0) nm = Ret r).
Proof.
  intros Hws Hout Hcomp fls drs.
  destruct (built_index_shape _ _ _ _ _ _ _ Hws Hout Hcomp) as (tr & Hrun & Hshape).
  apply run_visits_effect in Hrun as (Hroot & Hfm & Hdm & Hw & Hsz). simpl in Hfm, Hdm, Hsz.
  rewrite map_size_empty in Hsz. simpl in Hsz.
  fold fls in Hfm. fold drs in Hdm.
  cbv zeta in Hshape.
  set (sd := build_subdir _ _ _) in Hshape. set (ixs := build_indexes _ _ _ _) in Hshape.
  set (i2n := build_idx2name _) in Hshape.
  assert (Hixs : (base.size ixs ≤ length fls + length drs)%nat).
  { subst ixs. etransitivity; [apply build_indexes_size|].
    etransitivity; [exact Hsz|]. unfold fls, drs. by rewrite filter_file_dir_length. }
  rewrite Hfm, Hdm in Hshape. fold fls in Hshape.
  destruct Hshape as (Hd0 & Hm0 & Hn0). rewrite Hd0, Hm0, Hn0.
  assert (Hfile : ∀ (i : nat) v, fls !! i = Some v →
            imap (meta_entry sd i2n) (map v_info fls ++ map v_info drs) !! i
            = Some {| Template.name := Name (v_info v); Template.size := Size (v_info v);
                      Template.mode := Mode (v_info v); Template.mtime := ModTime (v_info v);
                      Template.isDir := false; Template.children := [] |}).
  { intros i v Hv. rewrite list_lookup_imap.
    rewrite lookup_app_l by (rewrite length_map; by eapply lookup_lt_Some).
    rewrite list_lookup_fmap, Hv. simpl. f_equal. apply meta_entry_file.
    apply list_elem_of_lookup_2 in Hv. by apply list_elem_of_filter in Hv as [? _]. }
  assert (Hdir : ∀ (j : nat) v, drs !! j = Some v →
            imap (meta_entry sd i2n) (map v_info fls ++ map v_info drs) !! (length fls + j)%nat
            = Some (meta_entry sd i2n (length fls + j) (v_info v)) ∧ IsDir (v_info v) = true).
  { intros j v Hv. rewrite list_lookup_imap.
    rewrite lookup_app_r by (rewrite length_map; lia).
    rewrite length_map. replace (length fls + j - length fls)%nat with j by lia.
    rewrite list_lookup_fmap, Hv. split; [done|].
    apply list_elem_of_lookup_2 in Hv. by apply list_elem_of_filter in Hv as [? _]. }
  assert (Hlen : length (imap (meta_entry sd i2n) (map v_info fls ++ map v_info drs))
                 = (length fls + length drs)%nat).
  { by rewrite length_imap, length_app, !length_map. }
  assert (Hiff : ∀ i : nat, is_Some (map v_data fls !! i)
     ↔ ∃ m, imap (meta_entry sd i2n) (map v_info fls ++ map v_info drs) !! i = Some m
            ∧ Template.isDir m = false).
  { intros i. rewrite list_lookup_fmap, fmap_is_Some. split.
    - intros [v Hv]. eexists. split; [by apply Hfile|done].
    - intros (m & Hm & Hnd).
      destruct (decide (i < length fls)%nat) as [Hlt|Hge]; [by apply lookup_lt_is_Some_2|].
      exfalso. pose proof (lookup_lt_Some _ _ _ Hm) as Hi. rewrite Hlen in Hi.
      destruct (lookup_lt_is_Some_2 drs (i - length fls)) as [v Hv]; [lia|].
      destruct (Hdir _ _ Hv) as [Hm' Hisd].
      replace (length fls + (i - length fls))%nat with i in Hm' by lia.
      rewrite Hm in Hm'. injection Hm' as ->.
      rewrite meta_entry_isDir in Hnd. congruence. }
  assert (Hnames : ∀ k ix,
     (list_to_map (map (fun i : nat => (default ""%string (i2n !! Z.of_nat i), Z.of_nat i))
                     (seq 0 (base.size ixs))) : gmap string Z) !! k = Some ix →
     0 ≤ ix < Z.of_nat (length fls + length drs)).
  { intros k ix Hk. apply elem_of_list_to_map_2 in Hk.
    apply list_elem_of_fmap in Hk as (i & [= -> ->] & Hi).
    apply elem_of_seq in Hi. lia. }
  split; [done|]. split; [done|]. split; [exact Hfile|]. split.
  { intros j v Hv. destruct (Hdir _ _ Hv) as [Hm Hisd].
    eexists. split; [exact Hm|]. rewrite meta_entry_isDir.
    split; [done|]. apply meta_entry_fields. }
  split. { intros i. by rewrite lookup_lt_is_Some, length_map. }
  split; [exact Hiff|]. split; [exact Hnames|].
  intros nm. unfold Template.Open. rewrite Hd0, Hm0, Hn0.
  destruct (_ !! path.Clean _) as [ix|] eqn:Hix; [|eauto].
  apply Hnames in Hix.
  destruct (index_in_range (imap (meta_entry sd i2n) (map v_info fls ++ map v_info drs)) ix)
    as (m & -> & Hm); [rewrite Hlen; lia|].
  simpl. destruct (Template.isDir m) eqn:Hisd; simpl; [eauto|].
  destruct (proj2 (Hiff (Z.to_nat ix))) as [d Hd]; [eauto|].
  destruct (index_in_range (map v_data fls) ix) as (d' & -> & _); [|simpl; eauto].
  apply lookup_lt_Some in Hd. lia.
Qed.

End LayoutTheorem.

Section OrderFacts.
Import Generator Scenario.

(** Inserting the pairs of a list one after the other builds the map in
    which the last pair of each key wins. *)
Lemma foldl_insert_list_to_map {K A B} `{Countable K} (f : B → K) (g : B → A) (l : list B) :
  foldl (fun (acc : gmap K A) x => <[f x := g x]> acc) ∅ l
  = list_to_map (reverse (map (fun x => (f x, g x)) l)).
Proof.
  induction l as [|x l IH] using rev_ind; [done|].
  rewrite foldl_app, map_app, reverse_app. simpl. by rewrite IH.
Qed.

(** With pairwise distinct keys the order of insertion does not matter. *)
Lemma foldl_insert_perm {K A B} `{Countable K} (f : B → K) (g : B → A) (l1 l2 : list B) :
  NoDup (map f l1) → l1 ≡ₚ l2 →
  foldl (fun (acc : gmap K A) x => <[f x := g x]> acc) ∅ l1
  = foldl (fun (acc : gmap K A) x => <[f x := g x]> acc) ∅ l2.
Proof.
  intros Hnd Hp. rewrite !foldl_insert_list_to_map.
  apply list_to_map_proper.
  - change (NoDup (fst <$> reverse ((fun x => (f x, g x)) <$> l1))).
    rewrite fmap_reverse, <- list_fmap_compose. by rewrite reverse_Permutation.
  - rewrite !reverse_Permutation. by apply Permutation_map.
Qed.

(** When the rooted names of the walked paths are pairwise distinct (and so
    are the identities), [writeMetadata] writes the same whatever the order
    in which the maps are enumerated. *)
Lemma writeMetadata_order_irrelevant (mo1 mo2 : MapOrder) (tr : tree) :
  NoDup (map (fun kv : string * Z => rootedName (fst kv) (root tr)) (map_to_list (names tr))) →
  NoDup (map (fun kv : string * dirInfo => rootedName (fst kv) (root tr))
           (map_to_list (dirData tr))) →
  NoDup (map snd (map_to_list
           (build_indexes (map_to_list (names tr)) (root tr) (dirData tr)
              (Z.of_nat (length (filesMeta tr)))))) →
  writeMetadata mo1 tr = writeMetadata mo2 tr.
Proof.
  intros Hn Hd Hi.
  assert (Hcanon : ∀ mo : MapOrder,
    build_indexes (range_of mo _ (names tr)) (root tr) (dirData tr)
        (Z.of_nat (length (filesMeta tr)))
    = build_indexes (map_to_list (names tr)) (root tr) (dirData tr)
        (Z.of_nat (length (filesMeta tr)))
    ∧ build_subdir (range_of mo _ (dirData tr)) (root tr) (Z.of_nat (length (filesMeta tr)))
      = build_subdir (map_to_list (dirData tr)) (root tr) (Z.of_nat (length (filesMeta tr)))
    ∧ ∀ ixs : gmap string Z, NoDup (map snd (map_to_list ixs)) →
        build_idx2name (range_of mo _ ixs) = build_idx2name (map_to_list ixs)).
  { intros mo. split; [|split].
    - symmetry. unfold build_indexes.
      apply (foldl_insert_perm (fun kv : string * Z => rootedName (fst kv) (root tr))); [done|].
      symmetry. apply range_of_perm.
    - symmetry. unfold build_subdir.
      apply (foldl_insert_perm (fun kv : string * dirInfo => rootedName (fst kv) (root tr)));
        [done|].
      symmetry. apply range_of_perm.
    - intros ixs Hnd. symmetry. unfold build_idx2name.
      apply (foldl_insert_perm (fun kv : string * Z => snd kv) (fun kv => fst kv)); [done|].
      symmetry. apply range_of_perm. }
  unfold writeMetadata.
  destruct (Hcanon mo1) as (-> & -> & ->); [|done].
  destruct (Hcanon mo2) as (-> & -> & ->); [|done].
  done.
Qed.

End OrderFacts.

(** * Children of built directories *)

Section ChildrenFacts.
Import Generator Invariant Scenario.

Lemma Forall_range_mono (l : list Z) (a b : Z) :
  a ≤ b → Forall (fun i => 0 ≤ i < a) l → Forall (fun i => 0 ≤ i < b) l.
Proof. intros Hab Hl. eapply Forall_impl; [exact Hl|]. intros i Hi. simpl in *. lia. Qed.

Lemma walkFunc_in_range (tr tr' : tree) (v : visit) :
  dirData_in_range tr →
  walkFunc tr (v_path v) (v_info v) None (v_data v, None) = (tr', None) →
  dirData_in_range tr'.
Proof.
  intros Hinv. unfold walkFunc. destruct (IsDir (v_info v)).
  - intros [= <-]. unfold dirData_in_range. simpl.
    set (dd := <[v_path v := {| files := []; subdirs := [] |}]> (dirData tr)).
    assert (Hdd : ∀ p d, dd !! p = Some d →
              Forall (fun i => 0 ≤ i < Z.of_nat (length (filesMeta tr))) (files d)
              ∧ Forall (fun j => 0 ≤ j < Z.of_nat (length (dirMeta tr ++ [v_info v]))) (subdirs d)).
    { intros p d. subst dd. rewrite lookup_insert. case_decide.
      - intros [= <-]. simpl. split; constructor.
      - intros Hd. destruct (Hinv _ _ Hd) as [Hf Hs]. split; [done|].
        eapply Forall_range_mono; [|exact Hs]. rewrite length_app. simpl. lia. }
    destruct (dd !! path.Dir (v_path v)) as [pi|] eqn:Hpi; [|exact Hdd].
    intros p d. rewrite lookup_insert. case_decide; [|apply Hdd].
    intros [= <-]. simpl. destruct (Hdd _ _ Hpi) as [Hf Hs]. split; [done|].
    apply Forall_app. split; [done|]. constructor; [|constructor].
    rewrite length_app. simpl. lia.
  - destruct (maxFileSize <? Size (v_info v)); [discriminate|].
    intros [= <-]. unfold dirData_in_range. simpl.
    assert (Hdd : ∀ p d, dirData tr !! p = Some d →
              Forall (fun i => 0 ≤ i < Z.of_nat (length (filesMeta tr ++ [v_info v]))) (files d)
              ∧ Forall (fun j => 0 ≤ j < Z.of_nat (length (dirMeta tr))) (subdirs d)).
    { intros p d Hd. destruct (Hinv _ _ Hd) as [Hf Hs]. split; [|done].
      eapply Forall_range_mono; [|exact Hf]. rewrite length_app. simpl. lia. }
    destruct (dirData tr !! path.Dir (v_path v)) as [pi|] eqn:Hpi; [|exact Hdd].
    intros p d. rewrite lookup_insert. case_decide; [|apply Hdd].
    intros [= <-]. simpl. destruct (Hdd _ _ Hpi) as [Hf Hs]. split; [|done].
    apply Forall_app. split; [done|]. constructor; [|constructor].
    rewrite length_app. simpl. lia.
Qed.

Lemma run_visits_in_range (vs : list visit) (tr tr' : tree) :
  dirData_in_range tr → run_visits vs tr = (tr', None) → dirData_in_range tr'.
Proof.
  revert tr. induction vs as [|v vs IH]; intros tr Hinv.
  - by intros [= <-].
  - rewrite run_visits_cons.
    destruct (walkFunc tr _ _ _ _) as [tr1 [e|]] eqn:Hstep; [discriminate|].
    apply IH. by eapply walkFunc_in_range.
Qed.

(** Whatever is found in a map built by successive insertions was inserted. *)
Lemma foldl_insert_lookup {K A B} `{Countable K} (f : B → K) (g : B → A) (l : list B)
    (k : K) (a : A) :
  foldl (fun (acc : gmap K A) x => <[f x := g x]> acc) ∅ l !! k = Some a →
  ∃ x, x ∈ l ∧ f x = k ∧ g x = a.
Proof.
  rewrite foldl_insert_list_to_map. intros Hk.
  apply elem_of_list_to_map_2 in Hk. rewrite elem_of_reverse in Hk.
  apply list_elem_of_fmap in Hk as (x & [= -> ->] & Hx). eauto.
Qed.

(** The children written for an entry: identities of files first, all below
    the number of files, then identities of directories, all from the number
    of files on and below the number of entries. *)
Lemma meta_entry_children (mo : MapOrder) (tr : tree) (i2n : gmap Z string) (i : nat)
    (fi : FileInfo) :
  dirData_in_range tr →
  let F := Z.of_nat (length (filesMeta tr)) in
  let D := Z.of_nat (length (dirMeta tr)) in
  ∃ fl sb,
    Template.children
      (meta_entry (build_subdir (range_of mo _ (dirData tr)) (root tr) F) i2n i fi) = fl ++ sb
    ∧ Forall (fun x => 0 ≤ x < F) fl
    ∧ Forall (fun x => F ≤ x < F + D) sb.
Proof.
  intros Hinv F D. unfold meta_entry.
  destruct (IsDir fi); simpl; [|by exists [], []].
  destruct (build_subdir _ _ _ !! _) as [ch|] eqn:Hch; simpl; [|by exists [], []].
  apply foldl_insert_lookup in Hch as ([p d] & Hin & _ & <-). simpl.
  rewrite (range_of_perm mo) in Hin. apply elem_of_map_to_list in Hin.
  destruct (Hinv _ _ Hin) as [Hf Hs].
  exists (files d), (map (fun v => v + F) (subdirs d)). split; [done|]. split; [done|].
  apply Forall_fmap. eapply Forall_impl; [exact Hs|]. intros j Hj. subst F D. simpl in *. lia.
Qed.

Lemma resolves_in_range (mt : list Template._itemMetadata) (ids : list Z) :
  Forall (fun x => 0 ≤ x < Z.of_nat (length mt)) ids → ∃ es, Client.resolves mt ids es.
Proof.
  unfold Client.resolves.
  induction 1 as [|x ids Hx _ [es Hes]]; [exists []; constructor|].
  destruct (index_in_range mt x Hx) as (m & Hm & _).
  exists (m :: es). by constructor.
Qed.

(** In a built index the children of every entry are identities of files
    (below [F], in the order recorded) followed by identities of
    directories (from [F] on), never interleaved, and all of them resolve in
    the entries slice, which is what listing needs. *)
Lemma built_children_layout (mo : MapOrder) (w : list chunk) (dir : string) (n : fsnode)
    (out sec : list chunk) (fs0 : Template._assetfs) (m : Template._itemMetadata) :
  writeSection mo w dir n = (out, None) →
  out = w ++ sec →
  compile_section sec = Some fs0 →
  m ∈ Template.meta fs0 →
  let F := Z.of_nat (length (filter is_file (walk_visits dir n))) in
  let D := Z.of_nat (length (filter is_dir (walk_visits dir n))) in
  (∃ fl sb, Template.children m = fl ++ sb
            ∧ Forall (fun x => 0 ≤ x < F) fl ∧ Forall (fun x => F ≤ x < F + D) sb)
  ∧ ∃ es, Client.resolves (Template.meta fs0) (Template.children m) es.
Proof.
  intros Hws Hout Hcomp Hm F D.
  destruct (built_index_shape _ _ _ _ _ _ _ Hws Hout Hcomp) as (tr & Hrun & Hshape).
  cbv zeta in Hshape. destruct Hshape as (_ & Hmeta & _).
  assert (Hinv : dirData_in_range tr).
  { eapply run_visits_in_range; [|exact Hrun]. intros p d. simpl. by rewrite lookup_empty. }
  apply run_visits_effect in Hrun as (_ & Hfm & Hdm & _ & _). simpl in Hfm, Hdm.
  assert (HF : Z.of_nat (length (filesMeta tr)) = F) by (by rewrite Hfm, length_map).
  assert (HD : Z.of_nat (length (dirMeta tr)) = D) by (by rewrite Hdm, length_map).
  rewrite Hmeta in Hm. apply elem_of_lookup_imap in Hm as (i & fi & -> & _).
  destruct (meta_entry_children mo tr
              (build_idx2name (range_of mo _
                 (build_indexes (range_of mo _ (names tr)) (root tr) (dirData tr)
                    (Z.of_nat (length (filesMeta tr)))))) i fi Hinv)
    as (fl & sb & Hch & Hfl & Hsb).
  cbv zeta in Hfl, Hsb. rewrite HF in Hfl. rewrite HF, HD in Hsb.
  split; [by exists fl, sb|].
  apply resolves_in_range. rewrite Hch, Hmeta, length_imap, length_app.
  apply Forall_app. split.
  - eapply Forall_impl; [exact Hfl|]. intros x Hx. simpl in *. lia.
  - eapply Forall_impl; [exact Hsb|]. intros x Hx. simpl in *. lia.
Qed.

End ChildrenFacts.

(** * Independence of the map enumeration order *)

Section DeterminismFacts.
Import Generator Invariant Scenario.

Lemma walkFunc_names_sound (tr tr' : tree) (seen : list visit) (v : visit) :
  names_sound tr seen →
  v_path v ∉ map v_path seen →
  walkFunc tr (v_path v) (v_info v) None (v_data v, None) = (tr', None) →
  names_sound tr' (seen ++ [v]).
Proof.
  intros [Hn Hd Hi] Hfresh. unfold walkFunc.
  assert (Hnd : dirData tr !! v_path v = None).
  { destruct (dirData tr !! v_path v) eqn:E; [|done]. destruct Hfresh. apply Hd. by rewrite E. }
  assert (Hnn : names tr !! v_path v = None).
  { destruct (names tr !! v_path v) eqn:E; [|done]. destruct Hfresh. by apply (Hn _ _ E). }
  destruct (IsDir (v_info v)).
  - intros [= <-].
    set (dd0 := <[v_path v := {| files := []; subdirs := [] |}]> (dirData tr)).
    set (dd := match dd0 !! path.Dir (v_path v) with
               | Some pi => <[path.Dir (v_path v) :=
                               {| files := files pi;
                                  subdirs := subdirs pi ++ [Z.of_nat (length (dirMeta tr))] |}]> dd0
               | None => dd0
               end).
    assert (Hdom : ∀ p, is_Some (dd !! p) ↔ p = v_path v ∨ is_Some (dirData tr !! p)).
    { intros p. subst dd. transitivity (is_Some (dd0 !! p)).
      - destruct (dd0 !! path.Dir (v_path v)) as [pi|] eqn:E; [|done].
        rewrite lookup_insert. case_decide; [|done]. subst p. rewrite E. split; eauto.
      - subst dd0. rewrite lookup_insert. case_decide.
        + subst p. split; [by left|eauto].
        + split; [by right|]. by intros [->|?]. }
    split; simpl; fold dd0; fold dd.
    + intros p i. rewrite lookup_insert. case_decide as Hp.
      * subst p. intros [= <-]. split.
        { rewrite map_app. apply elem_of_app. right. simpl. left. }
        destruct (dd !! v_path v) eqn:E.
        { rewrite length_app. simpl. lia. }
        exfalso. assert (is_Some (dd !! v_path v)) as [? ?] by (apply Hdom; by left). congruence.
      * intros Hp'. destruct (Hn _ _ Hp') as [Hin Hrange]. split.
        { rewrite map_app. apply elem_of_app. by left. }
        destruct (dd !! p) eqn:E; destruct (dirData tr !! p) eqn:E'.
        -- rewrite length_app. simpl. lia.
        -- exfalso. assert (is_Some (dd !! p)) as Hs by (by rewrite E).
           apply Hdom in Hs as [?|[? ?]]; congruence.
        -- exfalso. assert (is_Some (dd !! p)) as [? ?] by (apply Hdom; right; by rewrite E').
           congruence.
        -- done.
    + intros p Hp. apply Hdom in Hp as [->|Hp]; rewrite map_app; apply elem_of_app.
      * right. simpl. left.
      * left. by apply Hd.
    + intros p q i. rewrite !lookup_insert. rewrite !Hdom.
      case_decide as Hp; case_decide as Hq; try congruence.
      * subst. intros [= <-] Hq' Hiff.
        destruct (Hn _ _ Hq') as [_ Hrange].
        destruct (dirData tr !! q) eqn:E; [lia|].
        exfalso. destruct (proj1 Hiff) as [?|[? ?]]; [by left|congruence|congruence].
      * subst. intros Hp' [= <-] Hiff.
        destruct (Hn _ _ Hp') as [_ Hrange].
        destruct (dirData tr !! p) eqn:E; [lia|].
        exfalso. destruct (proj2 Hiff) as [?|[? ?]]; [by left|congruence|congruence].
      * intros Hp' Hq' Hiff. apply (Hi p q i); [done|done|].
        split; intros Hs.
        -- destruct (proj1 Hiff) as [?|?]; [by right|congruence|done].
        -- destruct (proj2 Hiff) as [?|?]; [by right|congruence|done].
  - destruct (maxFileSize <? Size (v_info v)); [discriminate|].
    intros [= <-].
    set (dd := match dirData tr !! path.Dir (v_path v) with
               | Some pi => <[path.Dir (v_path v) :=
                               {| files := files pi ++ [Z.of_nat (length (filesMeta tr))];
                                  subdirs := subdirs pi |}]> (dirData tr)
               | None => dirData tr
               end).
    assert (Hdom : ∀ p, is_Some (dd !! p) ↔ is_Some (dirData tr !! p)).
    { intros p. subst dd.
      destruct (dirData tr !! path.Dir (v_path v)) as [pi|] eqn:E; [|done].
      rewrite lookup_insert. case_decide; [|done]. subst p. rewrite E. split; eauto. }
    assert (Hnone : ∀ p, dd !! p = None ↔ dirData tr !! p = None).
    { intros p. rewrite !eq_None_not_Some. by rewrite Hdom. }
    split; simpl; fold dd.
    + intros p i. rewrite lookup_insert. case_decide as Hp.
      * subst p. intros [= <-]. split.
        { rewrite map_app. apply elem_of_app. right. simpl. left. }
        rewrite (proj2 (Hnone _) Hnd). rewrite length_app. simpl. lia.
      * intros Hp'. destruct (Hn _ _ Hp') as [Hin Hrange]. split.
        { rewrite map_app. apply elem_of_app. by left. }
        destruct (dd !! p) eqn:E; destruct (dirData tr !! p) eqn:E'.
        -- done.
        -- apply Hnone in E'. congruence.
        -- apply Hnone in E. congruence.
        -- rewrite length_app. simpl. lia.
    + intros p Hp. apply Hdom in Hp. rewrite map_app. apply elem_of_app. left. by apply Hd.
    + intros p q i. rewrite !lookup_insert. rewrite !Hdom.
      case_decide as Hp; case_decide as Hq; try congruence.
      * subst. intros [= <-] Hq' Hiff.
        destruct (Hn _ _ Hq') as [_ Hrange].
        destruct (dirData tr !! q) eqn:E; [|lia].
        exfalso. destruct (proj2 Hiff) as [? ?]; [eauto|congruence].
      * subst. intros Hp' [= <-] Hiff.
        destruct (Hn _ _ Hp') as [_ Hrange].
        destruct (dirData tr !! p) eqn:E; [|lia].
        exfalso. destruct (proj1 Hiff) as [? ?]; [eauto|congruence].
      * intros Hp' Hq' Hiff. by apply (Hi p q i).
Qed.

Lemma run_visits_names_sound (vs seen : list visit) (tr tr' : tree) :
  names_sound tr seen →
  NoDup (map v_path (seen ++ vs)) →
  run_visits vs tr = (tr', None) →
  names_sound tr' (seen ++ vs).
Proof.
  revert seen tr. induction vs as [|v vs IH]; intros seen tr Hs Hnd.
  - intros [= <-]. by rewrite app_nil_r.
  - rewrite run_visits_cons.
    destruct (walkFunc tr _ _ _ _) as [tr1 [e|]] eqn:Hstep; [discriminate|].
    intros Hrun. replace (seen ++ v :: vs) with ((seen ++ [v]) ++ vs) in * by by rewrite <- app_assoc.
    apply (IH (seen ++ [v]) tr1); [|done|done].
    eapply walkFunc_names_sound; [done| |done].
    rewrite !map_app in Hnd. apply NoDup_app in Hnd as [Hnd _].
    apply NoDup_app in Hnd as (_ & Hdisj & _).
    intros Hin. apply (Hdisj _ Hin). simpl. left.
Qed.

Lemma NoDup_fmap_inj_on {A B} (f : A → B) (l : list A) (x y : A) :
  NoDup (f <$> l) → x ∈ l → y ∈ l → f x = f y → x = y.
Proof.
  induction l as [|a l IH]; [by intros _ ?%elem_of_nil|].
  rewrite fmap_cons, NoDup_cons. intros [Ha Hl] Hx Hy Heq.
  apply elem_of_cons in Hx as [->|Hx]; apply elem_of_cons in Hy as [->|Hy]; [done| | |by apply IH].
  - destruct Ha. rewrite Heq. by apply list_elem_of_fmap_2.
  - destruct Ha. rewrite <- Heq. by apply list_elem_of_fmap_2.
Qed.

(** When the rooted names of the walked paths are pairwise distinct, what
    [writeSection] writes does not depend on the order in which the Go
    run enumerates the maps. *)
Lemma writeSection_order_irrelevant (mo1 mo2 : MapOrder) (w : list chunk) (dir : string)
    (n : fsnode) :
  NoDup (map (fun v => rootedName (v_path v) dir) (walk_visits dir n)) →
  writeSection mo1 w dir n = writeSection mo2 w dir n.
Proof.
  intros Hnd. unfold writeSection, Walk. cbn [root].
  destruct (run_visits _ _) as [tr [e|]] eqn:Hrun; [done|].
  assert (Hnd' : NoDup ((fun p => rootedName p dir) <$> (v_path <$> walk_visits dir n))).
  { by rewrite <- list_fmap_compose. }
  assert (Hsound : names_sound tr (walk_visits dir n)).
  { eapply (run_visits_names_sound (walk_visits dir n) []); [|by eapply NoDup_fmap_1|exact Hrun].
    split; simpl; intros p; rewrite ?lookup_empty; done. }
  destruct Hsound as [Hn Hd Hi].
  apply run_visits_effect in Hrun as (Hroot & _). simpl in Hroot.
  rewrite (writeMetadata_order_irrelevant mo1 mo2 tr); [done| | |]; rewrite ?Hroot.
  - change (NoDup (((fun p => rootedName p dir) ∘ fst) <$> map_to_list (names tr))).
    rewrite list_fmap_compose.
    apply NoDup_fmap_2_strong; [|apply NoDup_fst_map_to_list].
    intros p q Hp Hq. apply (NoDup_fmap_inj_on _ _ _ _ Hnd').
    + apply list_elem_of_fmap in Hp as ([p' i] & -> & Hp). apply elem_of_map_to_list in Hp.
      by apply (Hn _ _ Hp).
    + apply list_elem_of_fmap in Hq as ([q' i] & -> & Hq). apply elem_of_map_to_list in Hq.
      by apply (Hn _ _ Hq).
  - change (NoDup (((fun p => rootedName p dir) ∘ fst) <$> map_to_list (dirData tr))).
    rewrite list_fmap_compose.
    apply NoDup_fmap_2_strong; [|apply NoDup_fst_map_to_list].
    intros p q Hp Hq. apply (NoDup_fmap_inj_on _ _ _ _ Hnd').
    + apply list_elem_of_fmap in Hp as ([p' d] & -> & Hp). apply elem_of_map_to_list in Hp.
      apply Hd. by exists d.
    + apply list_elem_of_fmap in Hq as ([q' d] & -> & Hq). apply elem_of_map_to_list in Hq.
      apply Hd. by exists d.
  - apply NoDup_fmap_2_strong; [|apply NoDup_map_to_list].
    intros [k1 v1] [k2 v2] H1 H2. simpl. intros <-.
    apply elem_of_map_to_list in H1, H2.
    apply foldl_insert_lookup in H1 as ([p1 i1] & Hin1 & <- & Hv1).
    apply foldl_insert_lookup in H2 as ([p2 i2] & Hin2 & <- & Hv2).
    apply elem_of_map_to_list in Hin1, Hin2. simpl in *.
    destruct (Hn _ _ Hin1) as [_ Hr1]. destruct (Hn _ _ Hin2) as [_ Hr2].
    assert (p1 = p2); [|by subst].
    destruct (dirData tr !! p1) eqn:E1; destruct (dirData tr !! p2) eqn:E2; try lia.
    + assert (Hii : i2 = i1) by lia. rewrite Hii in Hin2.
      eapply Hi; [exact Hin1|exact Hin2|]. rewrite E1, E2. split; eauto.
    + assert (Hii : i2 = i1) by lia. rewrite Hii in Hin2.
      eapply Hi; [exact Hin1|exact Hin2|]. rewrite E1, E2. split; intros [? ?]; done.
Qed.

End DeterminismFacts.

(** * The worked scenarios *)

Section ScenarioFacts.
Import Generator Scenario.
Context {RT : Runtime}.

(** C4, in the form that holds.  Built from the root [static] with the files [red]
    ("abc") and [green] ("cde"), the index has [green] as entry 0 and [red]
    as entry 1 (the walk is in lexical order), the root as entry 2 with
    children [0, 1], and maps ["/green"] to 0, ["/red"] to 1 and ["/"] to
    2, whatever the enumeration order of the maps; opening ["/red"] and
    reading gives exactly the three bytes "abc" and then end of stream;
    opening ["/"] and listing without bound gives the entry [green]
    followed by the entry [red]. *)
Theorem C4_two_file_scenario (mo : MapOrder) :
  writeSection mo [] "static" static_tree = (static_section, None)
  ∧ writeSection mo [] "static" static_tree_rev = (static_section, None)
  ∧ compile_section static_section = Some static_fs
  ∧ Template.names static_fs !! "/green"%string = Some 0
  ∧ Template.names static_fs !! "/red"%string = Some 1
  ∧ Template.names static_fs !! "/"%string = Some 2
  ∧ base.size (Template.names static_fs) = 3%nat
  ∧ (∃ af af' af'',
       Template.Open (Some static_fs) "/red" = Ret (Some af, None)
       ∧ Template.Read af [x00; x00; x00; x00] = Ret (af', (abc ++ [x00], 3, None))
       ∧ Template.Read af' [x00; x00; x00; x00]
         = Ret (af'', ([x00; x00; x00; x00], 0, Some EOF)))
  ∧ (∃ af af',
       Template.Open (Some static_fs) "/" = Ret (Some af, None)
       ∧ Template.Readdir af 0
         = Ret (af', ([file_entry "green" 3 420; file_entry "red" 3 420], None))).
Proof.
  split; [|split].
  - rewrite (writeSection_order_irrelevant mo canonical_order)
      by (apply (bool_decide_unpack _); vm_compute; exact I).
    by vm_compute.
  - rewrite (writeSection_order_irrelevant mo canonical_order)
      by (apply (bool_decide_unpack _); vm_compute; exact I).
    by vm_compute.
  - split; [by vm_compute|]. repeat (split; [by vm_compute|]).
    split.
    + do 3 eexists. split; [vm_compute; reflexivity|]. split; vm_compute; reflexivity.
    + do 2 eexists. split; vm_compute; reflexivity.
Qed.

(** C4 with the identities as the specification words them does not hold,
    whatever the memory of the run: the build does not map ["/red"] to 0. *)
Lemma C4_counterexample :
  ¬ ∃ rt : Runtime, scenario_as_specified (RT := rt) canonical_order.
Proof.
  intros (rt & out & fs0 & af_red & af_red' & af_root & af_root' & buf & Hws & Hcs & Hred & _).
  vm_compute in Hws. injection Hws as <-.
  vm_compute in Hcs. injection Hcs as <-.
  vm_compute in Hred. discriminate.
Qed.

(** C8 at the failing input: for the current directory holding [.a] and
    [a], the names section written depends on the order in which the Go
    run enumerates [tr.names]. *)
Theorem C8_output_depends_on_map_order :
  section_names (fst (writeSection canonical_order [] "." dot_tree))
    = [("a"%string, 0); (""%string, 1)]
  ∧ section_names (fst (writeSection reversed_order [] "." dot_tree))
    = [(""%string, 0); ("a"%string, 1)]
  ∧ snd (writeSection canonical_order [] "." dot_tree) = None
  ∧ snd (writeSection reversed_order [] "." dot_tree) = None
  ∧ writeSection canonical_order [] "." dot_tree ≠ writeSection reversed_order [] "." dot_tree.
Proof.
  repeat (split; [by vm_compute|]). vm_compute. discriminate.
Qed.

(** C9 at the failing input: for the current directory holding the file
    [f] and the directory [d], the children written for the root are
    [0, 1, 2], where entry 1 is the root itself, placed between the file
    and the subdirectory. *)
Theorem C9_root_lists_itself (mo : MapOrder) :
  writeSection mo [] "." dot_tree_fd = (dot_fd_section, None)
  ∧ section_meta dot_fd_section
    = [file_entry "f" 0 420; dir_entry "." 2147484141 [0; 1; 2]; dir_entry "d" 2147484141 []]
  ∧ path.Dir "." = "."%string.
Proof.
  split; [|split; by vm_compute].
  rewrite (writeSection_order_irrelevant mo canonical_order)
    by (apply (bool_decide_unpack _); vm_compute; exact I).
  by vm_compute.
Qed.

End ScenarioFacts.

(** * The error-remembering writer *)

Section ErrWriterFacts.
Import ErrWriter.
Context {W : Type} (write : W → list byte → W * (Z * option error)).

Lemma write_all_failed (ew : errWriter W) (ps : list (list byte)) (e : error) :
  err W ew = Some e → write_all W write ew ps = ew.
Proof.
  intros He. induction ps as [|p ps IH]; [done|].
  simpl. unfold Write at 1. by rewrite He.
Qed.

(** X1. Once a write has failed, the writer is stuck on that first error:
    every later [Write] returns 0 and the same error, leaves the writer as
    it is and so never reaches the underlying writer, and [Err] keeps
    returning the first error whatever is written afterwards. *)
Theorem errWriter_sticky (ew : errWriter W) (e : error) :
  Err W ew = Some e →
  (∀ p, Write W write ew p = (ew, (0, Some e))) ∧
  (∀ ps, write_all W write ew ps = ew) ∧
  (∀ ps, Err W (write_all W write ew ps) = Some e).
Proof.
  unfold Err. intros He. split; [|split].
  - intros p. unfold Write. by rewrite He.
  - intros ps. by apply (write_all_failed _ _ e).
  - intros ps. by rewrite (write_all_failed _ _ e).
Qed.

(** X2. Writing through a fresh [ErrWriter] hands the writes to the
    underlying writer in order up to and including the first one that
    fails, and none after it; [Err] is then that first error, and nil when
    no write failed. *)
Theorem errWriter_forwards_until_error (w : W) (ps : list (list byte)) :
  Writer W (write_all W write (ErrWriter W w) ps) = fst (write_until_error W write w ps)
  ∧ Err W (write_all W write (ErrWriter W w) ps) = snd (write_until_error W write w ps).
Proof.
  unfold ErrWriter, Err. revert w. induction ps as [|p ps IH]; intros w; [done|].
  cbn [write_all write_until_error]. unfold Write at 1 2. cbn [err Writer].
  destruct (write w p) as [w' [n [e|]]] eqn:Hw; cbn [fst snd].
  - by rewrite (write_all_failed _ _ e).
  - apply IH.
Qed.

End ErrWriterFacts.

(** * Reading and seeking on file handles *)

Section FileFacts.
Import Template Client FileClient.

Lemma set_rd_same (af : _assetFile) (r : bytes_Reader) : rd af = Some r → set_rd af r = af.
Proof. destruct af. simpl. by intros ->. Qed.

Lemma set_rd_set_rd (af : _assetFile) (r r' : bytes_Reader) :
  set_rd (set_rd af r) r' = set_rd af r'.
Proof. done. Qed.

Lemma wrap64_in_range (z : Z) : - 2 ^ 63 ≤ z < 2 ^ 63 → wrap64 z = z.
Proof. intros Hz. unfold wrap64. rewrite Z.mod_small; lia. Qed.

Lemma Read_file (af : _assetFile) (r : bytes_Reader) (p : list byte) :
  isDir (fi af) = false → rd af = Some r →
  Read af p = (x ←! Reader_Read r p; Ret (set_rd af (fst x), snd x)).
Proof. intros Hd Hr. unfold Read. by rewrite Hd, Hr. Qed.

Lemma Seek_file (af : _assetFile) (r : bytes_Reader) (offset whence : Z) :
  isDir (fi af) = false → rd af = Some r →
  Seek af offset whence
  = Ret (set_rd af (fst (Reader_Seek r offset whence)), snd (Reader_Seek r offset whence)).
Proof.
  intros Hd Hr. unfold Seek. rewrite Hd, Hr. by destruct (Reader_Seek r offset whence).
Qed.

Lemma Reader_Read_at_end (r : bytes_Reader) (b : list byte) :
  Z.of_nat (length (s r)) ≤ i r → Reader_Read r b = Ret (r, (b, 0, Some EOF)).
Proof. intros H. unfold Reader_Read. by rewrite (proj2 (Z.leb_le _ _) H). Qed.

Lemma Reader_Read_before_end (r : bytes_Reader) (b : list byte) :
  0 ≤ i r < Z.of_nat (length (s r)) →
  let src := take (length b) (drop (Z.to_nat (i r)) (s r)) in
  Reader_Read r b
  = Ret ({| s := s r; i := i r + Z.of_nat (length src) |},
         (src ++ drop (length src) b, Z.of_nat (length src), None)).
Proof.
  intros H src. unfold Reader_Read, slice_from.
  destruct (Z.leb_spec (Z.of_nat (length (s r))) (i r)); [lia|].
  destruct (Z.ltb_spec (i r) 0); [lia|].
  destruct (Z.ltb_spec (Z.of_nat (length (s r))) (i r)); [lia|]. done.
Qed.

(** Reading to the end from any position inside the data. *)
Lemma read_to_end_from (fuel blen : nat) (af : _assetFile) (d : list byte) (pos : Z) :
  isDir (fi af) = false → rd af = Some {| s := d; i := pos |} →
  0 ≤ pos ≤ Z.of_nat (length d) → (0 < blen)%nat →
  (Z.to_nat (Z.of_nat (length d) - pos) < fuel)%nat →
  read_to_end fuel af blen
  = Ret (Some (drop (Z.to_nat pos) d, set_rd af {| s := d; i := Z.of_nat (length d) |}, EOF)).
Proof.
  intros Hd Hr Hpos Hb. revert af pos Hd Hr Hpos.
  induction fuel as [|fuel IH]; intros af pos Hd Hr Hpos Hfuel; [lia|].
  cbn [read_to_end]. rewrite (Read_file af _ _ Hd Hr).
  destruct (Z.eq_dec pos (Z.of_nat (length d))) as [->|Hne].
  - rewrite Reader_Read_at_end by (simpl; lia). simpl.
    rewrite drop_ge by lia. done.
  - rewrite Reader_Read_before_end by (simpl; lia). cbn [go_bind fst snd s i].
    set (src := take (length (replicate blen x00)) (drop (Z.to_nat pos) d)).
    assert (Hsrc : (0 < length src ∧ length src ≤ length d - Z.to_nat pos)%nat).
    { subst src. rewrite length_take, length_replicate, length_drop. lia. }
    rewrite Nat2Z.id. rewrite take_app_length.
    rewrite (IH (set_rd af {| s := d; i := pos + Z.of_nat (length src) |})
               (pos + Z.of_nat (length src))); [|done|done|lia|lia].
    cbn [go_bind]. rewrite set_rd_set_rd. do 3 f_equal.
    replace (Z.to_nat (pos + Z.of_nat (length src))) with (Z.to_nat pos + length src)%nat by lia.
    rewrite <- drop_drop.
    assert (Hlen : length src = (blen `min` length (drop (Z.to_nat pos) d))%nat).
    { subst src. by rewrite length_take, length_replicate. }
    subst src. rewrite Hlen.
    destruct (Nat.min_spec blen (length (drop (Z.to_nat pos) d))) as [[? ->]|[? ->]].
    + by rewrite length_replicate, take_drop.
    + rewrite length_replicate, (take_ge _ blen) by lia. by rewrite drop_all, app_nil_r.
Qed.

(** X3. Reading a freshly opened file to the end yields the bytes stored
    for it: on a handle [Open] returned for a non-directory entry, calling
    [Read] with a buffer of any positive size until it fails delivers
    exactly [data[i]] (whatever the buffer size), ends with [io.EOF], and
    every further [Read] returns 0 and [io.EOF] again. *)
Theorem file_read_to_end (recv : option _assetfs) (nm : string) (af : _assetFile) :
  Open recv nm = Ret (Some af, None) →
  isDir (fi af) = false →
  ∃ fs0 ix d,
    recv = Some fs0
    ∧ names fs0 !! path.Clean ("/" +:+ nm) = Some ix
    ∧ index (data fs0) ix = Ret d
    ∧ ∀ (blen fuel : nat), (0 < blen)%nat → (length d < fuel)%nat →
        ∃ af_end,
          read_to_end fuel af blen = Ret (Some (d, af_end, EOF))
          ∧ ∀ p, Read af_end p = Ret (af_end, (p, 0, Some EOF)).
Proof.
  intros Hopen Hd.
  destruct (Open_handle _ _ _ _ Hopen) as (_ & _ & fs0 & ix & -> & _ & Hix & _ & Hrd).
  rewrite Hd in Hrd. destruct Hrd as (d & Hdata & Hrd).
  exists fs0, ix, d. repeat split; try done.
  intros blen fuel Hb Hfuel.
  exists (set_rd af {| s := d; i := Z.of_nat (length d) |}). split.
  - rewrite (read_to_end_from fuel blen af d 0); [done|done|done|lia|done|lia].
  - intros p. rewrite (Read_file _ {| s := d; i := Z.of_nat (length d) |}) by done.
    rewrite Reader_Read_at_end by (simpl; lia). done.
Qed.

(** X4. [Seek] places the reader where asked and reading resumes there: on
    a file handle over the data [d], a seek from the start to [offset >= 0]
    (also beyond the end), from the current position or from the end
    (when the target is a non-negative [int64]) returns the new absolute
    position without error and changes nothing but the position; reading
    to the end after a seek from the start to [offset] delivers [d] without
    its first [offset] bytes. *)
Theorem file_seek_then_read (af : _assetFile) (d : list byte) (pos : Z) :
  isDir (fi af) = false → rd af = Some {| s := d; i := pos |} →
  (∀ offset, 0 ≤ offset →
     Seek af offset 0 = Ret (set_rd af {| s := d; i := offset |}, (offset, None))) ∧
  (∀ offset, 0 ≤ pos + offset < 2 ^ 63 →
     Seek af offset 1
     = Ret (set_rd af {| s := d; i := pos + offset |}, (pos + offset, None))) ∧
  (∀ offset, 0 ≤ Z.of_nat (length d) + offset < 2 ^ 63 →
     Seek af offset 2
     = Ret (set_rd af {| s := d; i := Z.of_nat (length d) + offset |},
            (Z.of_nat (length d) + offset, None))) ∧
  (∀ offset (blen fuel : nat), 0 ≤ offset ≤ Z.of_nat (length d) →
     (0 < blen)%nat → (length d < fuel)%nat →
     (x ←! Seek af offset 0; read_to_end fuel (fst x) blen)
     = Ret (Some (drop (Z.to_nat offset) d,
                  set_rd af {| s := d; i := Z.of_nat (length d) |}, EOF))).
Proof.
  intros Hd Hr.
  assert (H0 : ∀ offset, 0 ≤ offset →
     Seek af offset 0 = Ret (set_rd af {| s := d; i := offset |}, (offset, None))).
  { intros offset Ho. rewrite (Seek_file af _ _ _ Hd Hr). unfold Reader_Seek. simpl.
    destruct (Z.ltb_spec offset 0); [lia|]. done. }
  split; [exact H0|]. split; [|split].
  - intros offset Ho. rewrite (Seek_file af _ _ _ Hd Hr). unfold Reader_Seek. simpl.
    rewrite wrap64_in_range by lia.
    destruct (Z.ltb_spec (pos + offset) 0); [lia|]. done.
  - intros offset Ho. rewrite (Seek_file af _ _ _ Hd Hr). unfold Reader_Seek. simpl.
    rewrite wrap64_in_range by lia.
    destruct (Z.ltb_spec (Z.of_nat (length d) + offset) 0); [lia|]. done.
  - intros offset blen fuel Ho Hb Hfuel. rewrite H0 by lia. cbn [go_bind fst].
    rewrite (read_to_end_from fuel blen _ d offset); [done|done|done|lia|done|lia].
Qed.

(** X5. A [Seek] that fails changes nothing: with a whence other than 0, 1
    or 2 the call returns the invalid-whence error, with a target position
    below zero the negative-position error, and in both cases position 0 is
    reported and the handle, hence what later reads deliver, is left as it
    was. *)
Theorem file_seek_failure_keeps_handle (af : _assetFile) (r : bytes_Reader) :
  isDir (fi af) = false → rd af = Some r →
  (∀ offset whence, whence ≠ 0 → whence ≠ 1 → whence ≠ 2 →
     Seek af offset whence = Ret (af, (0, Some ErrSeekWhence))) ∧
  (∀ offset, offset < 0 → Seek af offset 0 = Ret (af, (0, Some ErrSeekNegative))) ∧
  (∀ offset, - 2 ^ 63 ≤ i r + offset < 0 →
     Seek af offset 1 = Ret (af, (0, Some ErrSeekNegative))) ∧
  (∀ offset, - 2 ^ 63 ≤ Z.of_nat (length (s r)) + offset < 0 →
     Seek af offset 2 = Ret (af, (0, Some ErrSeekNegative))).
Proof.
  intros Hd Hr. repeat split.
  - intros offset whence H0 H1 H2. rewrite (Seek_file af _ _ _ Hd Hr). unfold Reader_Seek.
    destruct (Z.eqb_spec whence 0); [done|]. destruct (Z.eqb_spec whence 1); [done|].
    destruct (Z.eqb_spec whence 2); [done|]. simpl. by rewrite set_rd_same.
  - intros offset Ho. rewrite (Seek_file af _ _ _ Hd Hr). unfold Reader_Seek. simpl.
    destruct (Z.ltb_spec offset 0); [|lia]. simpl. by rewrite set_rd_same.
  - intros offset Ho. rewrite (Seek_file af _ _ _ Hd Hr). unfold Reader_Seek. simpl.
    rewrite wrap64_in_range by lia.
    destruct (Z.ltb_spec (i r + offset) 0); [|lia]. simpl. by rewrite set_rd_same.
  - intros offset Ho. rewrite (Seek_file af _ _ _ Hd Hr). unfold Reader_Seek. simpl.
    rewrite wrap64_in_range by lia.
    destruct (Z.ltb_spec (Z.of_nat (length (s r)) + offset) 0); [|lia]. simpl.
    by rewrite set_rd_same.
Qed.

End FileFacts.

(** * Sequences of calls on a handle *)

Section CallFacts.
Import Template Client FileClient.
Context {RT : Runtime}.

(** What one call can change on a handle: never the entry nor the index;
    on a directory handle only the cursor, on a file handle only the
    position of the reader. *)
Lemma perform_frame (c : call) (af af' : _assetFile) (r : reply) :
  perform c af = Ret (af', r) →
  fi af' = fi af ∧ fs af' = fs af
  ∧ (isDir (fi af) = true → rd af' = rd af)
  ∧ (isDir (fi af) = false → read af' = read af ∧ (s <$> rd af') = (s <$> rd af))
  ∧ (∀ m e, r = ReplyStat m e → m = fi af ∧ e = None).
Proof.
  destruct c; simpl.
  - unfold Read. destruct (isDir (fi af)) eqn:Hd.
    + intros [= <- <-]. by repeat split.
    + destruct (rd af) as [rdr|] eqn:Hr; [|discriminate].
      unfold Reader_Read.
      destruct (_ <=? _); simpl.
      * intros [= <- <-]. by repeat split.
      * destruct (slice_from _ _); simpl; [|discriminate].
        intros [= <- <-]. by repeat split.
  - unfold Seek. destruct (isDir (fi af)) eqn:Hd.
    + intros [= <- <-]. by repeat split.
    + destruct (rd af) as [rdr|] eqn:Hr; [|discriminate].
      destruct (Reader_Seek rdr offset whence) as [r' res] eqn:Hs.
      intros [= <- <-]. repeat split; try done. simpl.
      unfold Reader_Seek in Hs.
      destruct (if whence =? 0 then _ else _) as [a|]; [|by injection Hs as <- _].
      destruct (a <? 0); by injection Hs as <- _.
  - intros [= <- <-]. do 4 (split; [done|]). by intros m e [= <- <-].
  - unfold Readdir. destruct (isDir (fi af)) eqn:Hd; simpl.
    + destruct (count <=? 0); destruct (_ <=? read af); simpl;
        try (intros [= <- <-]; by repeat split).
      * destruct (slice_from _ _) as [rest|]; simpl; [|discriminate].
        destruct (readdir_all _ _ _); simpl; [|discriminate].
        intros [= <- <-]. by repeat split.
      * unfold make_cap. destruct (_ || _); simpl; [discriminate|].
        destruct (slice_from _ _) as [rest|]; simpl; [|discriminate].
        destruct (readdir_upto _ _ _ _ _); simpl; [|discriminate].
        intros [= <- <-]. by repeat split.
    + intros [= <- <-]. by repeat split.
  - intros [= <- <-]. by repeat split.
Qed.

(** X6. No call changes what a handle stands for: after any sequence of
    [Read], [Seek], [Stat], [Readdir] and [Close] calls that returns, the
    handle still carries the entry and the index it was opened with, and
    every [Stat] in the sequence returned that same entry with a nil
    error. *)
Theorem calls_keep_entry (cs : list call) (af af' : _assetFile) (rs : list reply) :
  run cs af = Ret (af', rs) →
  fi af' = fi af ∧ fs af' = fs af
  ∧ ∀ m e, ReplyStat m e ∈ rs → m = fi af ∧ e = None.
Proof.
  revert af rs. induction cs as [|c cs IH]; intros af rs.
  - intros [= <- <-]. do 2 (split; [done|]). by intros m e ?%elem_of_nil.
  - simpl. destruct (perform c af) as [[af1 r1]|] eqn:Hp; simpl; [|discriminate].
    destruct (run cs af1) as [[af2 rs2]|] eqn:Hrun; simpl; [|discriminate].
    intros [= <- <-].
    destruct (perform_frame _ _ _ _ Hp) as (Hfi & Hfs & _ & _ & Hstat).
    destruct (IH _ _ Hrun) as (Hfi' & Hfs' & Hstat').
    split; [congruence|]. split; [congruence|].
    intros m e [Heq|Hin]%elem_of_cons.
    + by apply Hstat.
    + rewrite <- Hfi. by apply Hstat'.
Qed.

Lemma index_elem_of {A} (l : list A) (ix : Z) (x : A) : index l ix = Ret x → x ∈ l.
Proof.
  unfold index. destruct (_ || _); [discriminate|].
  destruct (l !! Z.to_nat ix) eqn:E; [|discriminate].
  intros [= <-]. by eapply list_elem_of_lookup_2.
Qed.

Lemma Open_handle_ok (fs0 : _assetfs) (nm : string) (af : _assetFile) :
  index_ok fs0 → Open (Some fs0) nm = Ret (Some af, None) → handle_ok af.
Proof.
  intros Hok Hopen.
  destruct (Open_handle _ _ _ _ Hopen) as (_ & Hread & fs1 & ix & [= <-] & Hfs & _ & Hfi & Hrd).
  unfold handle_ok. destruct (isDir (fi af)).
  - split; [lia|]. rewrite Hfs. apply Hok. by eapply index_elem_of.
  - destruct Hrd as (d & _ & ->). by eexists.
Qed.

(** A call the run has room for, on a sound handle, returns, and the handle
    stays sound. *)
Lemma perform_ok (c : call) (af : _assetFile) :
  handle_ok af → affordable c → ∃ af' r, perform c af = Ret (af', r) ∧ handle_ok af'.
Proof.
  intros Hok Hroom.
  assert (Hsame : ∀ r : reply, ∃ af' r', Ret (af, r) = Ret (af', r') ∧ handle_ok af')
    by eauto.
  pose proof Hok as Hok'. unfold handle_ok in Hok'.
  destruct (isDir (fi af)) eqn:Hd.
  - destruct Hok' as (Hread & es & Hres).
    assert (Hset : ∀ n, 0 ≤ n → handle_ok (set_read af n)).
    { intros n Hn. unfold handle_ok. simpl. rewrite Hd. eauto. }
    destruct c; simpl.
    + unfold Read. rewrite Hd. cbn [go_bind fst snd]. apply Hsame.
    + unfold Seek. rewrite Hd. cbn [go_bind fst snd]. apply Hsame.
    + apply Hsame.
    + pose proof (resolves_length _ _ _ Hres) as Hlen.
      destruct (Z.le_gt_cases (Z.of_nat (length (children (fi af)))) (read af)) as [Hge|Hlt].
      * rewrite Readdir_exhausted by done. cbn [go_bind fst snd]. apply Hsame.
      * destruct (Z.le_gt_cases count 0) as [Hc|Hc].
        -- rewrite (Readdir_unbounded af es count) by (done || lia).
           do 2 eexists. split; [reflexivity|]. apply Hset. lia.
        -- cbn [affordable] in Hroom. specialize (Hroom ltac:(lia)).
           rewrite (Readdir_bounded af es count) by (done || lia).
           do 2 eexists. split; [reflexivity|]. apply Hset. lia.
    + apply Hsame.
  - destruct Hok' as (r & Hr & Hpos).
    assert (Hset : ∀ r', 0 ≤ i r' → handle_ok (set_rd af r')).
    { intros r' Hr'. unfold handle_ok. simpl. rewrite Hd. eauto. }
    destruct c; simpl.
    + rewrite (Read_file af r p Hd Hr).
      destruct (Z.le_gt_cases (Z.of_nat (length (s r))) (i r)) as [Hge|Hlt].
      * rewrite Reader_Read_at_end by done.
        do 2 eexists. split; [reflexivity|]. by apply Hset.
      * rewrite Reader_Read_before_end by lia.
        do 2 eexists. split; [reflexivity|]. apply Hset. simpl. lia.
    + rewrite (Seek_file af r _ _ Hd Hr).
      do 2 eexists. split; [reflexivity|]. apply Hset.
      unfold Reader_Seek. destruct (if whence =? 0 then _ else _) as [a|]; [|done].
      destruct (Z.ltb_spec a 0); [done|]. simpl. lia.
    + apply Hsame.
    + unfold Readdir. rewrite Hd. cbn [go_bind fst snd negb]. apply Hsame.
    + apply Hsame.
Qed.

Lemma run_ok (cs : list call) (af : _assetFile) :
  handle_ok af → Forall affordable cs →
  ∃ af' rs, run cs af = Ret (af', rs) ∧ length rs = length cs.
Proof.
  intros Haf Hroom. revert af Haf.
  induction Hroom as [|c cs Hc _ IH]; intros af Haf.
  - by exists af, [].
  - destruct (perform_ok c af Haf Hc) as (af1 & r1 & Hp & Hok1).
    destruct (IH af1 Hok1) as (af2 & rs & Hrun & Hlen).
    exists af2, (r1 :: rs). simpl. rewrite Hp. simpl. rewrite Hrun. simpl.
    split; [done|]. by rewrite Hlen.
Qed.

(** X7. No call the run has room for panics on an opened handle: on an
    index whose directory entries have children that resolve in the
    entries slice, any sequence of [Read], [Seek], [Stat], [Readdir] and
    [Close] calls on a handle returned by [Open], in which no [Readdir]
    asks for more entries than the run can allocate a slice for, returns
    normally, with one reply per call: no index or slice goes out of range
    and the reader is never nil when used.  The bound is needed: a bounded
    [Readdir] beyond it on a directory with entries left does not
    return. *)
Theorem opened_handle_never_panics (fs0 : _assetfs) (nm : string) (af : _assetFile)
    (cs : list call) :
  index_ok fs0 →
  Open (Some fs0) nm = Ret (Some af, None) →
  (Forall affordable cs → ∃ af' rs, run cs af = Ret (af', rs) ∧ length rs = length cs)
  ∧ (∀ count, 0 < count → max_cap < count → isDir (fi af) = true →
       children (fi af) ≠ [] →
       run (CallReaddir count :: cs) af = Panic "makeslice: cap out of range").
Proof.
  intros Hok Hopen. split.
  - intros Hroom. apply run_ok; [|done]. by eapply Open_handle_ok.
  - intros count Hc Hbig Hd Hne. cbn [run perform].
    rewrite Readdir_no_room; try done.
    destruct (Open_handle _ _ _ _ Hopen) as (_ & -> & _).
    destruct (children (fi af)); [done|]. cbn [length]. lia.
Qed.

(** One [Readdir] call on a sound directory handle, whatever the count:
    the entries returned are those between the old and the new cursor. *)
Lemma Readdir_advance (af : _assetFile) (es : list _itemMetadata) (count : Z) :
  isDir (fi af) = true →
  resolves (meta (fs af)) (children (fi af)) es →
  (0 < count → count ≤ max_cap) →
  0 ≤ read af ≤ Z.of_nat (length es) →
  ∃ n out err,
    Readdir af count = Ret (set_read af n, (out, err))
    ∧ read af ≤ n ≤ Z.of_nat (length es)
    ∧ out = drop (Z.to_nat (read af)) (take (Z.to_nat n) es)
    ∧ (count ≤ 0 → n = Z.of_nat (length es) ∧ err = None)
    ∧ (0 < count → (err = Some EOF ↔ read af = Z.of_nat (length es))
                   ∧ (err = None ∨ err = Some EOF)).
Proof.
  intros Hd Hres Hroom Hr.
  pose proof (resolves_length _ _ _ Hres) as Hlen.
  destruct (Z.eq_dec (read af) (Z.of_nat (length es))) as [Heq|Hne].
  - exists (read af), [], (if 0 <? count then Some EOF else None).
    rewrite Readdir_exhausted by (done || lia). rewrite set_read_same.
    split; [done|]. split; [lia|]. split.
    { rewrite Heq, Nat2Z.id, take_ge, drop_all by lia. done. }
    split.
    + intros Hc. by rewrite (proj2 (Z.ltb_ge _ _) Hc).
    + intros Hc. rewrite (proj2 (Z.ltb_lt _ _) Hc). split; [done|by right].
  - destruct (Z.le_gt_cases count 0) as [Hc|Hc].
    + exists (Z.of_nat (length es)), (drop (Z.to_nat (read af)) es), None.
      rewrite (Readdir_unbounded af es count) by (done || lia).
      split; [done|]. split; [lia|]. split.
      { by rewrite Nat2Z.id, take_ge by lia. }
      split; [done|lia].
    + exists (read af + Z.min count (Z.of_nat (length es) - read af)),
        (take (Z.to_nat count) (drop (Z.to_nat (read af)) es)), None.
      specialize (Hroom ltac:(lia)).
      rewrite (Readdir_bounded af es count) by (done || lia).
      split; [done|]. split; [lia|]. split.
      { rewrite take_drop_commute. f_equal.
        destruct (Z.min_spec count (Z.of_nat (length es) - read af)) as [[? ->]|[? ->]].
        - f_equal. lia.
        - rewrite !take_ge; [done|lia|lia]. }
      split; [lia|]. intros _. split; [|by left]. split; [done|lia].
Qed.

(** X8. Listing never skips or repeats an entry, whatever mix of bounded
    and unbounded calls is made with counts the run has room for: on a
    freshly opened directory whose children resolve to [es], after any
    sequence of [Readdir] calls none of which asks for more entries
    ([count > max_cap]) than the run can allocate a slice for, the batches returned so far, put end
    to end, are exactly the first [n] entries of [es], where [n] is the
    cursor reached; and once a call with [count <= 0] was among them, they
    are all of [es]. *)
Theorem listing_batches_prefix (recv : option _assetfs) (nm : string) (af : _assetFile)
    (es : list _itemMetadata) (counts : list Z) :
  Open recv nm = Ret (Some af, None) →
  isDir (fi af) = true →
  resolves (meta (fs af)) (children (fi af)) es →
  Forall (fun c => 0 < c → c ≤ max_cap) counts →
  ∃ bs n,
    readdir_seq counts af = Ret (bs, set_read af n)
    ∧ 0 ≤ n ≤ Z.of_nat (length es)
    ∧ concat bs = take (Z.to_nat n) es
    ∧ (Exists (fun c => c ≤ 0) counts → concat bs = es).
Proof.
  intros Hopen Hd Hres Hroom.
  destruct (Open_handle _ _ _ _ Hopen) as (_ & Hread & _). clear Hopen.
  assert (Hgen : ∀ counts af0, Forall (fun c => 0 < c → c ≤ max_cap) counts →
     isDir (fi af0) = true →
     resolves (meta (fs af0)) (children (fi af0)) es →
     0 ≤ read af0 ≤ Z.of_nat (length es) →
     ∃ bs n, readdir_seq counts af0 = Ret (bs, set_read af0 n)
       ∧ read af0 ≤ n ≤ Z.of_nat (length es)
       ∧ concat bs = drop (Z.to_nat (read af0)) (take (Z.to_nat n) es)
       ∧ (Exists (fun c => c ≤ 0) counts → n = Z.of_nat (length es))).
  { clear. induction counts as [|c counts IH]; intros af0 Hroom Hd Hres Hr.
    - exists [], (read af0). rewrite set_read_same. split; [done|]. split; [lia|]. split.
      + simpl. by rewrite drop_ge by (rewrite length_take; lia).
      + by intros ?%Exists_nil.
    - apply Forall_cons in Hroom as [Hcap Hroom].
      destruct (Readdir_advance af0 es c Hd Hres Hcap Hr)
        as (n1 & out & err & Hrd & Hn1 & Hout & Hunb & _).
      destruct (IH (set_read af0 n1)) as (bs & n & Hseq & Hn & Hcat & Hex);
        [done|done|done|simpl; lia|].
      exists (out :: bs), n. cbn [readdir_seq]. rewrite Hrd. cbn [go_bind fst snd].
      rewrite Hseq. cbn [go_bind fst snd]. simpl in Hn, Hcat.
      split; [done|]. split; [lia|]. split.
      + simpl. rewrite Hcat, Hout.
        rewrite <- (take_drop (Z.to_nat n1 - Z.to_nat (read af0))
                      (drop (Z.to_nat (read af0)) (take (Z.to_nat n) es))).
        f_equal.
        * rewrite take_drop_commute, take_take. do 2 f_equal. lia.
        * rewrite drop_drop. f_equal. lia.
      + intros [Hc|Hrest]%Exists_cons.
        * destruct (Hunb Hc) as [-> _]. lia.
        * by apply Hex. }
  destruct (Hgen counts af Hroom Hd Hres) as (bs & n & Hseq & Hn & Hcat & Hex); [lia|].
  rewrite Hread in Hn, Hcat. simpl in Hcat. rewrite drop_0 in Hcat.
  exists bs, n. split; [done|]. split; [lia|]. split; [done|].
  intros Hc. rewrite Hcat, (Hex Hc), Nat2Z.id. by rewrite take_ge.
Qed.

(** X9. Seeking to the start undoes everything: whatever [Read], [Seek],
    [Stat], [Readdir] and [Close] calls were made on a handle opened on a
    file, [Seek(0, io.SeekStart)] brings the handle back to exactly the
    state [Open] returned it in. *)
Theorem file_rewind_restores (recv : option _assetfs) (nm : string) (af af' : _assetFile)
    (cs : list call) (rs : list reply) :
  Open recv nm = Ret (Some af, None) →
  isDir (fi af) = false →
  run cs af = Ret (af', rs) →
  Seek af' 0 0 = Ret (af, (0, None)).
Proof.
  intros Hopen Hd Hrun.
  destruct (Open_handle _ _ _ _ Hopen) as (_ & Hread & fs0 & ix & _ & _ & _ & _ & Hrd).
  rewrite Hd in Hrd. destruct Hrd as (d & _ & Hrd). clear Hopen.
  assert (Hinv : fi af' = fi af ∧ fs af' = fs af ∧ read af' = read af
                 ∧ (s <$> rd af') = Some d).
  { assert (Hstart : (s <$> rd af) = Some d) by (by rewrite Hrd).
    clear Hrd Hread. revert af rs Hd Hrun Hstart.
    induction cs as [|c cs IH]; intros af rs Hd.
    - by intros [= <- <-] ?.
    - simpl. destruct (perform c af) as [[af1 r1]|] eqn:Hp; simpl; [|discriminate].
      destruct (run cs af1) as [[af2 rs2]|] eqn:Hrun; simpl; [|discriminate].
      intros [= <- <-] Hs.
      destruct (perform_frame _ _ _ _ Hp) as (Hfi & Hfs & _ & Hfile & _).
      destruct (Hfile Hd) as [Hrd1 Hs1].
      destruct (IH af1 rs2) as (Hfi2 & Hfs2 & Hrd2 & Hs2); [congruence|done|congruence|].
      repeat split; congruence. }
  destruct Hinv as (Hfi & Hfs & Hrd' & Hs).
  destruct (rd af') as [r'|] eqn:Hr'; [|discriminate]. injection Hs as Hs.
  rewrite (Seek_file af' r'); [|congruence|done].
  unfold Reader_Seek. simpl. do 2 f_equal.
  destruct af, af'. simpl in *. subst. done.
Qed.

End CallFacts.

(** * The name [Open] looks up *)

Section OpenNameFacts.
Import Template.

Lemma elements_nonempty (s : string) : path.elements s ≠ [].
Proof. destruct s as [|c s]; simpl; [done|]. destruct (Ascii.eqb c "/"%char); [done|]. by destruct (path.elements s). Qed.

Lemma elements_trailing_slash (s : string) :
  path.elements (s +:+ "/") = path.elements s ++ [""%string].
Proof.
  induction s as [|c s IH]; [done|].
  change (String c s +:+ "/") with (String c (s +:+ "/")).
  cbn [path.elements]. rewrite IH.
  destruct (Ascii.eqb c "/"%char); [done|].
  pose proof (elements_nonempty s). by destruct (path.elements s).
Qed.

Lemma clean_elements_trailing_empty (rooted : bool) (es out : list string) (dotdot : nat) :
  path.clean_elements rooted (es ++ [""%string]) out dotdot = path.clean_elements rooted es out dotdot.
Proof.
  revert out dotdot. induction es as [|e es IH]; intros out dotdot; [done|].
  cbn [app path.clean_elements]. rewrite !IH. done.
Qed.

Lemma Clean_rooted (s : string) :
  path.Clean ("/" +:+ s)
  = "/" +:+ path.join_slash (path.clean_elements true (path.elements s) [] 0).
Proof. by destruct s. Qed.

(** X10. [Open] on an index does not see how the name is spelt around the
    path it denotes: one more leading slash, a trailing slash or a leading
    ["./"] give the same result as the name without them, a leading
    ["../"] is dropped (the name cannot climb above the root), and the
    empty name opens the root ["/"]. *)
Theorem Open_name_spelling (fs0 : _assetfs) (nm : string) :
  Open (Some fs0) ("/" +:+ nm) = Open (Some fs0) nm
  ∧ Open (Some fs0) (nm +:+ "/") = Open (Some fs0) nm
  ∧ Open (Some fs0) ("./" +:+ nm) = Open (Some fs0) nm
  ∧ Open (Some fs0) ("../" +:+ nm) = Open (Some fs0) nm
  ∧ Open (Some fs0) "" = Open (Some fs0) "/".
Proof.
  assert (Hkey : ∀ a b, path.Clean ("/" +:+ a) = path.Clean ("/" +:+ b) →
            Open (Some fs0) a = Open (Some fs0) b).
  { intros a b Heq. unfold Open. by rewrite Heq. }
  split; [|split; [|split; [|split]]]; apply Hkey; rewrite !Clean_rooted;
    [done| |done|done|done].
  by rewrite elements_trailing_slash, clean_elements_trailing_empty.
Qed.

End OpenNameFacts.

(** * Rooted names and the sections of the generated file *)

Section SectionFacts.
Import Generator Layout.

Lemma strip_prefix_app (r s : string) : path.strip_prefix (r +:+ s) r = Some s.
Proof.
  induction r as [|c r IH]; [by destruct s|].
  change (String c r +:+ s) with (String c (r +:+ s)). simpl.
  by rewrite Ascii.eqb_refl.
Qed.

Lemma append_empty_r (r : string) : r +:+ "" = r.
Proof. induction r as [|c r IH]; [done|]. change (String c r +:+ "") with (String c (r +:+ "")). by rewrite IH. Qed.

Lemma rootedName_root (rt : string) : rootedName rt rt = "/"%string.
Proof.
  unfold rootedName, path.TrimPrefix.
  rewrite <- (append_empty_r rt) at 1. by rewrite strip_prefix_app.
Qed.

Lemma rootedName_app (rt s : string) : s ≠ ""%string → rootedName (rt +:+ s) rt = s.
Proof.
  intros Hs. unfold rootedName, path.TrimPrefix. rewrite strip_prefix_app.
  by rewrite (proj2 (String.eqb_neq _ _) Hs).
Qed.

(** X11. [rootedName] turns the root into ["/"] and a path that extends the
    root into what comes after the root; it never returns the empty
    string. *)
Theorem rootedName_strips_root (rt : string) :
  rootedName rt rt = "/"%string
  ∧ (∀ s, s ≠ ""%string → rootedName (rt +:+ s) rt = s)
  ∧ (∀ nm, rootedName nm rt ≠ ""%string).
Proof.
  split; [apply rootedName_root|]. split; [apply rootedName_app|].
  intros nm. unfold rootedName.
  destruct (String.eqb_spec (path.TrimPrefix nm rt) ""); [discriminate|done].
Qed.

Lemma walkFunc_prepend (w : list chunk) (tr : tree) (p : string) (info : FileInfo)
    (err : option error) (rf : list byte * option error) :
  walkFunc (prepend_wr w tr) p info err rf
  = (prepend_wr w (fst (walkFunc tr p info err rf)), snd (walkFunc tr p info err rf)).
Proof.
  unfold walkFunc, prepend_wr. destruct err; [done|]. simpl.
  destruct (IsDir info); [done|].
  destruct (maxFileSize <? Size info); [done|].
  destruct rf as [d [e|]]; simpl; [done|]. by rewrite app_assoc.
Qed.

Lemma run_visits_prepend (w : list chunk) (vs : list visit) (tr : tree) :
  run_visits vs (prepend_wr w tr)
  = (prepend_wr w (fst (run_visits vs tr)), snd (run_visits vs tr)).
Proof.
  revert tr. induction vs as [|v vs IH]; intros tr; [done|].
  rewrite !run_visits_cons, walkFunc_prepend.
  destruct (walkFunc tr _ _ _ _) as [tr1 [e|]]; simpl; [done|]. apply IH.
Qed.

Lemma writeMetadata_prepend (mo : MapOrder) (w : list chunk) (tr : tree) :
  writeMetadata mo (prepend_wr w tr) = prepend_wr w (writeMetadata mo tr).
Proof. unfold writeMetadata, prepend_wr. simpl. by rewrite <- !app_assoc. Qed.

(** What [writeSection] adds to the writer does not depend on what was
    written before. *)
Lemma writeSection_prepend (mo : MapOrder) (w : list chunk) (dir : string) (n : fsnode) :
  writeSection mo w dir n
  = (w ++ fst (writeSection mo [] dir n), snd (writeSection mo [] dir n)).
Proof.
  unfold writeSection, Walk. cbn [root app].
  change {| wr := w ++ [SectionOpen dir]; root := dir; filesMeta := []; dirMeta := [];
            names := ∅; dirData := ∅ |}
    with (prepend_wr w {| wr := [SectionOpen dir]; root := dir; filesMeta := [];
                          dirMeta := []; names := ∅; dirData := ∅ |}).
  rewrite run_visits_prepend.
  destruct (run_visits _ _) as [tr [e|]]; cbn [fst snd]; [done|].
  by rewrite writeMetadata_prepend.
Qed.

Lemma write_sections_concat (mo : MapOrder) (dirs : list (string * fsnode)) (w : list chunk) :
  (Forall (fun d => snd (section_of mo d) = None) dirs →
     write_sections mo w dirs = (w ++ concat (map (fun d => fst (section_of mo d)) dirs), None))
  ∧ (∀ out, write_sections mo w dirs = (out, None) →
       Forall (fun d => snd (section_of mo d) = None) dirs).
Proof.
  revert w. induction dirs as [|[dir n] dirs IH]; intros w.
  - split; [intros _; simpl; by rewrite app_nil_r|constructor].
  - cbn [write_sections]. rewrite writeSection_prepend.
    change (writeSection mo [] (path.Clean dir) n) with (section_of mo (dir, n)).
    destruct (section_of mo (dir, n)) as [sec [e|]] eqn:Hsec; cbn [fst snd].
    + split; [|intros out; discriminate].
      intros [Hd _]%Forall_cons. rewrite Hsec in Hd. discriminate.
    + destruct (IH (w ++ sec)) as [IH1 IH2]. split.
      * intros [_ Hall]%Forall_cons. rewrite (IH1 Hall). cbn [map concat].
        by rewrite Hsec, app_assoc.
      * intros out Hout. constructor; [by rewrite Hsec|by eapply IH2].
Qed.

Lemma section_keys_app (cs1 cs2 : list chunk) :
  section_keys (cs1 ++ cs2) = section_keys cs1 ++ section_keys cs2.
Proof. apply omap_app. Qed.

Lemma section_keys_no_open (cs : list chunk) :
  Forall (fun c => ∀ d, c ≠ SectionOpen d) cs → section_keys cs = [].
Proof.
  induction 1 as [|c cs Hc _ IH]; [done|].
  unfold section_keys in *. cbn [omap list_omap]. rewrite IH.
  destruct c; try done. by destruct (Hc dir).
Qed.

Lemma section_of_keys (mo : MapOrder) (d : string * fsnode) :
  snd (section_of mo d) = None → section_keys (fst (section_of mo d)) = [path.Clean (fst d)].
Proof.
  unfold section_of. intros Hok.
  destruct (writeSection mo [] (path.Clean (fst d)) (snd d)) as [out e] eqn:Hws.
  simpl in Hok. subst e.
  destruct (writeSection_ok _ _ _ _ _ Hws) as (tr & Hrun & ->).
  apply run_visits_effect in Hrun as (_ & _ & _ & Hw & _). cbn [wr app] in Hw.
  unfold writeMetadata. cbn [fst wr]. rewrite Hw.
  change (SectionOpen (path.Clean (fst d)) :: ?l) with ([SectionOpen (path.Clean (fst d))] ++ l).
  rewrite !section_keys_app.
  rewrite (section_keys_no_open (map _ _)), (section_keys_no_open (map MetaItem _)),
    (section_keys_no_open (map (fun i : nat => NameItem _ _) _));
    [done|apply Forall_forall; intros c (x & -> & _)%list_elem_of_fmap; done ..].
Qed.

(** X12. The generated file is made of independent sections: when
    [generateMain] succeeds, what it writes is the header, the [head]
    constant, then for each directory argument in turn exactly the section
    [writeSection] writes for that directory on its own, and the tail; it
    succeeds exactly when every section does; and the keys under which the
    sections are registered are the cleaned directory arguments, in
    order. *)
Theorem generateMain_sections (mo : MapOrder) (filename pkg tag : string)
    (dirs : list (string * fsnode)) :
  filename ≠ ""%string →
  let expected := [Header pkg tag; Head]
                  ++ concat (map (fun d => fst (section_of mo d)) dirs) ++ [Tail] in
  (Forall (fun d => snd (section_of mo d) = None) dirs →
     generateMain mo filename pkg tag dirs = inr expected
     ∧ section_keys expected = map (fun d => path.Clean (fst d)) dirs)
  ∧ (∀ out, generateMain mo filename pkg tag dirs = inr out →
       out = expected ∧ Forall (fun d => snd (section_of mo d) = None) dirs).
Proof.
  intros Hname expected.
  assert (Hne : String.eqb filename "" = false) by by apply String.eqb_neq.
  unfold generateMain. rewrite Hne.
  destruct (write_sections_concat mo dirs [Header pkg tag; Head]) as [H1 H2].
  split.
  - intros Hall. rewrite (H1 Hall). split; [by rewrite <- app_assoc|].
    subst expected. rewrite !section_keys_app. cbn [section_keys omap list_omap app].
    rewrite app_nil_r. clear H1 H2.
    induction Hall as [|d dirs Hd _ IH]; [done|].
    cbn [map concat]. rewrite section_keys_app, IH. by rewrite section_of_keys.
  - intros out Hout.
    destruct (write_sections mo [Header pkg tag; Head] dirs) as [w [e|]] eqn:Hws;
      [discriminate|].
    injection Hout as <-. pose proof (H2 _ eq_refl) as Hall.
    split; [|done]. pose proof (H1 Hall) as Heq. injection Heq as ->.
    subst expected. cbn [app]. done.
Qed.

End SectionFacts.

(** * From the walked tree to the opened entry *)

Section RoundTripFacts.
Import Generator Invariant Scenario Layout.

Lemma walkFunc_names (tr tr' : tree) (v : visit) :
  walkFunc tr (v_path v) (v_info v) None (v_data v, None) = (tr', None) →
  names tr' = <[v_path v := Z.of_nat (length (if IsDir (v_info v) then dirMeta tr
                                               else filesMeta tr))]> (names tr).
Proof.
  unfold walkFunc. destruct (IsDir (v_info v)).
  - by intros [= <-].
  - destruct (maxFileSize <? Size (v_info v)); [discriminate|]. by intros [= <-].
Qed.

Lemma walkFunc_dirData_dom (tr tr' : tree) (v : visit) :
  walkFunc tr (v_path v) (v_info v) None (v_data v, None) = (tr', None) →
  ∀ q, is_Some (dirData tr' !! q)
       ↔ (IsDir (v_info v) = true ∧ q = v_path v) ∨ is_Some (dirData tr !! q).
Proof.
  unfold walkFunc. destruct (IsDir (v_info v)).
  - intros [= <-] q. cbn [dirData].
    set (dd0 := <[v_path v := {| files := []; subdirs := [] |}]> (dirData tr)).
    transitivity (is_Some (dd0 !! q)).
    + destruct (dd0 !! path.Dir (v_path v)) as [pi|] eqn:E; [|done].
      rewrite lookup_insert. case_decide; [|done]. subst q. rewrite E. split; eauto.
    + subst dd0. rewrite lookup_insert. case_decide.
      * subst q. split; [by left|eauto].
      * split; [by right|]. by intros [[_ ->]|?].
  - destruct (maxFileSize <? Size (v_info v)); [discriminate|].
    intros [= <-] q. cbn [dirData].
    transitivity (is_Some (dirData tr !! q)).
    + destruct (dirData tr !! path.Dir (v_path v)) as [pi|] eqn:E; [|done].
      rewrite lookup_insert. case_decide; [|done]. subst q. rewrite E. split; eauto.
    + split; [by right|]. by intros [[? _]|?].
Qed.

Lemma filter_snoc_file (seen : list visit) (v : visit) :
  IsDir (v_info v) = false →
  filter is_file (seen ++ [v]) = filter is_file seen ++ [v]
  ∧ filter is_dir (seen ++ [v]) = filter is_dir seen.
Proof.
  intros Hd. rewrite !filter_app, !filter_cons, !filter_nil. unfold is_file, is_dir.
  rewrite Hd. simpl. by rewrite app_nil_r.
Qed.

Lemma filter_snoc_dir (seen : list visit) (v : visit) :
  IsDir (v_info v) = true →
  filter is_file (seen ++ [v]) = filter is_file seen
  ∧ filter is_dir (seen ++ [v]) = filter is_dir seen ++ [v].
Proof.
  intros Hd. rewrite !filter_app, !filter_cons, !filter_nil. unfold is_file, is_dir.
  rewrite Hd. simpl. by rewrite app_nil_r.
Qed.

Lemma filter_lookup_path {P : visit → Prop} `{∀ v, Decision (P v)} (seen : list visit)
    (k : nat) (w : visit) :
  filter P seen !! k = Some w → v_path w ∈ map v_path seen.
Proof.
  intros Hk. apply list_elem_of_lookup_2 in Hk. apply list_elem_of_filter in Hk as [_ Hk].
  by apply list_elem_of_fmap_2.
Qed.

Lemma walkFunc_names_exact (tr tr' : tree) (seen : list visit) (v : visit) :
  names_sound tr seen → names_exact tr seen →
  v_path v ∉ map v_path seen →
  walkFunc tr (v_path v) (v_info v) None (v_data v, None) = (tr', None) →
  names_exact tr' (seen ++ [v]).
Proof.
  intros [Hn Hd _] [Hlf Hld Hsz Hf Hdr] Hfresh Hstep.
  pose proof (walkFunc_names _ _ _ Hstep) as Hnames.
  pose proof (walkFunc_dirData_dom _ _ _ Hstep) as Hdom.
  destruct (walkFunc_effect _ _ _ Hstep) as (_ & Hfm & Hdm & _ & _).
  assert (Hnn : names tr !! v_path v = None).
  { destruct (names tr !! v_path v) eqn:E; [|done]. destruct Hfresh. by apply (Hn _ _ E). }
  assert (Hnd : dirData tr !! v_path v = None).
  { destruct (dirData tr !! v_path v) eqn:E; [|done]. destruct Hfresh. apply Hd. by rewrite E. }
  assert (Hold : ∀ {P : visit → Prop} `{∀ v, Decision (P v)} k w,
            filter P seen !! k = Some w → v_path w ≠ v_path v).
  { intros P ? k w Hk Heq. apply Hfresh. rewrite <- Heq. by eapply filter_lookup_path. }
  destruct (IsDir (v_info v)) eqn:Hkind.
  - destruct (filter_snoc_dir seen v Hkind) as [Ef Ed].
    rewrite filter_cons, filter_nil in Hfm, Hdm. unfold is_file, is_dir in Hfm, Hdm.
    rewrite Hkind in Hfm, Hdm. simpl in Hfm, Hdm. rewrite app_nil_r in Hfm.
    split; rewrite ?Ef, ?Ed.
    + by rewrite Hfm.
    + rewrite Hdm, !length_app. simpl. by rewrite Hld.
    + rewrite Hnames, map_size_insert_None by done. rewrite length_app. simpl. lia.
    + intros i w Hw. destruct (Hf _ _ Hw) as [Hi Hnone].
      pose proof (Hold _ _ _ _ Hw) as Hne.
      rewrite Hnames, lookup_insert_ne by done. split; [done|].
      apply eq_None_not_Some. intros Hs. apply Hdom in Hs as [[_ ?]|Hs]; [done|].
      rewrite Hnone in Hs. by destruct Hs.
    + intros j w Hw. apply lookup_app_Some in Hw as [Hw|[Hj Hw]].
      * destruct (Hdr _ _ Hw) as [Hj Hsome].
        pose proof (Hold _ _ _ _ Hw) as Hne.
        rewrite Hnames, lookup_insert_ne by done. split; [done|].
        apply Hdom. by right.
      * apply list_lookup_singleton_Some in Hw as [Hj0 <-].
        rewrite Hnames, lookup_insert_eq. split.
        -- do 2 f_equal. lia.
        -- apply Hdom. by left.
  - destruct (filter_snoc_file seen v Hkind) as [Ef Ed].
    rewrite filter_cons, filter_nil in Hfm, Hdm. unfold is_file, is_dir in Hfm, Hdm.
    rewrite Hkind in Hfm, Hdm. simpl in Hfm, Hdm. rewrite app_nil_r in Hdm.
    split; rewrite ?Ef, ?Ed.
    + rewrite Hfm, !length_app. simpl. by rewrite Hlf.
    + by rewrite Hdm.
    + rewrite Hnames, map_size_insert_None by done. rewrite length_app. simpl. lia.
    + intros i w Hw. apply lookup_app_Some in Hw as [Hw|[Hi Hw]].
      * destruct (Hf _ _ Hw) as [Hi Hnone].
        pose proof (Hold _ _ _ _ Hw) as Hne.
        rewrite Hnames, lookup_insert_ne by done. split; [done|].
        apply eq_None_not_Some. intros Hs. apply Hdom in Hs as [[? _]|Hs]; [done|].
        rewrite Hnone in Hs. by destruct Hs.
      * apply list_lookup_singleton_Some in Hw as [Hi0 <-].
        rewrite Hnames, lookup_insert_eq. split.
        -- do 2 f_equal. lia.
        -- apply eq_None_not_Some. intros Hs. apply Hdom in Hs as [[? _]|Hs]; [done|].
           rewrite Hnd in Hs. by destruct Hs.
    + intros j w Hw. destruct (Hdr _ _ Hw) as [Hj Hsome].
      pose proof (Hold _ _ _ _ Hw) as Hne.
      rewrite Hnames, lookup_insert_ne by done. split; [done|].
      apply Hdom. by right.
Qed.

Lemma run_visits_names_exact (vs seen : list visit) (tr tr' : tree) :
  names_sound tr seen → names_exact tr seen →
  NoDup (map v_path (seen ++ vs)) →
  run_visits vs tr = (tr', None) →
  names_exact tr' (seen ++ vs).
Proof.
  revert seen tr. induction vs as [|v vs IH]; intros seen tr Hs He Hnd.
  - intros [= <-]. by rewrite app_nil_r.
  - rewrite run_visits_cons.
    destruct (walkFunc tr _ _ _ _) as [tr1 [e|]] eqn:Hstep; [discriminate|].
    intros Hrun.
    assert (Hfresh : v_path v ∉ map v_path seen).
    { rewrite map_app in Hnd. apply NoDup_app in Hnd as (_ & Hdisj & _).
      intros Hin. apply (Hdisj _ Hin). simpl. left. }
    replace (seen ++ v :: vs) with ((seen ++ [v]) ++ vs) in * by by rewrite <- app_assoc.
    apply (IH (seen ++ [v]) tr1); [| |done|done].
    + by eapply walkFunc_names_sound.
    + by eapply walkFunc_names_exact.
Qed.


(** The parts of the section a successful [writeSection] writes. *)
Lemma built_section_parts (mo : MapOrder) (w : list chunk) (dir : string) (n : fsnode)
    (out sec : list chunk) :
  writeSection mo w dir n = (out, None) →
  out = w ++ sec →
  ∃ tr,
    run_visits (walk_visits dir n)
      {| wr := w ++ [SectionOpen dir]; root := dir; filesMeta := []; dirMeta := [];
         names := ∅; dirData := ∅ |} = (tr, None)
    ∧ let F := Z.of_nat (length (filesMeta tr)) in
      let ixs := build_indexes (range_of mo _ (names tr)) (root tr) (dirData tr) F in
      let sd := build_subdir (range_of mo _ (dirData tr)) (root tr) F in
      let i2n := build_idx2name (range_of mo _ ixs) in
      section_data sec = map v_data (filter is_file (walk_visits dir n))
      ∧ section_meta sec = imap (meta_entry sd i2n) (filesMeta tr ++ dirMeta tr)
      ∧ section_names sec
        = map (fun i : nat => (default ""%string (i2n !! Z.of_nat i), Z.of_nat i))
            (seq 0 (base.size ixs)).
Proof.
  intros Hws Hout.
  destruct (writeSection_ok _ _ _ _ _ Hws) as (tr & Hrun & Hwr).
  exists tr. split; [exact Hrun|].
  apply run_visits_effect in Hrun as (_ & _ & _ & Hw & _). cbn [wr] in Hw.
  unfold writeMetadata in Hwr. cbn [wr] in Hwr.
  intros F ixs sd i2n. fold F in Hwr. fold ixs in Hwr. fold sd in Hwr. fold i2n in Hwr.
  rewrite Hw in Hwr. rewrite <- !app_assoc in Hwr.
  rewrite Hwr in Hout. apply app_inv_head in Hout.
  rewrite <- (map_map v_data DataItem) in Hout.
  replace (map (fun i : nat => NameItem (default ""%string (i2n !! Z.of_nat i)) (Z.of_nat i))
             (seq 0 (base.size ixs)))
    with (map (fun kv : string * Z => NameItem (fst kv) (snd kv))
            (map (fun i : nat => (default ""%string (i2n !! Z.of_nat i), Z.of_nat i))
               (seq 0 (base.size ixs)))) in Hout by (by rewrite map_map).
  cbn [app] in Hout.
  destruct (section_read_back dir (map v_data (filter is_file (walk_visits dir n)))
              (imap (meta_entry sd i2n) (filesMeta tr ++ dirMeta tr))
              (map (fun i : nat => (default ""%string (i2n !! Z.of_nat i), Z.of_nat i))
                 (seq 0 (base.size ixs)))) as (Hsd & Hsm & Hsn).
  cbn [app] in Hsd, Hsm, Hsn. by rewrite Hout in Hsd, Hsm, Hsn.
Qed.

Lemma rooted_keys_NoDup {A} (dir : string) (vs : list visit) (m : gmap string A) :
  (∀ p, is_Some (m !! p) → p ∈ map v_path vs) →
  NoDup ((fun p => rootedName p dir) <$> (v_path <$> vs)) →
  NoDup ((fun kv : string * A => rootedName (fst kv) dir) <$> map_to_list m).
Proof.
  intros Hkeys Hnd.
  change (NoDup (((fun p => rootedName p dir) ∘ fst) <$> map_to_list m)).
  rewrite list_fmap_compose.
  apply NoDup_fmap_2_strong; [|apply NoDup_fst_map_to_list].
  intros p q Hp Hq. apply (NoDup_fmap_inj_on _ _ _ _ Hnd).
  - apply list_elem_of_fmap in Hp as ([p' a] & -> & Hp). apply elem_of_map_to_list in Hp.
    apply Hkeys. by exists a.
  - apply list_elem_of_fmap in Hq as ([q' a] & -> & Hq). apply elem_of_map_to_list in Hq.
    apply Hkeys. by exists a.
Qed.

(** The identity [writeMetadata] computes for a name. *)
Lemma shifted_inj (tr : tree) (vs : list visit) (p1 p2 : string) (i1 i2 : Z) :
  names_sound tr vs →
  names tr !! p1 = Some i1 → names tr !! p2 = Some i2 →
  match dirData tr !! p1 with
  | Some _ => i1 + Z.of_nat (length (filesMeta tr))
  | None => i1
  end
  = match dirData tr !! p2 with
    | Some _ => i2 + Z.of_nat (length (filesMeta tr))
    | None => i2
    end →
  p1 = p2.
Proof.
  intros [Hn _ Hi] H1 H2 Heq.
  destruct (Hn _ _ H1) as [_ Hr1]. destruct (Hn _ _ H2) as [_ Hr2].
  destruct (dirData tr !! p1) eqn:E1; destruct (dirData tr !! p2) eqn:E2; try lia.
  - assert (Hii : i2 = i1) by lia. rewrite Hii in H2.
    eapply Hi; [exact H1|exact H2|]. rewrite E1, E2. split; eauto.
  - assert (Hii : i2 = i1) by lia. rewrite Hii in H2.
    eapply Hi; [exact H1|exact H2|]. rewrite E1, E2. split; intros [? ?]; done.
Qed.

Lemma foldl_insert_lookup_Some {K A B} `{Countable K} (f : B → K) (g : B → A) (l : list B)
    (x : B) :
  NoDup (f <$> l) → x ∈ l →
  foldl (fun (acc : gmap K A) y => <[f y := g y]> acc) ∅ l !! f x = Some (g x).
Proof.
  intros Hnd Hx. rewrite foldl_insert_list_to_map. apply elem_of_list_to_map_1.
  - change (NoDup (fst <$> reverse ((fun y => (f y, g y)) <$> l))).
    rewrite fmap_reverse, <- list_fmap_compose. by rewrite reverse_Permutation.
  - rewrite elem_of_reverse. apply list_elem_of_fmap. by exists x.
Qed.

Lemma foldl_insert_size_NoDup {K A B} `{Countable K} (f : B → K) (g : B → A) (l : list B) :
  NoDup (f <$> l) →
  base.size (foldl (fun (acc : gmap K A) y => <[f y := g y]> acc) ∅ l) = length l.
Proof.
  intros Hnd. rewrite foldl_insert_list_to_map. rewrite map_size_list_to_map.
  - by rewrite length_reverse, length_map.
  - change (NoDup (fst <$> reverse ((fun y => (f y, g y)) <$> l))).
    rewrite fmap_reverse, <- list_fmap_compose. by rewrite reverse_Permutation.
Qed.

(** With pairwise distinct rooted names, [indexes] holds every walked path
    under its rooted name, and [idx2name] is its inverse. *)
Lemma indexes_exact (mo : MapOrder) (tr : tree) (vs : list visit) :
  names_sound tr vs →
  NoDup ((fun p => rootedName p (root tr)) <$> (v_path <$> vs)) →
  let F := Z.of_nat (length (filesMeta tr)) in
  let ixs := build_indexes (range_of mo _ (names tr)) (root tr) (dirData tr) F in
  let i2n := build_idx2name (range_of mo _ ixs) in
  base.size ixs = base.size (names tr)
  ∧ (∀ p i, names tr !! p = Some i →
       ixs !! rootedName p (root tr)
       = Some (match dirData tr !! p with Some _ => i + F | None => i end))
  ∧ (∀ k j, ixs !! k = Some j → i2n !! j = Some k)
  ∧ (∀ k j, i2n !! j = Some k → ixs !! k = Some j)
  ∧ (∀ k j, ixs !! k = Some j →
       ∃ p, p ∈ map v_path vs ∧ k = rootedName p (root tr)).
Proof.
  intros Hsound Hnd F ixs i2n.
  assert (Hkeys : NoDup ((fun kv : string * Z => rootedName (fst kv) (root tr))
                           <$> range_of mo _ (names tr))).
  { rewrite (range_of_perm mo). apply (rooted_keys_NoDup _ vs); [|done].
    intros p [i Hp]. by apply (ns_names _ _ Hsound p i). }
  assert (Hfrom : ∀ k j, ixs !! k = Some j →
            ∃ p i, names tr !! p = Some i ∧ k = rootedName p (root tr)
                   ∧ j = match dirData tr !! p with Some _ => i + F | None => i end).
  { intros k j Hk. apply foldl_insert_lookup in Hk as ([p i] & Hin & <- & <-).
    rewrite (range_of_perm mo) in Hin. apply elem_of_map_to_list in Hin. eauto. }
  assert (Hvals : NoDup (snd <$> range_of mo _ ixs)).
  { rewrite (range_of_perm mo).
    apply NoDup_fmap_2_strong; [|apply NoDup_map_to_list].
    intros [k1 j1] [k2 j2] H1 H2. simpl. intros <-.
    apply elem_of_map_to_list in H1, H2.
    destruct (Hfrom _ _ H1) as (p1 & i1 & Hp1 & -> & Hj1).
    destruct (Hfrom _ _ H2) as (p2 & i2 & Hp2 & -> & Hj2).
    assert (p1 = p2); [|by subst].
    eapply (shifted_inj tr vs p1 p2 i1 i2); [done..|]. fold F. congruence. }
  split; [|split; [|split; [|split]]].
  - subst ixs. unfold build_indexes.
    rewrite (foldl_insert_size_NoDup (fun kv : string * Z => rootedName (fst kv) (root tr)))
      by done.
    rewrite (Permutation_length (range_of_perm mo Z (names tr))).
    by rewrite length_map_to_list.
  - intros p i Hp. subst ixs. unfold build_indexes.
    apply (foldl_insert_lookup_Some
             (fun kv : string * Z => rootedName (fst kv) (root tr))
             (fun kv : string * Z =>
                match dirData tr !! fst kv with Some _ => snd kv + F | None => snd kv end)
             _ (p, i)); [done|].
    rewrite (range_of_perm mo). by apply elem_of_map_to_list.
  - intros k j Hk. subst i2n. unfold build_idx2name.
    apply (foldl_insert_lookup_Some (fun kv : string * Z => snd kv)
             (fun kv : string * Z => fst kv) _ (k, j)); [done|].
    rewrite (range_of_perm mo). by apply elem_of_map_to_list.
  - intros k j Hj. subst i2n. unfold build_idx2name in Hj.
    apply foldl_insert_lookup in Hj as ([k' j'] & Hin & <- & <-).
    rewrite (range_of_perm mo) in Hin. by apply elem_of_map_to_list in Hin.
  - intros k j Hk. destruct (Hfrom _ _ Hk) as (p & i & Hp & -> & _).
    exists p. split; [|done]. by apply (ns_names _ _ Hsound p i).
Qed.

End RoundTripFacts.

Section RoundTripTheorem.
Import Generator Invariant Scenario Layout.

(** The names map of a build whose walked paths have pairwise distinct
    rooted names: it compiles, holds one key per visit, and maps the rooted
    name of every visit to the identity of that visit. *)
Lemma built_names_exact (mo : MapOrder) (w : list chunk) (dir : string) (n : fsnode)
    (out sec : list chunk) :
  writeSection mo w dir n = (out, None) →
  out = w ++ sec →
  NoDup (map (fun v => rootedName (v_path v) dir) (walk_visits dir n)) →
  ∃ fs0,
    compile_section sec = Some fs0
    ∧ base.size (Template.names fs0) = length (walk_visits dir n)
    ∧ (∀ ix v, identity_at (walk_visits dir n) ix v →
         Template.names fs0 !! rootedName (v_path v) dir = Some ix)
    ∧ (∀ k ix, Template.names fs0 !! k = Some ix →
         ∃ v, v ∈ walk_visits dir n ∧ k = rootedName (v_path v) dir).
Proof.
  intros Hws Hout Hnd.
  destruct (built_section_parts _ _ _ _ _ _ Hws Hout) as (tr & Hrun & Hparts).
  cbv zeta in Hparts. destruct Hparts as (Hsd & Hsm & Hsn).
  assert (Hnd' : NoDup ((fun p => rootedName p dir) <$> (v_path <$> walk_visits dir n))).
  { by rewrite <- list_fmap_compose. }
  assert (Hpaths : NoDup (map v_path ([] ++ walk_visits dir n))) by by eapply NoDup_fmap_1.
  assert (Hsound : names_sound tr (walk_visits dir n)).
  { eapply (run_visits_names_sound (walk_visits dir n) []); [|done|exact Hrun].
    split; simpl; intros p; rewrite ?lookup_empty; done. }
  assert (Hexact : names_exact tr (walk_visits dir n)).
  { eapply (run_visits_names_exact (walk_visits dir n) []); [| |done|exact Hrun].
    - split; simpl; intros p; rewrite ?lookup_empty; done.
    - split; simpl; try done; intros k v; rewrite filter_nil; by intros ?%lookup_nil_Some. }
  pose proof (run_visits_effect _ _ _ Hrun) as (Hroot & _). simpl in Hroot.
  clear Hws Hrun. subst dir.
  destruct (indexes_exact mo tr (walk_visits (root tr) n) Hsound Hnd')
    as (Hsize & Hix & Hto & Hfrom & Hkeys).
  set (F := Z.of_nat (length (filesMeta tr))) in *.
  set (ixs := build_indexes _ _ _ _) in *. set (i2n := build_idx2name _) in *.
  destruct Hexact as [Hlf Hld Hsz Hf Hd].
  (* every visit is found in [idx2name] under its identity *)
  assert (Hid : ∀ ix v, identity_at (walk_visits (root tr) n) ix v →
            0 ≤ ix < Z.of_nat (base.size ixs) ∧ i2n !! ix = Some (rootedName (v_path v) (root tr))).
  { intros ix v [(i & Hi & ->)|(j & Hj & ->)].
    - destruct (Hf _ _ Hi) as [Hname Hnone].
      pose proof (Hix _ _ Hname) as Hk. rewrite Hnone in Hk. split; [|apply Hto, Hk].
      apply lookup_lt_Some in Hi. rewrite Hsize, Hsz.
      pose proof (filter_file_dir_length (walk_visits (root tr) n)). lia.
    - destruct (Hd _ _ Hj) as [Hname [di Hsome]].
      pose proof (Hix _ _ Hname) as Hk. rewrite Hsome in Hk. split.
      + apply lookup_lt_Some in Hj. rewrite Hsize, Hsz.
        pose proof (filter_file_dir_length (walk_visits (root tr) n)). lia.
      + apply Hto. rewrite Hk. f_equal. subst F. rewrite Hlf. lia. }
  (* and every identity below the size is the identity of a visit *)
  assert (Hall : ∀ i : nat, (i < base.size ixs)%nat →
            ∃ v, identity_at (walk_visits (root tr) n) (Z.of_nat i) v).
  { intros i Hi. rewrite Hsize, Hsz in Hi.
    pose proof (filter_file_dir_length (walk_visits (root tr) n)) as Hsplit.
    destruct (decide (i < length (filter is_file (walk_visits (root tr) n)))%nat) as [Hlt|Hge].
    - destruct (lookup_lt_is_Some_2 _ _ Hlt) as [v Hv]. exists v. left. eauto.
    - destruct (lookup_lt_is_Some_2 (filter is_dir (walk_visits (root tr) n))
                  (i - length (filter is_file (walk_visits (root tr) n)))) as [v Hv]; [lia|].
      exists v. right. eexists. split; [exact Hv|]. f_equal. lia. }
  set (L := map (fun i : nat => (default ""%string (i2n !! Z.of_nat i), Z.of_nat i))
              (seq 0 (base.size ixs))) in *.
  assert (HL : ∀ k ix, (k, ix) ∈ L ↔ 0 ≤ ix < Z.of_nat (base.size ixs) ∧ i2n !! ix = Some k).
  { intros k ix. subst L. rewrite list_elem_of_fmap. split.
    - intros (i & [= -> ->] & Hi%elem_of_seq).
      destruct (Hall i) as [v Hv]; [lia|]. destruct (Hid _ _ Hv) as [_ ->]. split; [lia|done].
    - intros [Hr Hk]. exists (Z.to_nat ix). rewrite Z2Nat.id by lia. rewrite Hk.
      split; [done|]. apply elem_of_seq. lia. }
  assert (HLnd : NoDup (L.*1)).
  { subst L. rewrite <- list_fmap_compose.
    apply NoDup_fmap_2_strong; [|apply NoDup_seq].
    intros i1 i2 Hi1%elem_of_seq Hi2%elem_of_seq. simpl.
    destruct (Hall i1) as [v1 Hv1]; [lia|]. destruct (Hall i2) as [v2 Hv2]; [lia|].
    destruct (Hid _ _ Hv1) as [_ E1]. destruct (Hid _ _ Hv2) as [_ E2].
    rewrite E1, E2. simpl. intros Heq.
    apply Hfrom in E1, E2. rewrite Heq in E1. rewrite E1 in E2. injection E2. lia. }
  unfold compile_section. rewrite Hsn, Hsd, Hsm.
  rewrite decide_True by exact HLnd.
  eexists. split; [reflexivity|]. cbn [Template.names].
  split; [|split].
  - rewrite map_size_list_to_map by done. subst L.
    by rewrite length_map, length_seq, Hsize, Hsz.
  - intros ix v Hv. apply elem_of_list_to_map_1; [done|]. apply HL. by apply Hid.
  - intros k ix Hk%elem_of_list_to_map_2. apply HL in Hk as [_ Hk].
    apply Hfrom in Hk. destruct (Hkeys _ _ Hk) as (p & Hp & ->).
    apply list_elem_of_fmap in Hp as (v & -> & Hv). eauto.
Qed.


Lemma index_lookup {A} (l : list A) (i : nat) (x : A) :
  l !! i = Some x → index l (Z.of_nat i) = Ret x.
Proof.
  intros Hx. destruct (index_in_range l (Z.of_nat i)) as (y & -> & Hy).
  - apply lookup_lt_Some in Hx. lia.
  - rewrite Nat2Z.id in Hy. congruence.
Qed.

(** Opening a walked non-directory of a build: the handle returned. *)
Lemma built_open_file (mo : MapOrder) (w : list chunk) (dir : string) (n : fsnode)
    (out sec : list chunk) (fs0 : Template._assetfs) :
  writeSection mo w dir n = (out, None) →
  out = w ++ sec →
  NoDup (map (fun v => rootedName (v_path v) dir) (walk_visits dir n)) →
  compile_section sec = Some fs0 →
  ∀ v nm, v ∈ walk_visits dir n → IsDir (v_info v) = false →
    path.Clean ("/" +:+ nm) = rootedName (v_path v) dir →
    Template.Open (Some fs0) nm
    = Ret (Some {| Template.rd := Some (Template.NewReader (v_data v));
                   Template.fi :=
                     {| Template.name := Name (v_info v); Template.size := Size (v_info v);
                        Template.mode := Mode (v_info v);
                        Template.mtime := ModTime (v_info v);
                        Template.isDir := false; Template.children := [] |};
                   Template.fs := fs0; Template.read := 0 |}, None).
Proof.
  intros Hws Hout Hnd Hcomp v nm Hv Hkind Hnm.
  destruct (built_names_exact _ _ _ _ _ _ Hws Hout Hnd) as (fs1 & Hcomp1 & _ & Hid & _).
  rewrite Hcomp in Hcomp1. injection Hcomp1 as <-.
  destruct (built_index_shape _ _ _ _ _ _ _ Hws Hout Hcomp) as (tr & Hrun & Hshape).
  cbv zeta in Hshape. destruct Hshape as (Hdata & Hmeta & _).
  apply run_visits_effect in Hrun as (_ & Hfm & Hdm & _ & _). simpl in Hfm, Hdm.
  rewrite Hfm, Hdm in Hmeta.
  set (sd := build_subdir _ _ _) in Hmeta. set (i2n := build_idx2name _) in Hmeta.
  assert (Hin : v ∈ filter is_file (walk_visits dir n)) by (by apply list_elem_of_filter).
  apply list_elem_of_lookup_1 in Hin as [i Hi].
  pose proof (Hid (Z.of_nat i) v) as Hname.
  unfold Template.Open. rewrite Hnm, Hname by (left; eauto).
  assert (Hm : Template.meta fs0 !! i = Some (meta_entry sd i2n i (v_info v))).
  { rewrite Hmeta, list_lookup_imap.
    rewrite lookup_app_l by (rewrite length_map; by eapply lookup_lt_Some).
    by rewrite list_lookup_fmap, Hi. }
  assert (Hd : Template.data fs0 !! i = Some (v_data v)).
  { by rewrite Hdata, list_lookup_fmap, Hi. }
  rewrite (index_lookup _ _ _ Hm). cbn [go_bind].
  rewrite meta_entry_isDir, Hkind. cbn [negb].
  rewrite (index_lookup _ _ _ Hd). cbn [go_bind].
  by rewrite (meta_entry_file _ _ _ _ Hkind).
Qed.

(** X13. What is walked can be opened: when the build of a directory
    succeeds and no two walked paths have the same rooted name, the
    generated section compiles, its [names] map has exactly one key per
    walked entry (the rooted names), and [Open] on any name whose cleaned
    form is the rooted name of a walked entry returns a handle on an entry
    with that entry's name, mode, modification time and kind, and for a
    non-directory with its size and a reader at the start of its content. *)
Theorem build_then_open (mo : MapOrder) (w : list chunk) (dir : string) (n : fsnode)
    (out sec : list chunk) :
  writeSection mo w dir n = (out, None) →
  out = w ++ sec →
  NoDup (map (fun v => rootedName (v_path v) dir) (walk_visits dir n)) →
  ∃ fs0,
    compile_section sec = Some fs0
    ∧ base.size (Template.names fs0) = length (walk_visits dir n)
    ∧ (∀ k ix, Template.names fs0 !! k = Some ix →
         ∃ v, v ∈ walk_visits dir n ∧ k = rootedName (v_path v) dir)
    ∧ (∀ v nm, v ∈ walk_visits dir n →
         path.Clean ("/" +:+ nm) = rootedName (v_path v) dir →
         ∃ af, Template.Open (Some fs0) nm = Ret (Some af, None)
               ∧ Template.fs af = fs0 ∧ Template.read af = 0
               ∧ Template.name (Template.fi af) = Name (v_info v)
               ∧ Template.mode (Template.fi af) = Mode (v_info v)
               ∧ Template.mtime (Template.fi af) = ModTime (v_info v)
               ∧ Template.isDir (Template.fi af) = IsDir (v_info v)
               ∧ (IsDir (v_info v) = false →
                    Template.size (Template.fi af) = Size (v_info v)
                    ∧ Template.rd af = Some (Template.NewReader (v_data v)))).
Proof.
  intros Hws Hout Hnd.
  destruct (built_names_exact _ _ _ _ _ _ Hws Hout Hnd) as (fs0 & Hcomp & Hsize & Hid & Hkeys).
  exists fs0. split; [done|]. split; [done|]. split; [done|].
  destruct (built_index_shape _ _ _ _ _ _ _ Hws Hout Hcomp) as (tr & Hrun & Hshape).
  cbv zeta in Hshape. destruct Hshape as (Hdata & Hmeta & _).
  apply run_visits_effect in Hrun as (_ & Hfm & Hdm & _ & _). simpl in Hfm, Hdm.
  rewrite Hfm, Hdm in Hmeta.
  set (sd := build_subdir _ _ _) in Hmeta. set (i2n := build_idx2name _) in Hmeta.
  intros v nm Hv Hnm.
  destruct (IsDir (v_info v)) eqn:Hkind.
  - assert (Hin : v ∈ filter is_dir (walk_visits dir n)) by (by apply list_elem_of_filter).
    apply list_elem_of_lookup_1 in Hin as [j Hj].
    pose proof (Hid (Z.of_nat (length (filter is_file (walk_visits dir n)) + j)) v) as Hname.
    unfold Template.Open. rewrite Hnm, Hname by (right; eauto).
    assert (Hm : Template.meta fs0 !! (length (filter is_file (walk_visits dir n)) + j)%nat
                 = Some (meta_entry sd i2n (length (filter is_file (walk_visits dir n)) + j)
                           (v_info v))).
    { rewrite Hmeta, list_lookup_imap.
      rewrite lookup_app_r by (rewrite length_map; lia).
      rewrite length_map. replace (_ + j - _)%nat with j by lia.
      by rewrite list_lookup_fmap, Hj. }
    rewrite (index_lookup _ _ _ Hm). cbn [go_bind].
    rewrite meta_entry_isDir, Hkind. cbn [negb].
    eexists. split; [reflexivity|]. cbn [Template.fs Template.read Template.fi Template.rd].
    rewrite meta_entry_isDir.
    destruct (meta_entry_fields sd i2n (length (filter is_file (walk_visits dir n)) + j)
                (v_info v)) as (-> & -> & ->).
    by repeat split.
  - rewrite (built_open_file _ _ _ _ _ _ _ Hws Hout Hnd Hcomp v nm Hv Hkind Hnm).
    eexists. split; [reflexivity|]. by repeat split.
Qed.

End RoundTripTheorem.

(** * Listing what was built *)

Section ListingInvariant.
Import Generator Invariant Scenario Layout.
Context {RT : Runtime}.

Lemma ranked_app (l l' : list visit) (ix : Z) (u : visit) :
  ranked l ix u → ranked (l ++ l') ix u.
Proof. intros [H0 Hl]. split; [done|]. by apply lookup_app_l_Some. Qed.

Lemma ranked_snoc (l : list visit) (u : visit) :
  ranked (l ++ [u]) (Z.of_nat (length l)) u.
Proof. split; [lia|]. rewrite Nat2Z.id. by apply list_lookup_middle. Qed.

(** A visit that does not belong under the key leaves its ranks alone. *)
Lemma ranked_filter_snoc_out (P Q : visit → Prop) `{∀ v, Decision (P v)} `{∀ v, Decision (Q v)}
    (seen post : list visit) (u : visit) (ids : list Z) :
  Forall2 (ranked (filter P seen)) ids (filter Q post) → ¬ Q u →
  Forall2 (ranked (filter P (seen ++ [u]))) ids (filter Q (post ++ [u])).
Proof.
  intros Hold Hu. rewrite (filter_app Q), (filter_cons_False Q) by done.
  rewrite filter_nil, app_nil_r, (filter_app P).
  eapply Forall2_impl; [exact Hold|]. intros ix w Hr. by apply ranked_app.
Qed.

(** A visit that belongs under the key is recorded last, by its rank. *)
Lemma ranked_filter_snoc_in (P Q : visit → Prop) `{∀ v, Decision (P v)} `{∀ v, Decision (Q v)}
    (seen post : list visit) (u : visit) (ids : list Z) :
  Forall2 (ranked (filter P seen)) ids (filter Q post) → P u → Q u →
  Forall2 (ranked (filter P (seen ++ [u]))) (ids ++ [Z.of_nat (length (filter P seen))])
    (filter Q (post ++ [u])).
Proof.
  intros Hold HP HQ. rewrite (filter_app Q), (filter_cons_True Q) by done.
  rewrite filter_nil, (filter_app P), (filter_cons_True P) by done. rewrite filter_nil.
  apply Forall2_app.
  - eapply Forall2_impl; [exact Hold|]. intros ix w Hr. by apply ranked_app.
  - constructor; [apply ranked_snoc|constructor].
Qed.

Lemma walkFunc_dirData_exact (tr tr' : tree) (seen : list visit) (v : visit) :
  dirData_exact tr seen →
  length (filesMeta tr) = length (filter is_file seen) →
  length (dirMeta tr) = length (filter is_dir seen) →
  walkFunc tr (v_path v) (v_info v) None (v_data v, None) = (tr', None) →
  dirData_exact tr' (seen ++ [v]).
Proof.
  intros Hinv Hlf Hld Hstep.
  (* an entry already there, under a key the new visit does not belong to *)
  assert (Hkeep : ∀ p di, dirData tr !! p = Some di → path.Dir (v_path v) ≠ p →
            ∃ pre v0 post,
              seen ++ [v] = pre ++ v0 :: post ∧ IsDir (v_info v0) = true ∧ v_path v0 = p
              ∧ Forall2 (ranked (filter is_file (seen ++ [v]))) (files di)
                  (filter (file_under p) post)
              ∧ Forall2 (ranked (filter is_dir (seen ++ [v]))) (subdirs di)
                  (filter (dir_under p) (v0 :: post))).
  { intros p di Hp Hne.
    destruct (Hinv p di Hp) as (pre & v0 & post & Hseen & Hd0 & Hp0 & Hfs & Hss).
    exists pre, v0, (post ++ [v]). split; [by rewrite Hseen, <- app_assoc|].
    split; [done|]. split; [done|]. split.
    - apply ranked_filter_snoc_out; [done|]. by intros [_ ?].
    - apply (ranked_filter_snoc_out is_dir (dir_under p) seen (v0 :: post)); [done|].
      by intros [_ ?]. }
  unfold walkFunc in Hstep. destruct (IsDir (v_info v)) eqn:Hkind.
  - injection Hstep as <-. intros p di Hp. cbn [dirData] in Hp.
    (* the entry of the directory itself *)
    assert (Hnew : ∀ sb, Forall2 (ranked (filter is_dir (seen ++ [v]))) sb
                           (filter (dir_under (v_path v)) [v]) →
              ∃ pre v0 post,
                seen ++ [v] = pre ++ v0 :: post ∧ IsDir (v_info v0) = true
                ∧ v_path v0 = v_path v
                ∧ Forall2 (ranked (filter is_file (seen ++ [v]))) []
                    (filter (file_under (v_path v)) post)
                ∧ Forall2 (ranked (filter is_dir (seen ++ [v]))) sb
                    (filter (dir_under (v_path v)) (v0 :: post))).
    { intros sb Hsb. exists seen, v, []. split; [done|]. split; [done|]. split; [done|].
      split; [rewrite filter_nil; constructor|done]. }
    destruct (decide (path.Dir (v_path v) = v_path v)) as [Hself|Hself].
    + rewrite Hself, lookup_insert_eq in Hp. cbn [files subdirs app] in Hp.
      rewrite insert_insert_eq in Hp.
      destruct (decide (p = v_path v)) as [->|Hpq].
      * rewrite lookup_insert_eq in Hp. injection Hp as <-. cbn [files subdirs].
        apply Hnew. rewrite (filter_cons_True (dir_under (v_path v))) by done.
        rewrite filter_nil. constructor; [|constructor].
        rewrite (filter_app is_dir), (filter_cons_True is_dir) by done.
        rewrite filter_nil, Hld. apply ranked_snoc.
      * rewrite lookup_insert_ne in Hp by done. apply Hkeep; [done|congruence].
    + rewrite lookup_insert_ne in Hp by done.
      destruct (dirData tr !! path.Dir (v_path v)) as [pi|] eqn:Hpar.
      * destruct (decide (p = path.Dir (v_path v))) as [->|Hp1].
        -- rewrite lookup_insert_eq in Hp. injection Hp as <-. cbn [files subdirs].
           destruct (Hinv _ pi Hpar) as (pre & v0 & post & Hseen & Hd0 & Hp0 & Hfs & Hss).
           exists pre, v0, (post ++ [v]). split; [by rewrite Hseen, <- app_assoc|].
           split; [done|]. split; [done|]. split.
           ++ apply ranked_filter_snoc_out; [done|]. intros [Hf _]. congruence.
           ++ rewrite Hld.
              by apply (ranked_filter_snoc_in is_dir (dir_under (path.Dir (v_path v)))
                          seen (v0 :: post)).
        -- rewrite lookup_insert_ne in Hp by done.
           destruct (decide (p = v_path v)) as [->|Hp2].
           ++ rewrite lookup_insert_eq in Hp. injection Hp as <-. cbn [files subdirs].
              apply Hnew. rewrite (filter_cons_False (dir_under (v_path v)))
                by (by intros [_ ?]).
              rewrite filter_nil. constructor.
           ++ rewrite lookup_insert_ne in Hp by done. apply Hkeep; [done|congruence].
      * destruct (decide (p = v_path v)) as [->|Hp2].
        -- rewrite lookup_insert_eq in Hp. injection Hp as <-. cbn [files subdirs].
           apply Hnew. rewrite (filter_cons_False (dir_under (v_path v)))
             by (by intros [_ ?]).
           rewrite filter_nil. constructor.
        -- rewrite lookup_insert_ne in Hp by done. apply Hkeep; [done|].
           intros Heq. rewrite Heq in Hpar. congruence.
  - destruct (maxFileSize <? Size (v_info v)); [discriminate|].
    injection Hstep as <-. intros p di Hp. cbn [dirData] in Hp.
    destruct (dirData tr !! path.Dir (v_path v)) as [pi|] eqn:Hpar.
    + destruct (decide (p = path.Dir (v_path v))) as [->|Hp1].
      * rewrite lookup_insert_eq in Hp. injection Hp as <-. cbn [files subdirs].
        destruct (Hinv _ pi Hpar) as (pre & v0 & post & Hseen & Hd0 & Hp0 & Hfs & Hss).
        exists pre, v0, (post ++ [v]). split; [by rewrite Hseen, <- app_assoc|].
        split; [done|]. split; [done|]. split.
        -- rewrite Hlf. by apply ranked_filter_snoc_in.
        -- apply (ranked_filter_snoc_out is_dir (dir_under (path.Dir (v_path v)))
                    seen (v0 :: post)); [done|].
           intros [Hd _]. congruence.
      * rewrite lookup_insert_ne in Hp by done. apply Hkeep; [done|congruence].
    + apply Hkeep; [done|]. intros Heq. rewrite Heq in Hpar. congruence.
Qed.

Lemma run_visits_dirData_exact (vs seen : list visit) (tr tr' : tree) :
  dirData_exact tr seen →
  length (filesMeta tr) = length (filter is_file seen) →
  length (dirMeta tr) = length (filter is_dir seen) →
  run_visits vs tr = (tr', None) →
  dirData_exact tr' (seen ++ vs).
Proof.
  revert seen tr. induction vs as [|v vs IH]; intros seen tr Hinv Hlf Hld.
  - intros [= <-]. by rewrite app_nil_r.
  - rewrite run_visits_cons.
    destruct (walkFunc tr _ _ _ _) as [tr1 [e|]] eqn:Hstep; [discriminate|].
    intros Hrun. rewrite (cons_middle v seen vs), app_assoc.
    pose proof (walkFunc_effect _ _ _ Hstep) as (_ & Hf1 & Hd1 & _ & _).
    eapply IH; [by eapply walkFunc_dirData_exact| | |exact Hrun].
    + rewrite Hf1, (filter_app is_file), !length_app, length_map. lia.
    + rewrite Hd1, (filter_app is_dir), !length_app, length_map. lia.
Qed.

(** In a list without two elements of the same key, the place of an
    element is fixed by its key. *)
Lemma NoDup_split_unique {A B} (f : A → B) (pre pre' post post' : list A) (v v' : A) :
  NoDup (f <$> (pre ++ v :: post)) →
  pre ++ v :: post = pre' ++ v' :: post' → f v = f v' →
  pre = pre' ∧ v = v' ∧ post = post'.
Proof.
  revert pre'. induction pre as [|a pre IH]; intros [|a' pre'] Hnd Heq Hf.
  - by injection Heq as -> ->.
  - injection Heq as -> ->. cbn in Hnd. apply NoDup_cons in Hnd as [Hnin _].
    destruct Hnin. rewrite Hf. apply list_elem_of_fmap. exists v'. split; [done|].
    apply elem_of_app. right. left.
  - injection Heq as -> <-. cbn in Hnd. apply NoDup_cons in Hnd as [Hnin _].
    destruct Hnin. rewrite <- Hf. apply list_elem_of_fmap. exists v. split; [done|].
    apply elem_of_app. right. left.
  - injection Heq as -> Heq. cbn in Hnd. apply NoDup_cons in Hnd as [_ Hnd].
    destruct (IH pre' Hnd Heq Hf) as (-> & -> & ->). done.
Qed.

(** Ranks resolve, in the entries, to descriptions of the visits ranked. *)
Lemma ranked_resolves (mt : list Template._itemMetadata) (l : list visit) (off : nat)
    (ids : list Z) (us : list visit) :
  (∀ (k : nat) u, l !! k = Some u →
     ∃ m, mt !! (off + k)%nat = Some m ∧ describes m u) →
  Forall2 (ranked l) ids us →
  ∃ es, Client.resolves mt (map (fun x => x + Z.of_nat off) ids) es ∧ Forall2 describes es us.
Proof.
  intros Hmt. induction 1 as [|ix u ids us [H0 Hu] _ (es & Hres & Hdes)].
  - exists []. split; constructor.
  - destruct (Hmt _ _ Hu) as (m & Hm & Hd). exists (m :: es). split; [|by constructor].
    constructor; [|done].
    replace (ix + Z.of_nat off) with (Z.of_nat (off + Z.to_nat ix)) by lia.
    by apply index_lookup.
Qed.

Lemma Readdir_fresh_all (af : Template._assetFile) (es : list Template._itemMetadata)
    (count : Z) :
  Template.isDir (Template.fi af) = true → Template.read af = 0 →
  Client.resolves (Template.meta (Template.fs af)) (Template.children (Template.fi af)) es →
  count ≤ 0 →
  Template.Readdir af count
  = Ret (Template.set_read af (Z.of_nat (length es)), (es, None)).
Proof.
  intros Hd Hr Hres Hc. destruct es as [|e es].
  - rewrite Readdir_exhausted; [|done|].
    + destruct (Z.ltb_spec 0 count); [lia|].
      rewrite <- (set_read_same af) at 1. by rewrite Hr.
    + apply resolves_length in Hres. rewrite Hres. cbn [length]. lia.
  - rewrite (Readdir_unbounded af (e :: es)); [|done|done|done|].
    + by rewrite Hr.
    + rewrite Hr. cbn [length]. lia.
Qed.

(** The children written for a directory of a build whose walked paths
    have pairwise distinct rooted names: the ranks of the non-directories
    filed under it, then the ranks of the directories filed under it, each
    moved up by the number of non-directories. *)
Lemma built_children_exact (mo : MapOrder) (w : list chunk) (dir : string) (n : fsnode)
    (out sec : list chunk) (fs0 : Template._assetfs) :
  writeSection mo w dir n = (out, None) →
  out = w ++ sec →
  NoDup (map (fun v => rootedName (v_path v) dir) (walk_visits dir n)) →
  compile_section sec = Some fs0 →
  let fls := filter is_file (walk_visits dir n) in
  let drs := filter is_dir (walk_visits dir n) in
  ∀ pre v post (j : nat),
    walk_visits dir n = pre ++ v :: post → drs !! j = Some v →
    ∃ m fl sb,
      Template.meta fs0 !! (length fls + j)%nat = Some m
      ∧ Template.children m = fl ++ map (fun x => x + Z.of_nat (length fls)) sb
      ∧ Forall2 (ranked fls) fl (filter (file_under (v_path v)) post)
      ∧ Forall2 (ranked drs) sb (filter (dir_under (v_path v)) (v :: post)).
Proof.
  intros Hws Hout Hnd Hcomp fls drs. subst fls drs.
  destruct (built_index_shape _ _ _ _ _ _ _ Hws Hout Hcomp) as (tr & Hrun & Hshape).
  cbv zeta in Hshape. destruct Hshape as (_ & Hmeta & _).
  assert (Hnd' : NoDup ((fun p => rootedName p dir) <$> (v_path <$> walk_visits dir n))).
  { by rewrite <- list_fmap_compose. }
  assert (Hpaths : NoDup (v_path <$> walk_visits dir n)) by by eapply NoDup_fmap_1.
  assert (Hsound : names_sound tr (walk_visits dir n)).
  { eapply (run_visits_names_sound (walk_visits dir n) []); [|done|exact Hrun].
    split; simpl; intros p; rewrite ?lookup_empty; done. }
  assert (Hexact : names_exact tr (walk_visits dir n)).
  { eapply (run_visits_names_exact (walk_visits dir n) []); [| |done|exact Hrun].
    - split; simpl; intros p; rewrite ?lookup_empty; done.
    - split; simpl; try done; intros k v; rewrite filter_nil; by intros ?%lookup_nil_Some. }
  assert (Hdd : dirData_exact tr (walk_visits dir n)).
  { apply (fun H1 H2 H3 =>
             run_visits_dirData_exact (walk_visits dir n) [] _ tr H1 H2 H3 Hrun); [|done|done].
    intros p di. cbn [dirData]. by rewrite lookup_empty. }
  pose proof (run_visits_effect _ _ _ Hrun) as (Hroot & Hfm & Hdm & _ & _).
  cbn [root filesMeta dirMeta app] in Hroot, Hfm, Hdm.
  clear Hws Hrun. subst dir.
  destruct (indexes_exact mo tr (walk_visits (root tr) n) Hsound Hnd')
    as (_ & Hix & Hto & _ & _).
  set (vs := walk_visits (root tr) n) in *.
  set (F := Z.of_nat (length (filesMeta tr))) in *.
  set (ixs := build_indexes _ _ _ _) in *. set (i2n := build_idx2name _) in *.
  set (sd := build_subdir _ _ _) in *.
  destruct Hexact as [Hlf Hld _ _ Hd].
  intros pre v post j Hwalk Hj.
  assert (Hkind : IsDir (v_info v) = true).
  { apply list_elem_of_lookup_2 in Hj. by apply list_elem_of_filter in Hj as [? _]. }
  destruct (Hd _ _ Hj) as [Hname [di Hdi]].
  assert (Hkey : i2n !! Z.of_nat (length (filesMeta tr) + j)
                 = Some (rootedName (v_path v) (root tr))).
  { apply Hto. rewrite (Hix _ _ Hname), Hdi. f_equal. subst F. lia. }
  assert (Hsd : sd !! rootedName (v_path v) (root tr)
                = Some (files di ++ map (fun x => x + F) (subdirs di))).
  { subst sd. unfold build_subdir.
    apply (foldl_insert_lookup_Some
             (fun kv : string * dirInfo => rootedName (fst kv) (root tr))
             (fun kv : string * dirInfo =>
                files (snd kv) ++ map (fun x => x + F) (subdirs (snd kv)))
             _ (v_path v, di)).
    - rewrite (range_of_perm mo). apply (rooted_keys_NoDup _ vs); [|done].
      intros p Hp. by apply (ns_dirs _ _ Hsound).
    - rewrite (range_of_perm mo). by apply elem_of_map_to_list. }
  destruct (Hdd _ _ Hdi) as (pre' & v' & post' & Hwalk' & _ & Hp' & Hfs & Hss).
  destruct (NoDup_split_unique v_path pre' pre post' post v' v) as (-> & -> & ->);
    [by rewrite <- Hwalk'|by rewrite <- Hwalk', Hwalk|done|].
  exists (meta_entry sd i2n (length (filesMeta tr) + j) (v_info v)), (files di), (subdirs di).
  rewrite <- Hlf. fold F. split; [|split; [|done]].
  - rewrite Hmeta, list_lookup_imap.
    rewrite lookup_app_r by lia. replace (_ + j - _)%nat with j by lia.
    by rewrite Hdm, list_lookup_fmap, Hj.
  - unfold meta_entry. rewrite Hkind. cbn [negb Template.children]. rewrite Hkey.
    cbn [default from_option id]. rewrite Hsd. done.
Qed.

End ListingInvariant.

(** * The identity layout of a built index *)

Section IdentityLayout.
Import Generator Invariant Scenario Layout.

(** C3. Identity layout of a built index: the data slice holds the contents
    of the non-directory entries in the order visited; the entries slice
    holds first those [F] entries (identities [0..F-1], not directories) and
    then the [D] directories in the order discovered (the directory
    discovered [j]-th has identity [F + j]); [data[i]] exists exactly when
    [meta[i]] exists and is not a directory; every identity in the [names]
    map is below [F + D]; hence [Open] never indexes out of bounds.  The
    identities written into the index follow that layout: the children of
    every entry are identities below [F] followed by identities from [F]
    on; and when no two walked paths have the same rooted name, [names]
    maps the rooted name of the [i]-th non-directory to [i] and that of
    the [j]-th directory to [j + F], and the children of the [j]-th
    directory are the ranks of the non-directories filed under it followed
    by the discovery numbers of the directories filed under it, each plus
    [F]. *)
Theorem C3_identity_layout (mo : MapOrder) (w : list chunk) (dir : string) (n : fsnode)
    (out sec : list chunk) (fs0 : Template._assetfs) :
  writeSection mo w dir n = (out, None) →
  out = w ++ sec →
  compile_section sec = Some fs0 →
  let fls := filter is_file (walk_visits dir n) in
  let drs := filter is_dir (walk_visits dir n) in
  Template.data fs0 = map v_data fls ∧
  length (Template.meta fs0) = (length fls + length drs)%nat ∧
  (∀ (i : nat) v, fls !! i = Some v →
     Template.meta fs0 !! i
     = Some {| Template.name := Name (v_info v); Template.size := Size (v_info v);
               Template.mode := Mode (v_info v); Template.mtime := ModTime (v_info v);
               Template.isDir := false; Template.children := [] |}) ∧
  (∀ (j : nat) v, drs !! j = Some v →
     ∃ m, Template.meta fs0 !! (length fls + j)%nat = Some m
          ∧ Template.isDir m = true ∧ Template.name m = Name (v_info v)
          ∧ Template.mode m = Mode (v_info v) ∧ Template.mtime m = ModTime (v_info v)) ∧
  (∀ i : nat, is_Some (Template.data fs0 !! i) ↔ (i < length fls)%nat) ∧
  (∀ i : nat, is_Some (Template.data fs0 !! i)
     ↔ ∃ m, Template.meta fs0 !! i = Some m ∧ Template.isDir m = false) ∧
  (∀ k ix, Template.names fs0 !! k = Some ix →
     0 ≤ ix < Z.of_nat (length fls + length drs)) ∧
  (∀ nm, ∃ r, Template.Open (Some fs0) nm = Ret r) ∧
  (∀ m, m ∈ Template.meta fs0 →
     ∃ fl sb, Template.children m = fl ++ sb
              ∧ Forall (fun x => 0 ≤ x < Z.of_nat (length fls)) fl
              ∧ Forall (fun x => Z.of_nat (length fls) ≤ x
                                 < Z.of_nat (length fls) + Z.of_nat (length drs)) sb) ∧
  (NoDup (map (fun v => rootedName (v_path v) dir) (walk_visits dir n)) →
     (∀ (i : nat) v, fls !! i = Some v →
        Template.names fs0 !! rootedName (v_path v) dir = Some (Z.of_nat i)) ∧
     (∀ (j : nat) v, drs !! j = Some v →
        Template.names fs0 !! rootedName (v_path v) dir
        = Some (Z.of_nat j + Z.of_nat (length fls))) ∧
     (∀ pre v post (j : nat),
        walk_visits dir n = pre ++ v :: post → drs !! j = Some v →
        ∃ m fl sb,
          Template.meta fs0 !! (length fls + j)%nat = Some m
          ∧ Template.children m = fl ++ map (fun x => x + Z.of_nat (length fls)) sb
          ∧ Forall2 (ranked fls) fl (filter (file_under (v_path v)) post)
          ∧ Forall2 (ranked drs) sb (filter (dir_under (v_path v)) (v :: post)))).
Proof.
  intros Hws Hout Hcomp fls drs.
  pose proof (built_identity_layout _ _ _ _ _ _ _ Hws Hout Hcomp) as Hold.
  cbv zeta in Hold. fold fls drs in Hold.
  destruct Hold as (H1 & H2 & H3 & H4 & H5 & H6 & H7 & H8).
  do 8 (split; [assumption|]). split.
  - intros m Hm.
    destruct (built_children_layout _ _ _ _ _ _ _ m Hws Hout Hcomp Hm) as [Hlay _].
    exact Hlay.
  - intros Hnd.
    destruct (built_names_exact _ _ _ _ _ _ Hws Hout Hnd) as (fs1 & Hcomp1 & _ & Hid & _).
    rewrite Hcomp in Hcomp1. injection Hcomp1 as <-. split; [|split].
    + intros i v Hv. apply Hid. left. eauto.
    + intros j v Hv.
      replace (Z.of_nat j + Z.of_nat (length fls)) with (Z.of_nat (length fls + j)) by lia.
      apply Hid. right. eauto.
    + exact (built_children_exact _ _ _ _ _ _ _ Hws Hout Hnd Hcomp).
Qed.

End IdentityLayout.

(** * Whole builds *)

Section BuildFacts.
Import Generator Invariant Scenario Layout FileClient.
Context {RT : Runtime}.

(** X14. Every built index is sound for the runtime: the children of each
    entry are identities of non-directories (below the number [F] of
    those), followed by identities of directories (from [F] on and below
    the number of entries), never interleaved, so all of them resolve in
    the entries slice; hence no sequence of calls on a handle opened on a
    built index panics, as long as no [Readdir] in it asks for more
    entries than the run can allocate a slice for. *)
Theorem built_index_sound (mo : MapOrder) (w : list chunk) (dir : string) (n : fsnode)
    (out sec : list chunk) (fs0 : Template._assetfs) :
  writeSection mo w dir n = (out, None) →
  out = w ++ sec →
  compile_section sec = Some fs0 →
  let F := Z.of_nat (length (filter is_file (walk_visits dir n))) in
  let D := Z.of_nat (length (filter is_dir (walk_visits dir n))) in
  (∀ m, m ∈ Template.meta fs0 →
     ∃ fl sb, Template.children m = fl ++ sb
              ∧ Forall (fun x => 0 ≤ x < F) fl ∧ Forall (fun x => F ≤ x < F + D) sb)
  ∧ index_ok fs0
  ∧ (∀ nm af cs, Template.Open (Some fs0) nm = Ret (Some af, None) →
       Forall affordable cs →
       ∃ af' rs, Client.run cs af = Ret (af', rs)).
Proof.
  intros Hws Hout Hcomp F D.
  assert (Hok : index_ok fs0).
  { intros m Hm. by destruct (built_children_layout _ _ _ _ _ _ _ m Hws Hout Hcomp Hm). }
  split; [|split; [done|]].
  - intros m Hm. by destruct (built_children_layout _ _ _ _ _ _ _ m Hws Hout Hcomp Hm).
  - intros nm af cs Hopen Hroom.
    destruct (run_ok cs af) as (af' & rs & Hrun & _); [by eapply Open_handle_ok|done|]. eauto.
Qed.

Lemma write_sections_order_irrelevant (mo1 mo2 : MapOrder) (dirs : list (string * fsnode))
    (w : list chunk) :
  Forall (fun d => NoDup (map (fun v => rootedName (v_path v) (path.Clean (fst d)))
                            (walk_visits (path.Clean (fst d)) (snd d)))) dirs →
  write_sections mo1 w dirs = write_sections mo2 w dirs.
Proof.
  intros Hall. revert w. induction Hall as [|[dir n] dirs Hd _ IH]; intros w; [done|].
  cbn [write_sections]. simpl in Hd.
  rewrite (writeSection_order_irrelevant mo1 mo2 w _ _ Hd).
  destruct (writeSection mo2 w (path.Clean dir) n) as [w' [e|]]; [done|]. apply IH.
Qed.

(** X15. Builds are reproducible when rooted names do not collide: if in
    each directory argument no two walked paths have the same rooted name,
    then [generateMain] returns the same result (the same file, or the
    same error) whatever order the Go run enumerates its maps in. *)
Theorem generateMain_reproducible (mo1 mo2 : MapOrder) (filename pkg tag : string)
    (dirs : list (string * fsnode)) :
  Forall (fun d => NoDup (map (fun v => rootedName (v_path v) (path.Clean (fst d)))
                            (walk_visits (path.Clean (fst d)) (snd d)))) dirs →
  generateMain mo1 filename pkg tag dirs = generateMain mo2 filename pkg tag dirs.
Proof.
  intros Hall. unfold generateMain.
  by rewrite (write_sections_order_irrelevant mo1 mo2 dirs _ Hall).
Qed.

(** X16. An empty directory builds into an index that holds the root and
    nothing else: for a root whose parent path is not the root itself, the
    section written has no data, one directory entry carrying the name,
    mode and modification time of the root and no children, and the single
    name ["/"]; opening ["/"] (or the empty name) succeeds, an unbounded
    listing returns nothing without error and a bounded one [io.EOF]. *)
Theorem empty_directory_build (mo : MapOrder) (dir nm : string) (sz md mt : Z) :
  path.Dir dir ≠ dir →
  let root_entry := {| Template.name := nm; Template.size := 0; Template.mode := md;
                       Template.mtime := mt; Template.isDir := true;
                       Template.children := [] |} in
  let fs0 := {| Template.data := []; Template.meta := [root_entry];
                Template.names := {[ "/"%string := 0 ]} |} in
  let af := {| Template.rd := None; Template.fi := root_entry; Template.fs := fs0;
               Template.read := 0 |} in
  writeSection mo [] dir (FsDir nm sz md mt [])
  = ([SectionOpen dir; MetaOpen; MetaItem root_entry; NamesOpen; NameItem "/" 0;
      SectionClose], None)
  ∧ compile_section [SectionOpen dir; MetaOpen; MetaItem root_entry; NamesOpen;
                     NameItem "/" 0; SectionClose] = Some fs0
  ∧ Template.Open (Some fs0) "/" = Ret (Some af, None)
  ∧ Template.Open (Some fs0) "" = Ret (Some af, None)
  ∧ (∀ nm', path.Clean ("/" +:+ nm') ≠ "/"%string →
       Template.Open (Some fs0) nm' = Ret (None, Some ErrNotExist))
  ∧ (∀ count, count ≤ 0 → Template.Readdir af count = Ret (af, ([], None)))
  ∧ (∀ count, 0 < count → Template.Readdir af count = Ret (af, ([], Some EOF))).
Proof.
  intros Hparent root_entry fs0 af.
  split; [|split; [|split; [|split; [|split; [|split]]]]].
  - rewrite (writeSection_order_irrelevant mo canonical_order)
      by (simpl; repeat constructor; set_solver).
    unfold writeSection, Walk. cbn [walk_visits map sort_names foldr concat root].
    rewrite run_visits_cons. unfold walkFunc. cbn [Lstat IsDir v_info v_path].
    cbn [dirData dirMeta names filesMeta wr root length app].
    rewrite lookup_insert_ne by done. rewrite lookup_empty.
    cbn [run_visits]. unfold writeMetadata.
    cbn [dirData dirMeta names filesMeta wr root length app range_of canonical_order].
    rewrite !insert_empty, !map_to_list_singleton.
    unfold build_indexes, build_subdir. cbn [foldl fst snd files subdirs map app].
    rewrite lookup_singleton_eq, rootedName_root, !insert_empty.
    rewrite map_to_list_singleton, map_size_singleton.
    unfold build_idx2name. cbn [foldl fst snd seq map imap]. rewrite insert_empty.
    unfold meta_entry. cbn [IsDir negb Name Mode ModTime].
    change (Z.of_nat 0) with 0. change (0 + 0) with 0.
    rewrite !lookup_singleton_eq. done.
  - unfold compile_section. cbn.
    rewrite decide_True by (repeat constructor; set_solver).
    by rewrite insert_empty.
  - unfold Template.Open. change (path.Clean ("/" +:+ "/")) with "/"%string.
    cbn [Template.names fs0]. rewrite lookup_singleton_eq. done.
  - unfold Template.Open. change (path.Clean ("/" +:+ "")) with "/"%string.
    cbn [Template.names fs0]. rewrite lookup_singleton_eq. done.
  - intros nm' Hne. unfold Template.Open. cbn [Template.names fs0].
    by rewrite lookup_singleton_ne.
  - intros count Hc. unfold Template.Readdir. cbn.
    by destruct (Z.leb_spec count 0); [|lia].
  - intros count Hc. unfold Template.Readdir. cbn.
    by destruct (Z.leb_spec count 0); [lia|].
Qed.

End BuildFacts.

(** * The command *)

Section CommandFacts.
Import Generator Scenario Command.

Lemma run_visits_first (pre post : list visit) (v : visit) (tr : tree) :
  Forall (fun v => ¬ oversized v) pre → oversized v →
  ∃ tr', run_visits (pre ++ v :: post) tr = (tr', Some (ErrFileSize (v_path v))).
Proof.
  intros Hpre Hv. revert tr. induction Hpre as [|u pre Hu _ IH]; intros tr.
  - exists tr. simpl. by rewrite walkFunc_oversized.
  - destruct (walkFunc_within tr u Hu) as [tr1 Htr1].
    destruct (IH tr1) as [tr' Hrun]. exists tr'. simpl. by rewrite Htr1.
Qed.

Lemma write_sections_first (mo : MapOrder) (dirs : list (string * fsnode))
    (pre post : list visit) (v : visit) (w : list chunk) :
  all_visits dirs = pre ++ v :: post →
  Forall (fun v => ¬ oversized v) pre → oversized v →
  ∃ w', write_sections mo w dirs = (w', Some (ErrFileSize (v_path v))).
Proof.
  revert pre w. induction dirs as [|[dir n] dirs IH]; intros pre w Heq Hpre Hv.
  { by destruct pre. }
  unfold all_visits in Heq. cbn [map concat fst snd] in Heq.
  fold (all_visits dirs) in Heq.
  set (tr0 := {| wr := w ++ [SectionOpen (path.Clean dir)]; root := path.Clean dir;
                 filesMeta := []; dirMeta := []; names := ∅; dirData := ∅ |}).
  assert (Hws : writeSection mo w (path.Clean dir) n
                = match run_visits (walk_visits (path.Clean dir) n) tr0 with
                  | (tr', Some e) => (wr tr', Some e)
                  | (tr', None) => (wr (writeMetadata mo tr'), None)
                  end) by done.
  cbn [write_sections]. rewrite Hws. clear Hws.
  apply app_eq_inv in Heq as [(k & Hwalk & Hk)|(k & Hpre' & Hrest)].
  - destruct k as [|u k].
    + rewrite app_nil_r in Hwalk. simpl in Hk. subst pre.
      destruct (run_visits_within _ tr0 Hpre) as (tr' & Hrun). rewrite Hrun.
      by apply (IH []).
    + injection Hk as <- Hpost. rewrite Hwalk.
      destruct (run_visits_first pre k v tr0 Hpre Hv) as (tr' & Hrun). rewrite Hrun. eauto.
  - subst pre. apply Forall_app in Hpre as [Hhere Hk].
    destruct (run_visits_within _ tr0 Hhere) as (tr' & Hrun). rewrite Hrun.
    by apply (IH k).
Qed.

(** X17. Which file the size error names: the entries of all the
    directory arguments taken in the order they are walked (the arguments
    in order, each tree depth first with the names of a directory in
    lexical order), the error returned is the one for the first
    non-directory larger than the limit; what comes after it is not
    looked at. *)
Theorem first_oversized_reported (mo : MapOrder) (filename pkg tag : string)
    (dirs : list (string * fsnode)) (pre post : list visit) (v : visit) :
  filename ≠ ""%string →
  all_visits dirs = pre ++ v :: post →
  Forall (fun u => ¬ oversized u) pre →
  oversized v →
  generateMain mo filename pkg tag dirs = inl (ErrFileSize (v_path v)).
Proof.
  intros Hname Heq Hpre Hv. unfold generateMain.
  rewrite (proj2 (String.eqb_neq _ _) Hname).
  destruct (write_sections_first mo dirs pre post v [Header pkg tag; Head] Heq Hpre Hv)
    as (w' & Hws).
  by rewrite Hws.
Qed.

Lemma append_inj_l (g a b : string) : g +:+ a = g +:+ b → a = b.
Proof. induction g as [|c g IH]; simpl; [done|]. intros [= H]. by apply IH. Qed.

Lemma append_nonempty (g a : string) : a ≠ ""%string → g +:+ a ≠ ""%string.
Proof. intros Ha. by destruct g. Qed.

(** X18. Under [go generate] with no flags ([GOFILE] set by the tool,
    [GOPACKAGE] not empty, at least one directory argument) no validation
    of [main] fails whatever the name of the source file: the generated
    file is named after the source file without its [.go] suffix followed
    by [_assetfs.go] and has no build tag, and when generation succeeds
    the stub is written to the same base name followed by
    [_assetfs-dev.go] with the tag [dev]; when generation fails [main]
    ends with that error and writes no stub. *)
Theorem main_go_generate_defaults (mo : MapOrder) (GOPACKAGE gofile : string)
    (args : list (string * fsnode)) :
  GOPACKAGE ≠ ""%string →
  args ≠ [] →
  let base := TrimSuffix gofile ".go" in
  main mo GOPACKAGE (Some gofile) no_flags args
  = match generateMain mo (base +:+ "_assetfs.go") GOPACKAGE "" args with
    | inl e => FatalErr e
    | inr out => Done (base +:+ "_assetfs.go", out)
                      (Some (base +:+ "_assetfs-dev.go", StubFile GOPACKAGE "dev"))
    end.
Proof.
  intros Hpkg Hargs base. unfold main.
  cbn [parse_flags initial_params no_flags flag_out flag_dev flag_tag flag_devtag flag_name
       default FullOutput DevOutput FullTag DevTag Package from_option id].
  fold base.
  rewrite (proj2 (String.eqb_neq GOPACKAGE "") Hpkg).
  assert (H1 : String.eqb (base +:+ "_assetfs.go") "" = false).
  { apply String.eqb_neq. by apply append_nonempty. }
  assert (H2 : String.eqb (base +:+ "_assetfs.go") (base +:+ "_assetfs-dev.go") = false).
  { apply String.eqb_neq. intros H. by apply append_inj_l in H. }
  assert (H3 : String.eqb (base +:+ "_assetfs-dev.go") "" = false).
  { apply String.eqb_neq. by apply append_nonempty. }
  rewrite H1, H2, H3. cbn [negb andb].
  change (String.eqb "" "dev") with false. cbn match.
  destruct args as [|a args]; [done|]. cbn [length Nat.eqb].
  destruct (generateMain mo (base +:+ "_assetfs.go") GOPACKAGE "" (a :: args)); [done|].
  unfold generateStub. by rewrite H3.
Qed.

(** X19. What [main] never does.  When it ends normally: the package
    name and the output path are not empty, at least one directory was
    given, the generated file holds what [generateMain] produced for the
    parameters, a stub is written exactly when the stub path is not
    empty, and then the stub path differs from the output path and the
    stub's build tag from the tag of the generated file.  When generation
    fails it ends with that error and no stub is written. *)
Theorem main_outcome (mo : MapOrder) (GOPACKAGE : string) (GOFILE : option string)
    (fl : flags) (args : list (string * fsnode)) :
  let p := parse_flags fl (initial_params GOPACKAGE GOFILE) in
  (∀ full dev, main mo GOPACKAGE GOFILE fl args = Done full dev →
     Package p ≠ ""%string ∧ FullOutput p ≠ ""%string ∧ args ≠ []
     ∧ fst full = FullOutput p
     ∧ generateMain mo (FullOutput p) (Package p) (FullTag p) args = inr (snd full)
     ∧ (dev = None ↔ DevOutput p = ""%string)
     ∧ (∀ d st, dev = Some (d, st) →
          d = DevOutput p ∧ d ≠ FullOutput p ∧ st = StubFile (Package p) (DevTag p)
          ∧ DevTag p ≠ FullTag p))
  ∧ (∀ e, main mo GOPACKAGE GOFILE fl args = FatalErr e →
       generateMain mo (FullOutput p) (Package p) (FullTag p) args = inl e).
Proof.
  intros p. unfold main. fold p.
  destruct (String.eqb_spec (Package p) "") as [|Hpkg]; [done|].
  destruct (String.eqb_spec (FullOutput p) "") as [|Hout]; [done|].
  destruct (String.eqb_spec (FullOutput p) (DevOutput p)) as [|Hdiff]; [done|].
  destruct (String.eqb_spec (DevOutput p) "") as [Hdev|Hdev]; cbn [negb andb].
  - destruct args as [|a args]; [done|]. cbn [length Nat.eqb].
    destruct (generateMain mo (FullOutput p) (Package p) (FullTag p) (a :: args))
      as [e|out]; split; try done.
    + by intros e' [= ->].
    + intros full dev [= <- <-]. by repeat (split; [done|]).
  - destruct (String.eqb_spec (FullTag p) (DevTag p)) as [|Htag]; [done|].
    destruct args as [|a args]; [done|]. cbn [length Nat.eqb].
    destruct (generateMain mo (FullOutput p) (Package p) (FullTag p) (a :: args))
      as [e|out].
    + split; [done|]. by intros e' [= ->].
    + unfold generateStub. rewrite (proj2 (String.eqb_neq _ _) Hdev).
      split; [|done]. intros full dev [= <- <-].
      do 5 (split; [done|]). split; [done|].
      intros d st [= <- <-]. by repeat split.
Qed.

End CommandFacts.

(** * The order of directory listings *)

Section ListingFacts.
Import Generator Layout.

Lemma leb_trans (s1 s2 s3 : string) :
  String.leb s1 s2 = true → String.leb s2 s3 = true → String.leb s1 s3 = true.
Proof.
  revert s2 s3. induction s1 as [|c1 s1 IH]; intros [|c2 s2] [|c3 s3]; try done.
  unfold String.leb. cbn [String.compare]. unfold Ascii.compare.
  destruct (N.compare_spec (N_of_ascii c1) (N_of_ascii c2)) as [E12|L12|G12];
    destruct (N.compare_spec (N_of_ascii c2) (N_of_ascii c3)) as [E23|L23|G23];
    try done;
    destruct (N.compare_spec (N_of_ascii c1) (N_of_ascii c3)) as [E13|L13|G13];
    try done; try lia.
  intros H12 H23. by apply (IH s2 s3).
Qed.

Lemma insert_by_name_sorted {A} (x : string * A) (l : list (string * A)) :
  StronglySorted by_name l → StronglySorted by_name (insert_by_name x l).
Proof.
  induction 1 as [|y l Hl IH Hy]; cbn [insert_by_name].
  - by repeat constructor.
  - destruct (String.leb (fst x) (fst y)) eqn:Hxy.
    + constructor; [by constructor|]. constructor; [done|].
      eapply Forall_impl; [exact Hy|]. intros z Hz. by eapply leb_trans.
    + constructor; [done|]. rewrite insert_by_name_perm. constructor; [|done].
      destruct (String.leb_total (fst x) (fst y)) as [H|H]; [congruence|done].
Qed.

Lemma sort_names_sorted {A} (l : list (string * A)) : StronglySorted by_name (sort_names l).
Proof.
  induction l as [|x l IH]; [constructor|]. by apply insert_by_name_sorted.
Qed.

Lemma NoDup_keys_eq {A} (l : list (string * A)) (x y : string * A) :
  NoDup (map fst l) → x ∈ l → y ∈ l → fst x = fst y → x = y.
Proof.
  induction l as [|z l IH]; intros Hnd Hx Hy Hfst; [by apply elem_of_nil in Hx|].
  cbn [map] in Hnd. apply NoDup_cons in Hnd as [Hz Hnd].
  apply elem_of_cons in Hx as [->|Hx]; apply elem_of_cons in Hy as [->|Hy]; try done.
  - destruct Hz. rewrite Hfst. apply list_elem_of_fmap. by exists y.
  - destruct Hz. rewrite <- Hfst. apply list_elem_of_fmap. by exists x.
  - by apply IH.
Qed.

(** Sorting by name forgets the order of a listing whose names are
    distinct. *)
Lemma sort_names_unique {A} (l1 l2 : list (string * A)) :
  NoDup (map fst l1) → l1 ≡ₚ l2 → sort_names l1 = sort_names l2.
Proof.
  intros Hnd Hperm.
  apply (StronglySorted_unique_strong by_name); try apply sort_names_sorted.
  - intros x1 x2 H1 H2 H12 H21.
    rewrite sort_names_perm in H1. rewrite sort_names_perm, <- Hperm in H2.
    apply (NoDup_keys_eq l1); try done. by apply String.leb_antisym.
  - by rewrite !sort_names_perm.
Qed.

Lemma relisted_name (n1 n2 : fsnode) : relisted n1 n2 → node_name n1 = node_name n2.
Proof. by destruct 1. Qed.

Lemma relisted_walk (n1 : fsnode) :
  ∀ p n2, relisted n1 n2 → distinct_names n1 = true → walk_visits p n1 = walk_visits p n2.
Proof.
  induction n1 as [nm sz md mt content|nm sz md mt es1 IH] using fsnode_Forall_ind;
    intros p n2 Hrel Hdist.
  - by inversion Hrel.
  - inversion Hrel as [|? ? ? ? ? es es2 Hperm Hall]; subst.
    cbn [distinct_names] in Hdist. apply andb_prop in Hdist as [Hnd Hsub].
    apply bool_decide_eq_true in Hnd.
    cbn [walk_visits Lstat]. f_equal. f_equal. f_equal.
    set (f := fun c => (node_name c, walk_visits (path.Join p (node_name c)) c)).
    assert (Hes : map f es2 = map f es).
    { rewrite Forall_forall in IH. rewrite forallb_forall in Hsub.
      assert (Hin : ∀ c, c ∈ es → c ∈ es1) by (intros c; by rewrite Hperm).
      clear Hperm Hrel. induction Hall as [|c c' es es2 Hc _ IHall]; [done|].
      cbn [map]. f_equal.
      - unfold f. rewrite <- (relisted_name _ _ Hc). f_equal. symmetry.
        apply IH; [apply Hin; left|done|].
        apply Hsub. apply list_elem_of_In. apply Hin. left.
      - apply IHall. intros d Hd. apply Hin. by right. }
    rewrite Hes. apply sort_names_unique.
    + rewrite map_map. exact Hnd.
    + change (f <$> es1 ≡ₚ f <$> es). by rewrite Hperm.
Qed.

(** X20. The order in which the operating system lists the entries of a
    directory does not reach the output: two snapshots that differ only
    in the order of the entries of their directories (no directory
    holding two entries of the same name) are walked in the same order
    and give the same section, or the same error. *)
Theorem listing_order_irrelevant (mo : MapOrder) (w : list chunk) (dir : string)
    (n1 n2 : fsnode) :
  relisted n1 n2 →
  distinct_names n1 = true →
  walk_visits dir n1 = walk_visits dir n2
  ∧ writeSection mo w dir n1 = writeSection mo w dir n2.
Proof.
  intros Hrel Hdist.
  assert (Hwalk : ∀ p, walk_visits p n1 = walk_visits p n2)
    by (intros p; by apply relisted_walk).
  split; [done|]. unfold writeSection, Walk. cbn [root]. by rewrite Hwalk.
Qed.

End ListingFacts.

(** * Listing what was built: the round trip *)

Section ListingRoundTrip.
Import Generator Invariant Scenario Layout.
Context {RT : Runtime}.

(** X21. A directory lists what was found under it: when the build of a
    directory succeeds and no two walked paths have the same rooted name,
    opening the rooted name of any directory visited and listing it in one
    unbounded [Readdir] returns, without error, one entry for each
    non-directory walked after that directory whose parent path is the
    directory's path, in the order walked, followed by one entry for each
    directory walked from that directory on whose parent path is its path,
    in the order walked; each entry carries the name, mode, modification
    time and kind [Lstat] reported, and for a non-directory the size. *)
Theorem build_then_list (mo : MapOrder) (w : list chunk) (dir : string) (n : fsnode)
    (out sec : list chunk) :
  writeSection mo w dir n = (out, None) →
  out = w ++ sec →
  NoDup (map (fun v => rootedName (v_path v) dir) (walk_visits dir n)) →
  ∃ fs0,
    compile_section sec = Some fs0
    ∧ ∀ pre v post nm count,
        walk_visits dir n = pre ++ v :: post →
        IsDir (v_info v) = true →
        path.Clean ("/" +:+ nm) = rootedName (v_path v) dir →
        count ≤ 0 →
        ∃ af es,
          Template.Open (Some fs0) nm = Ret (Some af, None)
          ∧ Template.Readdir af count
            = Ret (Template.set_read af (Z.of_nat (length es)), (es, None))
          ∧ Forall2 describes es
              (filter (file_under (v_path v)) post
               ++ filter (dir_under (v_path v)) (v :: post)).
Proof.
  intros Hws Hout Hnd.
  destruct (built_names_exact _ _ _ _ _ _ Hws Hout Hnd) as (fs0 & Hcomp & _ & Hid & _).
  exists fs0. split; [done|].
  destruct (built_index_shape _ _ _ _ _ _ _ Hws Hout Hcomp) as (tr & Hrun & Hshape).
  cbv zeta in Hshape. destruct Hshape as (_ & Hmeta & _).
  assert (Hnd' : NoDup ((fun p => rootedName p dir) <$> (v_path <$> walk_visits dir n))).
  { by rewrite <- list_fmap_compose. }
  assert (Hpaths : NoDup (v_path <$> walk_visits dir n)) by by eapply NoDup_fmap_1.
  assert (Hsound : names_sound tr (walk_visits dir n)).
  { eapply (run_visits_names_sound (walk_visits dir n) []); [|done|exact Hrun].
    split; simpl; intros p; rewrite ?lookup_empty; done. }
  assert (Hexact : names_exact tr (walk_visits dir n)).
  { eapply (run_visits_names_exact (walk_visits dir n) []); [| |done|exact Hrun].
    - split; simpl; intros p; rewrite ?lookup_empty; done.
    - split; simpl; try done; intros k v; rewrite filter_nil; by intros ?%lookup_nil_Some. }
  assert (Hdd : dirData_exact tr (walk_visits dir n)).
  { apply (fun H1 H2 H3 =>
             run_visits_dirData_exact (walk_visits dir n) [] _ tr H1 H2 H3 Hrun); [|done|done].
    intros p di. cbn [dirData]. by rewrite lookup_empty. }
  pose proof (run_visits_effect _ _ _ Hrun) as (Hroot & Hfm & Hdm & _ & _).
  cbn [root filesMeta dirMeta app] in Hroot, Hfm, Hdm.
  clear Hws Hrun. subst dir.
  destruct (indexes_exact mo tr (walk_visits (root tr) n) Hsound Hnd')
    as (_ & Hix & Hto & _ & _).
  set (vs := walk_visits (root tr) n) in *.
  set (F := Z.of_nat (length (filesMeta tr))) in *.
  set (ixs := build_indexes _ _ _ _) in *. set (i2n := build_idx2name _) in *.
  set (sd := build_subdir _ _ _) in *.
  destruct Hexact as [Hlf Hld _ _ Hd].
  (* the entries, by rank *)
  assert (Hfile : ∀ (k : nat) u, filter is_file vs !! k = Some u →
            ∃ m, Template.meta fs0 !! (0 + k)%nat = Some m ∧ describes m u).
  { intros k u Hu. exists (meta_entry sd i2n k (v_info u)). change (0 + k)%nat with k. split.
    - rewrite Hmeta, list_lookup_imap, Hfm.
      rewrite lookup_app_l by (rewrite length_map; by eapply lookup_lt_Some).
      by rewrite list_lookup_fmap, Hu.
    - apply list_elem_of_lookup_2, list_elem_of_filter in Hu as [Hk _].
      unfold describes. rewrite (meta_entry_file _ _ _ _ Hk). by repeat split. }
  assert (Hdir : ∀ (k : nat) u, filter is_dir vs !! k = Some u →
            ∃ m, Template.meta fs0 !! (length (filesMeta tr) + k)%nat = Some m
                 ∧ describes m u).
  { intros k u Hu. exists (meta_entry sd i2n (length (filesMeta tr) + k) (v_info u)). split.
    - rewrite Hmeta, list_lookup_imap.
      rewrite lookup_app_r by lia. replace (_ + k - _)%nat with k by lia.
      by rewrite Hdm, list_lookup_fmap, Hu.
    - apply list_elem_of_lookup_2, list_elem_of_filter in Hu as [Hk _].
      unfold describes. rewrite meta_entry_isDir.
      destruct (meta_entry_fields sd i2n (length (filesMeta tr) + k) (v_info u))
        as (-> & -> & ->).
      split; [done|]. split; [done|]. split; [done|]. split; [done|]. unfold is_dir in Hk.
      congruence. }
  intros pre v post nm count Hwalk Hkind Hnm Hcount.
  assert (Hin : v ∈ filter is_dir vs).
  { apply list_elem_of_filter. split; [done|]. rewrite Hwalk. apply elem_of_app. right. left. }
  apply list_elem_of_lookup_1 in Hin as [j Hj].
  destruct (Hd _ _ Hj) as [Hname [di Hdi]].
  (* the children written for the directory *)
  assert (Hkey : i2n !! Z.of_nat (length (filesMeta tr) + j)
                 = Some (rootedName (v_path v) (root tr))).
  { apply Hto. rewrite (Hix _ _ Hname), Hdi. f_equal. subst F. lia. }
  assert (Hsd : sd !! rootedName (v_path v) (root tr)
                = Some (files di ++ map (fun x => x + F) (subdirs di))).
  { subst sd. unfold build_subdir.
    apply (foldl_insert_lookup_Some
             (fun kv : string * dirInfo => rootedName (fst kv) (root tr))
             (fun kv : string * dirInfo =>
                files (snd kv) ++ map (fun x => x + F) (subdirs (snd kv)))
             _ (v_path v, di)).
    - rewrite (range_of_perm mo). apply (rooted_keys_NoDup _ vs); [|done].
      intros p Hp. by apply (ns_dirs _ _ Hsound).
    - rewrite (range_of_perm mo). by apply elem_of_map_to_list. }
  destruct (Hdd _ _ Hdi) as (pre' & v' & post' & Hwalk' & _ & Hp' & Hfs & Hss).
  destruct (NoDup_split_unique v_path pre' pre post' post v' v) as (-> & -> & ->);
    [by rewrite <- Hwalk'|by rewrite <- Hwalk', Hwalk|done|].
  destruct (ranked_resolves (Template.meta fs0) _ 0 _ _ Hfile Hfs) as (es1 & Hres1 & Hdes1).
  destruct (ranked_resolves (Template.meta fs0) _ _ _ _ Hdir Hss) as (es2 & Hres2 & Hdes2).
  rewrite (map_ext _ id), map_id in Hres1 by (intros x; unfold id; lia).
  fold F in Hres2.
  (* opening the directory *)
  pose proof (Hid (Z.of_nat (length (filter is_file vs) + j)) v) as Hopen.
  rewrite <- Hlf in Hopen.
  assert (Hm : Template.meta fs0 !! (length (filesMeta tr) + j)%nat
               = Some (meta_entry sd i2n (length (filesMeta tr) + j) (v_info v))).
  { rewrite Hmeta, list_lookup_imap.
    rewrite lookup_app_r by lia. replace (_ + j - _)%nat with j by lia.
    by rewrite Hdm, list_lookup_fmap, Hj. }
  set (af := {| Template.rd := None;
                Template.fi := meta_entry sd i2n (length (filesMeta tr) + j) (v_info v);
                Template.fs := fs0; Template.read := 0 |}).
  exists af, (es1 ++ es2). split; [|split].
  - unfold Template.Open. rewrite Hnm, Hopen by (right; eauto).
    rewrite (index_lookup _ _ _ Hm). cbn [go_bind].
    by rewrite meta_entry_isDir, Hkind.
  - apply Readdir_fresh_all; try done.
    + subst af. cbn [Template.fi]. by rewrite meta_entry_isDir.
    + subst af. cbn [Template.fi Template.fs]. unfold meta_entry. rewrite Hkind.
      cbn [negb Template.children]. rewrite Hkey. cbn [default from_option id].
      rewrite Hsd. cbn [default from_option id]. by apply Forall2_app.
  - by apply Forall2_app.
Qed.

End ListingRoundTrip.

(** * Reading what was built *)

Section ReadRoundTrip.
Import Generator Scenario Layout FileClient.

(** X22. What is read is what was found: when the build of a directory
    succeeds and no two walked paths have the same rooted name, opening
    the rooted name of any non-directory walked and calling [Read] with a
    buffer of any positive size until it fails delivers exactly the bytes
    [ioutil.ReadFile] returned for it during the walk, and ends with
    [io.EOF], which every further [Read] repeats. *)
Theorem build_then_read (mo : MapOrder) (w : list chunk) (dir : string) (n : fsnode)
    (out sec : list chunk) :
  writeSection mo w dir n = (out, None) →
  out = w ++ sec →
  NoDup (map (fun v => rootedName (v_path v) dir) (walk_visits dir n)) →
  ∃ fs0,
    compile_section sec = Some fs0
    ∧ ∀ v nm (blen fuel : nat),
        v ∈ walk_visits dir n →
        IsDir (v_info v) = false →
        path.Clean ("/" +:+ nm) = rootedName (v_path v) dir →
        (0 < blen)%nat → (length (v_data v) < fuel)%nat →
        ∃ af af_end,
          Template.Open (Some fs0) nm = Ret (Some af, None)
          ∧ read_to_end fuel af blen = Ret (Some (v_data v, af_end, EOF))
          ∧ ∀ p, Template.Read af_end p = Ret (af_end, (p, 0, Some EOF)).
Proof.
  intros Hws Hout Hnd.
  destruct (built_names_exact _ _ _ _ _ _ Hws Hout Hnd) as (fs0 & Hcomp & _).
  exists fs0. split; [done|]. intros v nm blen fuel Hv Hkind Hnm Hb Hfuel.
  rewrite (built_open_file _ _ _ _ _ _ _ Hws Hout Hnd Hcomp v nm Hv Hkind Hnm).
  set (af := {| Template.rd := Some (Template.NewReader (v_data v)); Template.fs := fs0 |}).
  exists af, (Template.set_rd af {| Template.s := v_data v;
                                    Template.i := Z.of_nat (length (v_data v)) |}).
  split; [done|]. split.
  - rewrite (read_to_end_from fuel blen af (v_data v) 0); [done|done|done|lia|done|lia].
  - intros p.
    rewrite (Read_file _ {| Template.s := v_data v;
                            Template.i := Z.of_nat (length (v_data v)) |}) by done.
    rewrite Reader_Read_at_end by (simpl; lia). done.
Qed.

End ReadRoundTrip.

(** * The theorems at concrete inputs *)

Section Instances.
Import Template Client Generator Scenario.
#[local] Existing Instance small_machine.

Lemma C1_witness :
  (Readdir (set_read static_root 2) 7 = Ret (set_read static_root 2, ([], Some EOF))
   ∧ Readdir (set_read static_root 2) 0 = Ret (set_read static_root 2, ([], None)))
  ∧ (Readdir empty_dir_root 1 = Ret (empty_dir_root, ([], Some EOF))
     ∧ Readdir empty_dir_root (-1) = Ret (empty_dir_root, ([], None))).
Proof.
  split.
  - destruct (C1_readdir_exhaustion_asymmetry (set_read static_root 2) eq_refl) as [H _].
    destruct H as [Hb Hu]; [simpl; lia|].
    split; [apply Hb; lia|apply Hu; lia].
  - destruct (C1_readdir_exhaustion_asymmetry empty_dir_root eq_refl) as [_ H].
    destruct (H (Some empty_dir_fs) "/"%string) as [Hb Hu]; [reflexivity|reflexivity|].
    split; [apply Hb; lia|apply Hu; lia].
Defined.

Lemma C2_witness :
  Readdir (set_read static_root 1) 5
  = Ret (set_read static_root 2, ([file_entry "red" 3 420], None))
  ∧ (∃ bs, read_batches 3 static_root 1
           = Ret (Some (bs, set_read static_root 2, EOF))
           ∧ concat bs = [file_entry "green" 3 420; file_entry "red" 3 420])
  ∧ Readdir static_root 0
    = Ret (set_read static_root 2, ([file_entry "green" 3 420; file_entry "red" 3 420], None))
  ∧ Readdir static_root (2 ^ 62) = Panic "makeslice: cap out of range".
Proof.
  destruct (C2_listing_pagination (Some static_fs) "/" static_root
              [file_entry "green" 3 420; file_entry "red" 3 420])
    as (Hstep & Hall & Hunb & Hbig & _).
  - vm_compute. reflexivity.
  - reflexivity.
  - repeat constructor.
  - split; [|split; [|split]].
    + apply (Hstep 5 1); simpl; lia.
    + destruct (Hall 1 3%nat) as (bs & Hbs & Hcat & _); [lia|simpl; lia|simpl; lia|].
      exists bs. split; [exact Hbs|exact Hcat].
    + apply (Hunb 0). lia.
    + apply (Hbig (2 ^ 62) 0); [right; reflexivity|reflexivity|simpl; lia].
Defined.

Lemma C3_witness :
  Template.data static_fs = map v_data (filter is_file (walk_visits "static" static_tree))
  ∧ (∀ nm, ∃ r, Template.Open (Some static_fs) nm = Ret r)
  ∧ Template.names static_fs !! "/red"%string = Some 1
  ∧ Template.names static_fs !! "/"%string = Some 2.
Proof.
  pose proof (C3_identity_layout canonical_order [] "static" static_tree
                static_section static_section static_fs) as Hlayout.
  cbv zeta in Hlayout.
  destruct Hlayout as (Hdata & _ & _ & _ & _ & _ & _ & Hopen & _ & Hnames).
  - vm_compute. reflexivity.
  - reflexivity.
  - vm_compute. reflexivity.
  - destruct Hnames as (Hfiles & Hdirs & _).
    { apply (bool_decide_unpack _). vm_compute. exact I. }
    assert (E1 : rootedName "static/red" "static" = "/red"%string)
      by (vm_compute; reflexivity).
    assert (E2 : rootedName "static" "static" = "/"%string) by (vm_compute; reflexivity).
    assert (E3 : Z.of_nat 0
                 + Z.of_nat (length (filter is_file (walk_visits "static" static_tree))) = 2)
      by (vm_compute; reflexivity).
    pose proof (Hfiles 1%nat {| v_path := "static/red";
                                v_info := Lstat (FsFile "red" 3 420 0 abc);
                                v_data := abc |}) as Hred.
    pose proof (Hdirs 0%nat {| v_path := "static"; v_info := Lstat static_tree;
                               v_data := [] |}) as Hroot.
    cbn [v_path] in Hred, Hroot. rewrite E1 in Hred. rewrite E2, E3 in Hroot.
    split; [exact Hdata|]. split; [exact Hopen|]. split.
    + apply Hred. vm_compute. reflexivity.
    + apply Hroot. vm_compute. reflexivity.
Defined.

Lemma C5_witness :
  ∃ v, generateMain canonical_order "assets_assetfs.go" "main" "" [("assets"%string, big_tree)]
       = inl (ErrFileSize (v_path v))
       ∧ v_path v = "assets/big"%string.
Proof.
  destruct (C5_size_ceiling canonical_order "assets_assetfs.go" "main" ""
              [("assets"%string, big_tree)]) as (_ & Hbig & _).
  - discriminate.
  - destruct Hbig as (v & Hgen & _).
    + constructor. reflexivity.
    + exists v. split; [exact Hgen|].
      vm_compute in Hgen. injection Hgen as Hp. symmetry. exact Hp.
Defined.

Lemma C6_witness :
  Open (Some static_fs) "blue" = Ret (None, Some ErrNotExist)
  ∧ Open (Some static_fs) "./x/../red" = Open (Some static_fs) "red".
Proof.
  destruct (C6_not_found_same_kind static_fs "blue") as (_ & _ & _ & [Habs _] & _).
  destruct (C6_not_found_same_kind static_fs "red") as (_ & _ & _ & _ & Hkey).
  split.
  - apply Habs. vm_compute. reflexivity.
  - apply Hkey. vm_compute. reflexivity.
Defined.

Lemma C7_witness :
  Read static_root [x00; x00] = Ret (static_root, ([x00; x00], 0, Some _errIsDirectory))
  ∧ Seek static_root 1 0 = Ret (static_root, (0, Some _errIsDirectory))
  ∧ Readdir static_red 0 = Ret (static_red, ([], Some ErrInvalid)).
Proof.
  destruct C7_wrong_variant_errors as (Hdir & Hfile & _).
  destruct (Hdir static_root) as [Hread Hseek]; [reflexivity|].
  split; [apply Hread|]. split; [apply Hseek|].
  apply Hfile. reflexivity.
Defined.

End Instances.

(** * The further theorems at concrete inputs *)

Section MoreInstances.
Import Template Client Generator Scenario FileClient Command Layout.
#[local] Existing Instance small_machine.

Lemma site_root_listing :
  filter (file_under "site") (tail (walk_visits "site" site_tree))
  ++ filter (dir_under "site") (walk_visits "site" site_tree)
  = [ {| v_path := "site/app.js"; v_info := Lstat (FsFile "app.js" 0 420 0 []);
         v_data := [] |};
      {| v_path := "site/index.html"; v_info := Lstat (FsFile "index.html" 3 420 0 abc);
         v_data := abc |};
      {| v_path := "site/css";
         v_info := Lstat (FsDir "css" 4096 2147484141 0 [FsFile "a.css" 3 420 0 cde]);
         v_data := [] |} ].
Proof. vm_compute. reflexivity. Qed.

Lemma static_fs_index_ok : index_ok static_fs.
Proof.
  intros m Hm. apply list_elem_of_In in Hm. simpl in Hm.
  destruct Hm as [<-|[<-|[<-|[]]]].
  - exists []. constructor.
  - exists []. constructor.
  - exists [file_entry "green" 3 420; file_entry "red" 3 420]. repeat constructor.
Qed.

Lemma errWriter_sticky_witness :
  let ew := ErrWriter.write_all _ (Disk.write 2) (ErrWriter.ErrWriter _ []) [abc] in
  ErrWriter.Writer _ ew = [x61; x62]
  ∧ ErrWriter.Write _ (Disk.write 2) ew cde = (ew, (0, Some Disk.ENOSPC))
  ∧ ErrWriter.Err _ (ErrWriter.write_all _ (Disk.write 2) ew [cde; abc]) = Some Disk.ENOSPC.
Proof.
  intros ew.
  destruct (errWriter_sticky (Disk.write 2) ew Disk.ENOSPC) as (Hw & _ & He).
  - reflexivity.
  - split; [reflexivity|]. split; [apply Hw|apply He].
Defined.

Lemma file_read_to_end_witness :
  ∃ af_end, read_to_end 4 static_red 2 = Ret (Some (abc, af_end, EOF))
            ∧ Read af_end [x00] = Ret (af_end, ([x00], 0, Some EOF)).
Proof.
  destruct (file_read_to_end (Some static_fs) "red" static_red)
    as (fs0 & ix & d & Hrecv & Hnm & Hidx & Hread).
  - vm_compute. reflexivity.
  - reflexivity.
  - injection Hrecv as <-. vm_compute in Hnm. injection Hnm as <-.
    vm_compute in Hidx. injection Hidx as <-.
    destruct (Hread 2%nat 4%nat) as (af_end & Hr & Hend); [lia|simpl; lia|].
    exists af_end. split; [exact Hr|apply Hend].
Defined.

Lemma file_seek_then_read_witness :
  Seek static_red 1 0 = Ret (set_rd static_red {| s := abc; i := 1 |}, (1, None))
  ∧ Seek static_red (-1) 2 = Ret (set_rd static_red {| s := abc; i := 2 |}, (2, None))
  ∧ (x ←! Seek static_red 1 0; read_to_end 4 (fst x) 2)
    = Ret (Some ([x62; x63], set_rd static_red {| s := abc; i := 3 |}, EOF)).
Proof.
  destruct (file_seek_then_read static_red abc 0) as (Hset & _ & Hend & Hread).
  - reflexivity.
  - reflexivity.
  - split; [apply Hset; lia|]. split; [apply (Hend (-1)); simpl; lia|].
    apply (Hread 1 2%nat 4%nat); simpl; lia.
Defined.

Lemma file_seek_failure_keeps_handle_witness :
  Seek static_red 0 3 = Ret (static_red, (0, Some ErrSeekWhence))
  ∧ Seek static_red (-1) 0 = Ret (static_red, (0, Some ErrSeekNegative))
  ∧ Seek static_red (-4) 2 = Ret (static_red, (0, Some ErrSeekNegative)).
Proof.
  destruct (file_seek_failure_keeps_handle static_red (NewReader abc))
    as (Hwh & Hneg & _ & Hend).
  - reflexivity.
  - reflexivity.
  - split; [apply Hwh; lia|]. split; [apply Hneg; lia|]. apply Hend. simpl. lia.
Defined.

Lemma calls_keep_entry_witness :
  run [CallRead [x00; x00]; CallStat; CallSeek 0 0; CallStat; CallClose] static_red
  = Ret (static_red,
         [ReplyRead [x61; x62] 2 None; ReplyStat (file_entry "red" 3 420) None;
          ReplySeek 0 None; ReplyStat (file_entry "red" 3 420) None; ReplyClose None])
  ∧ ∀ m e,
      ReplyStat m e ∈ [ReplyRead [x61; x62] 2 None; ReplyStat (file_entry "red" 3 420) None;
                       ReplySeek 0 None; ReplyStat (file_entry "red" 3 420) None;
                       ReplyClose None] →
      m = file_entry "red" 3 420 ∧ e = None.
Proof.
  assert (Hrun : run [CallRead [x00; x00]; CallStat; CallSeek 0 0; CallStat; CallClose]
                   static_red
                 = Ret (static_red,
                        [ReplyRead [x61; x62] 2 None; ReplyStat (file_entry "red" 3 420) None;
                         ReplySeek 0 None; ReplyStat (file_entry "red" 3 420) None;
                         ReplyClose None]))
    by (vm_compute; reflexivity).
  split; [exact Hrun|].
  destruct (calls_keep_entry _ _ _ _ Hrun) as (_ & _ & Hstat). exact Hstat.
Defined.

Lemma opened_handle_never_panics_witness :
  (∃ af' rs,
     run [CallReaddir 1; CallRead [x00]; CallSeek (-5) 7; CallReaddir (-1); CallReaddir 9]
         static_root = Ret (af', rs)
     ∧ length rs = 5%nat)
  ∧ run [CallReaddir (2 ^ 62); CallStat] static_root = Panic "makeslice: cap out of range".
Proof.
  split.
  - destruct (opened_handle_never_panics static_fs "/" static_root
                [CallReaddir 1; CallRead [x00]; CallSeek (-5) 7; CallReaddir (-1);
                 CallReaddir 9]) as [Hok _].
    + exact static_fs_index_ok.
    + vm_compute. reflexivity.
    + apply Hok. repeat (constructor; [vm_compute; first [exact I|intros _; discriminate]|]).
      constructor.
  - destruct (opened_handle_never_panics static_fs "/" static_root [CallStat])
      as [_ Hpanic].
    + exact static_fs_index_ok.
    + vm_compute. reflexivity.
    + apply Hpanic; [reflexivity|reflexivity|reflexivity|discriminate].
Defined.

Lemma listing_batches_prefix_witness :
  ∃ bs n,
    readdir_seq [1; 0; 3] static_root = Ret (bs, set_read static_root n)
    ∧ concat bs = [file_entry "green" 3 420; file_entry "red" 3 420].
Proof.
  destruct (listing_batches_prefix (Some static_fs) "/" static_root
              [file_entry "green" 3 420; file_entry "red" 3 420] [1; 0; 3])
    as (bs & n & Hseq & _ & _ & Hall).
  - vm_compute. reflexivity.
  - reflexivity.
  - repeat constructor.
  - repeat (constructor; [vm_compute; intros _; discriminate|]). constructor.
  - exists bs, n. split; [exact Hseq|]. apply Hall.
    apply Exists_cons_tl, Exists_cons_hd. lia.
Defined.

Lemma file_rewind_restores_witness :
  ∃ af', run [CallRead [x00; x00]; CallSeek 1 1; CallClose] static_red
         = Ret (af', [ReplyRead [x61; x62] 2 None; ReplySeek 3 None; ReplyClose None])
         ∧ rd af' = Some {| s := abc; i := 3 |}
         ∧ Seek af' 0 0 = Ret (static_red, (0, None)).
Proof.
  eexists. split; [vm_compute; reflexivity|]. split; [reflexivity|].
  apply (file_rewind_restores (Some static_fs) "red" static_red _
           [CallRead [x00; x00]; CallSeek 1 1; CallClose]
           [ReplyRead [x61; x62] 2 None; ReplySeek 3 None; ReplyClose None]).
  - vm_compute. reflexivity.
  - reflexivity.
  - vm_compute. reflexivity.
Defined.

Lemma generateMain_sections_witness :
  generateMain canonical_order "static_assetfs.go" "main" ""
    [("static/"%string, static_tree); ("./static"%string, static_tree)]
  = inr ([Header "main" ""; Head] ++ static_section ++ static_section ++ [Tail])
  ∧ section_keys ([Header "main" ""; Head] ++ static_section ++ static_section ++ [Tail])
    = ["static"%string; "static"%string].
Proof.
  destruct (generateMain_sections canonical_order "static_assetfs.go" "main" ""
              [("static/"%string, static_tree); ("./static"%string, static_tree)])
    as [Hok _].
  - discriminate.
  - apply Hok. repeat constructor.
Defined.

Lemma build_then_open_witness :
  ∃ fs0 af,
    compile_section static_section = Some fs0
    ∧ Open (Some fs0) "red" = Ret (Some af, None)
    ∧ name (fi af) = "red"%string
    ∧ rd af = Some (NewReader abc).
Proof.
  destruct (build_then_open canonical_order [] "static" static_tree
              static_section static_section) as (fs0 & Hcomp & _ & _ & Hopen).
  - vm_compute. reflexivity.
  - reflexivity.
  - apply (bool_decide_unpack _). vm_compute. exact I.
  - destruct (Hopen {| v_path := "static/red"; v_info := Lstat (FsFile "red" 3 420 0 abc);
                       v_data := abc |} "red"%string)
      as (af & Haf & _ & _ & Hname & _ & _ & _ & Hfile).
    + apply (list_elem_of_lookup_2 _ 2%nat). reflexivity.
    + reflexivity.
    + exists fs0, af. split; [exact Hcomp|]. split; [exact Haf|]. split; [exact Hname|].
      apply Hfile. reflexivity.
Defined.

Lemma built_index_sound_witness :
  index_ok static_fs
  ∧ ∃ af' rs, run [CallReaddir 1; CallSeek 0 0; CallReaddir 0] static_root = Ret (af', rs).
Proof.
  destruct (built_index_sound canonical_order [] "static" static_tree
              static_section static_section static_fs) as (_ & Hok & Hrun).
  - vm_compute. reflexivity.
  - reflexivity.
  - vm_compute. reflexivity.
  - split; [exact Hok|]. apply (Hrun "/"%string); [vm_compute; reflexivity|].
    repeat (constructor; [vm_compute; first [exact I|intros _; discriminate]|]). constructor.
Defined.

Lemma generateMain_reproducible_witness :
  generateMain reversed_order "static_assetfs.go" "main" "" [("static"%string, static_tree)]
  = generateMain canonical_order "static_assetfs.go" "main" "" [("static"%string, static_tree)].
Proof.
  apply generateMain_reproducible. constructor; [|constructor].
  apply (bool_decide_unpack _). vm_compute. exact I.
Defined.

Lemma empty_directory_build_witness :
  writeSection reversed_order [] "empty" (FsDir "empty" 4096 2147484141 0 [])
  = ([SectionOpen "empty"; MetaOpen; MetaItem (dir_entry "empty" 2147484141 []); NamesOpen;
      NameItem "/" 0; SectionClose], None)
  ∧ Open (Some empty_dir_fs) "" = Ret (Some empty_dir_root, None)
  ∧ Readdir empty_dir_root 0 = Ret (empty_dir_root, ([], None)).
Proof.
  destruct (empty_directory_build reversed_order "empty" "empty" 4096 2147484141 0)
    as (Hsec & _ & _ & Hopen & _ & Hall & _).
  - vm_compute. discriminate.
  - split; [exact Hsec|]. split; [exact Hopen|]. apply Hall. lia.
Defined.

Lemma first_oversized_reported_witness :
  generateMain canonical_order "assets_assetfs.go" "main" ""
    [("static"%string, static_tree); ("assets"%string, big_tree); ("static"%string, static_tree)]
  = inl (ErrFileSize "assets/big").
Proof.
  apply (first_oversized_reported canonical_order "assets_assetfs.go" "main" ""
           [("static"%string, static_tree); ("assets"%string, big_tree);
            ("static"%string, static_tree)]
           (walk_visits "static" static_tree
            ++ [{| v_path := "assets"; v_info := Lstat big_tree; v_data := [] |}])
           (walk_visits "static" static_tree)
           {| v_path := "assets/big"; v_info := Lstat (FsFile "big" 11534336 420 0 []);
              v_data := [] |}).
  - discriminate.
  - reflexivity.
  - repeat constructor; intros [Hf Hsz]; vm_compute in Hf, Hsz; discriminate.
  - split; reflexivity.
Defined.

Lemma main_go_generate_defaults_witness :
  main canonical_order "main" (Some "static.go"%string) no_flags
    [("static"%string, static_tree)]
  = Done ("static_assetfs.go"%string, [Header "main" ""; Head] ++ static_section ++ [Tail])
         (Some ("static_assetfs-dev.go"%string, StubFile "main" "dev")).
Proof.
  pose proof (main_go_generate_defaults canonical_order "main" "static.go"
                [("static"%string, static_tree)]) as H.
  cbv zeta in H. rewrite H; [vm_compute; reflexivity|discriminate|discriminate].
Defined.

Lemma main_outcome_witness :
  generateMain canonical_order "out.go" "assets" "release" [("static"%string, static_tree)]
  = inr ([Header "assets" "release"; Head] ++ static_section ++ [Tail]).
Proof.
  destruct (main_outcome canonical_order "" None
              {| flag_out := Some "out.go"%string; flag_dev := None; flag_tag := Some "release"%string;
                 flag_devtag := None; flag_name := Some "assets"%string |}
              [("static"%string, static_tree)]) as [Hdone _].
  destruct (Hdone ("out.go"%string, [Header "assets" "release"; Head] ++ static_section ++ [Tail])
              None) as (_ & _ & _ & _ & Hgen & _).
  - vm_compute. reflexivity.
  - exact Hgen.
Defined.

Lemma listing_order_irrelevant_witness :
  writeSection canonical_order [] "static" static_tree
  = writeSection canonical_order [] "static" static_tree_rev.
Proof.
  apply listing_order_irrelevant; [|reflexivity].
  apply (relisted_dir _ _ _ _ _ [FsFile "green" 3 420 0 cde; FsFile "red" 3 420 0 abc]).
  - apply perm_swap.
  - repeat constructor.
Defined.

Lemma build_then_list_witness :
  ∃ fs0 af es,
    compile_section site_section = Some fs0
    ∧ Open (Some fs0) "/" = Ret (Some af, None)
    ∧ Readdir af (-1) = Ret (set_read af (Z.of_nat (length es)), (es, None))
    ∧ Forall2 describes es
        [ {| v_path := "site/app.js"; v_info := Lstat (FsFile "app.js" 0 420 0 []);
             v_data := [] |};
          {| v_path := "site/index.html"; v_info := Lstat (FsFile "index.html" 3 420 0 abc);
             v_data := abc |};
          {| v_path := "site/css";
             v_info := Lstat (FsDir "css" 4096 2147484141 0 [FsFile "a.css" 3 420 0 cde]);
             v_data := [] |} ].
Proof.
  destruct (build_then_list canonical_order [] "site" site_tree
              site_section site_section)
    as (fs0 & Hcomp & Hlist).
  - vm_compute. reflexivity.
  - reflexivity.
  - apply (bool_decide_unpack _). vm_compute. exact I.
  - destruct (Hlist [] {| v_path := "site"; v_info := Lstat site_tree; v_data := [] |}
                (tail (walk_visits "site" site_tree)) "/"%string (-1))
      as (af & es & Hopen & Hread & Hdes).
    + vm_compute. reflexivity.
    + reflexivity.
    + vm_compute. reflexivity.
    + lia.
    + exists fs0, af, es. split; [exact Hcomp|]. split; [exact Hopen|].
      split; [exact Hread|].
      rewrite <- (site_root_listing). exact Hdes.
Defined.

Lemma build_then_read_witness :
  ∃ fs0 af af_end,
    compile_section site_section = Some fs0
    ∧ Open (Some fs0) "css/../css/a.css" = Ret (Some af, None)
    ∧ read_to_end 4 af 2 = Ret (Some (cde, af_end, EOF)).
Proof.
  destruct (build_then_read canonical_order [] "site" site_tree
              site_section site_section)
    as (fs0 & Hcomp & Hread).
  - vm_compute. reflexivity.
  - reflexivity.
  - apply (bool_decide_unpack _). vm_compute. exact I.
  - destruct (Hread {| v_path := "site/css/a.css"; v_info := Lstat (FsFile "a.css" 3 420 0 cde);
                       v_data := cde |} "css/../css/a.css"%string 2%nat 4%nat)
      as (af & af_end & Hopen & Hall & _).
    + apply (list_elem_of_lookup_2 _ 3%nat). vm_compute. reflexivity.
    + reflexivity.
    + vm_compute. reflexivity.
    + lia.
    + simpl. lia.
    + exists fs0, af, af_end. split; [exact Hcomp|]. split; [exact Hopen|exact Hall].
Defined.

End MoreInstances.
